(** * ds-dataviz-assets: the statistics behind the charts

    Every chart function of the repository has the same shape: read
    columns of a pandas DataFrame, compute a derived statistic, hand the
    numbers to plotly.  This development embeds the part before plotly:
    the column accesses, the checks that raise, and the arithmetic.

    Conventions of the embedding.
    - A float that is a finite number is a rational ([Q]); the rounding
      of binary64 is not followed, except in the module [ewma_binary64],
      which runs the EWMA loop on the kernel's binary64 floats.
    - A cell of a DataFrame column is [option Q]: [None] is NaN.  The
      frames of the embedding hold finite numbers and NaN; a cell that is
      +inf or -inf is outside it.
    - A computed statistic is a [num] ([option Q]): [None] stands for a
      float that is NaN or infinite, or was computed from one; such
      values are not followed any further.
    - A Python call either returns or raises: [result].

    What the properties say about computed numbers follows from these
    conventions.  Orders, signs, counts and the outcomes of the code's own
    comparisons are stated for the statistics that are numbers, and
    rounding keeps them.  An equality between two numbers that the code
    computes along different paths is an equality of exact arithmetic; it
    is stated only where a claim is about it (the T² statistic, the
    attributions that sum to a prediction, the EWMA of a constant series),
    and the EWMA loop is also run on binary64 to show where rounding
    breaks it. *)

From Stdlib Require Import ZArith QArith Qabs Qpower Lqa Lia List String.
From Stdlib Require Import Permutation Floats Qround.
From stdpp Require Import gmap strings list pretty sorting.

Open Scope string_scope.
Open Scope list_scope.
Open Scope Z_scope.

(** ** Exceptions and results *)

Inductive exn : Type :=
| ValueError (msg : string)
| KeyError (key : string)
| IndexError
| ZeroDivisionError
| LinAlgError
| UnboundLocalError (name : string).

Inductive result (A : Type) : Type :=
| Ok (a : A)
| Raise (e : exn).
Arguments Ok {A} a.
Arguments Raise {A} e.

#[global] Instance result_ret : MRet result := fun A a => Ok a.
#[global] Instance result_bind : MBind result := fun A B f m =>
  match m with
  | Ok a => f a
  | Raise e => Raise e
  end.

Definition raises {A} (r : result A) : Prop := ∃ e, r = Raise e.

(** ** Numbers *)

Definition num : Type := option Q.

Definition fin (q : Q) : num := Some q.

Definition lift2 (f : Q → Q → Q) (a b : num) : num :=
  match a, b with
  | Some x, Some y => Some (f x y)
  | _, _ => None
  end.

Definition nadd : num → num → num := lift2 Qplus.
Definition nsub : num → num → num := lift2 Qminus.
Definition nmul : num → num → num := lift2 Qmult.

(** Division of numpy floats: a zero divisor gives inf or NaN. *)
Definition ndiv (a b : num) : num :=
  match a, b with
  | Some x, Some y => if Qeq_bool y 0 then None else Some (x / y)%Q
  | _, _ => None
  end.

Declare Scope num_scope.
Delimit Scope num_scope with num.
Bind Scope num_scope with num.
Notation "a + b" := (nadd a b) : num_scope.
Notation "a - b" := (nsub a b) : num_scope.
Notation "a * b" := (nmul a b) : num_scope.
Notation "a / b" := (ndiv a b) : num_scope.

Definition Qltb (a b : Q) : bool := negb (Qle_bool b a).

(** [x < y] and [x > y] on floats: False as soon as one side is NaN. *)
Definition flt (x y : option Q) : bool :=
  match x, y with
  | Some a, Some b => Qltb a b
  | _, _ => false
  end.
Definition fgt (x y : option Q) : bool := flt y x.

(** Python's builtin [max(0, v)]: [v] when [v > 0] holds, else the first
    argument; so 0 for a [v] that is NaN, on which every comparison is
    False.  (The charts pass a centre line minus a multiple of a square
    root: when that is not a finite number it is NaN or -inf, never +inf.) *)
Definition py_max0 (v : num) : num :=
  match v with
  | Some q => Some (if Qltb 0 q then q else 0%Q)
  | None => Some 0%Q
  end.

Definition Qsum (l : list Q) : Q := fold_right Qplus 0%Q l.

(** [Series.mean()] / [np.mean] of finite numbers: NaN on an empty input. *)
Definition nmean (l : list Q) : num :=
  match l with
  | [] => None
  | _ => Some (Qsum l / inject_Z (Z.of_nat (length l)))%Q
  end.

Definition of_Zs (l : list Z) : list Q := map inject_Z l.

(** ** DataFrames *)

Definition cell : Type := option Q.

Record DataFrame : Type := mkDataFrame {
  index : list Z;
  columns : gmap string (list cell)
}.

(** [df[name]]: KeyError when the frame has no such column. *)
Definition getitem (df : DataFrame) (name : string) : result (list cell) :=
  match columns df !! name with
  | Some c => Ok c
  | None => Raise (KeyError name)
  end.

(** [df[name] = values] on the function's private copy of the frame. *)
Definition setitem (df : DataFrame) (name : string) (c : list cell) : DataFrame :=
  {| index := index df; columns := <[name := c]> (columns df) |}.

(** [Series.dropna()]: the non-NaN values, in order. *)
Definition dropna (c : list cell) : list Q := omap id c.

(** ** Square roots

    [np.sqrt] is an external routine.  The charts are embedded over any
    function [sqrt] on the non-negative rationals; what the proofs use of
    it is stated where they use it. *)

Definition nsqrt (sqrt : Q → Q) (a : num) : num :=
  match a with
  | Some x => if Qle_bool 0 x then Some (sqrt x) else None
  | None => None
  end.

(** A concrete square root, to four decimal places, for running the model. *)
Definition sqrt_4dp (x : Q) : Q :=
  Qmake (Z.sqrt (Qnum x * Zpos (Qden x) * 100000000)) (Qden x * 10000).

(** ** Helpers shared by the attribute charts *)

(** [spec is not None] *)
Definition is_not_None (spec : option Q) : bool :=
  match spec with Some _ => true | None => false end.

Definition Zsum (l : list Z) : Z := fold_right Z.add 0 l.

(** [df.groupby(keys)[vals]]: the groups in increasing key order, each
    with its values in row order. *)
Fixpoint group_insert {A} (k : Z) (v : A) (g : list (Z * list A)) : list (Z * list A) :=
  match g with
  | [] => [(k, [v])]
  | (k', vs) :: g' =>
      if k <? k' then (k, [v]) :: g
      else if k =? k' then (k', vs ++ [v]) :: g'
      else (k', vs) :: group_insert k v g'
  end.

Definition groupby {A} (keys : list Z) (vals : list A) : list (Z * list A) :=
  fold_left (λ g kv, group_insert kv.1 kv.2 g) (zip keys vals) [].

(** Three limits of a chart with fixed control lines. *)
Record limits : Type := mkLimits { LCL : num; CL : num; UCL : num }.

(** 0 ≤ LCL ≤ CL ≤ UCL, for limits that are numbers. *)
Definition ordered_from_zero (l c u : num) : Prop :=
  ∀ ql qc qu, l = Some ql → c = Some qc → u = Some qu →
    (0 <= ql ∧ ql <= qc ∧ qc <= qu)%Q.

(** ** src/spc/c_chart.py *)
Module c_chart.

Definition msg : string := "You must define at least one specification limit.".

Definition count_defects (lower_spec upper_spec : option Q) (x : cell) : Z :=
  let defect_count := 0 in
  let defect_count :=
    if is_not_None lower_spec && flt x lower_spec then defect_count + 1 else defect_count in
  let defect_count :=
    if is_not_None upper_spec && fgt x upper_spec then defect_count + 1 else defect_count in
  defect_count.

Record chart : Type := mkChart { defect_count : list Z; lims : limits }.

Section with_sqrt.
Variable sqrt : Q → Q.

Definition plot_c_chart (df : DataFrame) (column : string)
    (lower_spec upper_spec : option Q) : result chart :=
  if negb (is_not_None lower_spec) && negb (is_not_None upper_spec)
  then Raise (ValueError msg)
  else
    xs ← getitem df column;
    let defect_count := count_defects lower_spec upper_spec <$> xs in
    let c_bar := nmean (of_Zs defect_count) in
    let UCL := (c_bar + fin 3 * nsqrt sqrt c_bar)%num in
    let LCL := py_max0 (c_bar - fin 3 * nsqrt sqrt c_bar)%num in
    mret {| defect_count := defect_count;
            lims := {| LCL := LCL; CL := c_bar; UCL := UCL |} |}.

End with_sqrt.
End c_chart.

(** ** src/spc/np_chart.py *)
Module np_chart.

Definition msg : string := "At least one of lower_spec or upper_spec must be specified.".

Definition is_defective (lower_spec upper_spec : option Q) (x : cell) : Z :=
  if is_not_None lower_spec && flt x lower_spec then 1
  else if is_not_None upper_spec && fgt x upper_spec then 1
  else 0.

Record chart : Type := mkChart { np_values : option (list (Z * Z)); lims : limits }.

Section with_sqrt.
Variable sqrt : Q → Q.

(** [df.index // 0] gives the labels inf and NaN, which the model does not
    follow: with a zero subgroup size the points and the statistics are
    [None]. *)
Definition plot_np_chart (df : DataFrame) (column : string) (subgroup_size : Z)
    (lower_spec upper_spec : option Q) : result chart :=
  if negb (is_not_None lower_spec) && negb (is_not_None upper_spec)
  then Raise (ValueError msg)
  else
    xs ← getitem df column;
    let defective := is_defective lower_spec upper_spec <$> xs in
    let subgroup := (λ i, i `div` subgroup_size) <$> index df in
    let np_values := (λ g, (g.1, Zsum g.2)) <$> groupby subgroup defective in
    let np_bar :=
      if subgroup_size =? 0 then None else nmean (of_Zs (np_values.*2)) in
    let n := fin (inject_Z subgroup_size) in
    let p_bar := (np_bar / n)%num in
    let UCL := (n * (p_bar + fin 3 * nsqrt sqrt (p_bar * (fin 1 - p_bar) / n)))%num in
    let LCL := (n * (p_bar - fin 3 * nsqrt sqrt (p_bar * (fin 1 - p_bar) / n)))%num in
    let LCL := py_max0 LCL in
    mret {| np_values := if subgroup_size =? 0 then None else Some np_values;
            lims := {| LCL := LCL; CL := np_bar; UCL := UCL |} |}.

End with_sqrt.
End np_chart.

(** ** src/spc/p_chart.py *)
Module p_chart.

Definition msg : string := "At least one of lower_spec or upper_spec must be defined.".

Definition is_defective (lower_spec upper_spec : option Q) (x : cell) : Z :=
  if is_not_None lower_spec && flt x lower_spec then 1
  else if is_not_None upper_spec && fgt x upper_spec then 1
  else 0.

Record chart : Type := mkChart { p : option (list (Z * Q)); lims : limits }.

Section with_sqrt.
Variable sqrt : Q → Q.

(** A group of [groupby] is never empty, so [subgroup_counts] is never 0
    and each proportion is a number.  As in the np chart, a zero subgroup
    size is not followed. *)
Definition plot_p_chart (df : DataFrame) (column : string) (subgroup_size : Z)
    (lower_spec upper_spec : option Q) : result chart :=
  if negb (is_not_None lower_spec) && negb (is_not_None upper_spec)
  then Raise (ValueError msg)
  else
    xs ← getitem df column;
    let defective := is_defective lower_spec upper_spec <$> xs in
    let subgroup := (λ i, i `div` subgroup_size) <$> index df in
    let grouped := groupby subgroup defective in
    let p := (λ g, (g.1, inject_Z (Zsum g.2) / inject_Z (Z.of_nat (length g.2)))%Q)
               <$> grouped in
    let p_bar := if subgroup_size =? 0 then None else nmean (p.*2) in
    let n := fin (inject_Z subgroup_size) in
    let UCL := (p_bar + fin 3 * nsqrt sqrt (p_bar * (fin 1 - p_bar) / n))%num in
    let LCL := (p_bar - fin 3 * nsqrt sqrt (p_bar * (fin 1 - p_bar) / n))%num in
    let LCL := py_max0 LCL in
    mret {| p := if subgroup_size =? 0 then None else Some p;
            lims := {| LCL := LCL; CL := p_bar; UCL := UCL |} |}.

End with_sqrt.
End p_chart.

(** ** src/spc/u_chart.py *)
Module u_chart.

Definition msg : string := "At least one of lower_spec or upper_spec must be specified.".

Definition count_defects (lower_spec upper_spec : option Q) (x : cell) : Z :=
  if is_not_None lower_spec && flt x lower_spec then 1
  else if is_not_None upper_spec && fgt x upper_spec then 1
  else 0.

(** [Series.clip(lower=0)]: NaN stays NaN. *)
Definition clip_lower0 (v : num) : num :=
  match v with
  | Some q => Some (if Qltb q 0 then 0%Q else q)
  | None => None
  end.

(** [u > UCL] as a column of the frame: True is 1, False is 0. *)
Definition gt_cell (a b : num) : cell :=
  match a, b with
  | Some x, Some y => Some (if Qltb y x then 1%Q else 0%Q)
  | _, _ => None
  end.

Record chart : Type := mkChart {
  sample_size : list cell;
  u : list num;
  u_bar : num;
  UCL : list num;
  LCL : list num
}.

Section with_sqrt.
Variable sqrt : Q → Q.

Definition plot_u_chart (df : DataFrame) (column sample_size_col : string)
    (lower_spec upper_spec : option Q) : result chart :=
  if negb (is_not_None lower_spec) && negb (is_not_None upper_spec)
  then Raise (ValueError msg)
  else
    xs ← getitem df column;
    let defect_count := count_defects lower_spec upper_spec <$> xs in
    let df := setitem df "defect_count" (fin ∘ inject_Z <$> defect_count) in
    sample_size ← getitem df sample_size_col;
    let df := setitem df "sample_size" sample_size in
    let u := zip_with (λ d n, fin (inject_Z d) / n)%num defect_count sample_size in
    let df := setitem df "u" u in
    let u_bar := (fin (inject_Z (Zsum defect_count)) / fin (Qsum (dropna sample_size)))%num in
    let UCL := (λ n, u_bar + fin 3 * nsqrt sqrt (u_bar / n))%num <$> sample_size in
    let df := setitem df "UCL" UCL in
    let LCL := (λ n, u_bar - fin 3 * nsqrt sqrt (u_bar / n))%num <$> sample_size in
    let df := setitem df "LCL" LCL in
    let LCL := clip_lower0 <$> LCL in
    let df := setitem df "LCL" LCL in
    let df := setitem df "out_of_control" (zip_with gt_cell u UCL) in
    _ ← getitem df column;
    _ ← getitem df "material_salida";
    mret {| sample_size := sample_size; u := u; u_bar := u_bar;
            UCL := UCL; LCL := LCL |}.

End with_sqrt.
End u_chart.

(** ** Helpers shared by the subgroup charts *)

(** [a // b] on Python integers. *)
Definition floordiv (a b : Z) : result Z :=
  if b =? 0 then Raise ZeroDivisionError else Ok (a `div` b).

(** [data[:stop]] *)
Definition slice_to {A} (l : list A) (stop : Z) : list A :=
  if stop <? 0 then take (Z.to_nat (Z.of_nat (length l) + stop)) l
  else take (Z.to_nat stop) l.

(** [rows] consecutive blocks of [cols] values. *)
Fixpoint chunks {A} (rows cols : nat) (l : list A) : list (list A) :=
  match rows with
  | O => []
  | S rows' => take cols l :: chunks rows' cols (drop cols l)
  end.

Definition reshape_msg : string := "cannot reshape array".

(** [a.reshape((k, s))] of a one-dimensional array.  A dimension of -1 is
    inferred from the other one; two of them, or any other negative
    dimension, or a shape of another size, is a ValueError. *)
Definition reshape {A} (l : list A) (k s : Z) : result (list (list A)) :=
  let size := Z.of_nat (length l) in
  if (0 <=? k) && (0 <=? s) then
    if k * s =? size then Ok (chunks (Z.to_nat k) (Z.to_nat s) l)
    else Raise (ValueError reshape_msg)
  else if (k =? -1) && (0 <? s) && (size `mod` s =? 0) then
    Ok (chunks (Z.to_nat (size `div` s)) (Z.to_nat s) l)
  else if (s =? -1) && (0 <? k) && (size `mod` k =? 0) then
    Ok (chunks (Z.to_nat k) (Z.to_nat (size `div` k)) l)
  else Raise (ValueError reshape_msg).

Definition Qmaximum (x : Q) (l : list Q) : Q :=
  fold_left (λ a b, if Qltb a b then b else a) l x.
Definition Qminimum (x : Q) (l : list Q) : Q :=
  fold_left (λ a b, if Qltb b a then b else a) l x.

(** [np.ptp] of one row: maximum minus minimum. *)
Definition ptp (row : list Q) : num :=
  match row with
  | [] => None
  | x :: r => Some (Qmaximum x r - Qminimum x r)%Q
  end.

(** [np.std(row, ddof=1)]: the sample standard deviation; a row of one
    value divides by zero and gives NaN. *)
Definition std_ddof1 (sqrt : Q → Q) (row : list Q) : num :=
  match nmean row with
  | Some m =>
      let ss := Qsum ((λ x, (x - m) * (x - m))%Q <$> row) in
      nsqrt sqrt (fin ss / fin (inject_Z (Z.of_nat (length row) - 1)))%num
  | None => None
  end.

(** The mean of computed values: a number when all of them are. *)
Definition nmean_of (l : list num) : num :=
  match mapM id l with
  | Some qs => nmean qs
  | None => None
  end.

Definition too_few_msg : string :=
  "Subgroup size is larger than the number of non-NA data points.".

Definition unsupported_msg (subgroup_size : Z) : string :=
  "Subgroup size " +:+ pretty subgroup_size +:+ " not supported. Valid sizes: 2-10".

(** [table[subgroup_size]] for a table keyed 2 to 10: a missing key is the
    KeyError that the [try] turns into the ValueError. *)
Definition lookup_constant (table : list (Z * Q)) (subgroup_size : Z) : result Q :=
  match list_find (λ kv, kv.1 = subgroup_size) table with
  | Some (_, kv) => Ok kv.2
  | None => Raise (ValueError (unsupported_msg subgroup_size))
  end.

(** ** src/spc_charts/x_bar_r.py *)
Module x_bar_r.

Definition A2 : list (Z * Q) :=
  [(2, 1.88%Q); (3, 1.023%Q); (4, 0.729%Q); (5, 0.577%Q); (6, 0.483%Q); (7, 0.419%Q);
   (8, 0.373%Q); (9, 0.337%Q); (10, 0.308%Q)].
Definition D3 : list (Z * Q) :=
  [(2, 0%Q); (3, 0%Q); (4, 0%Q); (5, 0%Q); (6, 0%Q); (7, 0.076%Q); (8, 0.136%Q);
   (9, 0.184%Q); (10, 0.223%Q)].
Definition D4 : list (Z * Q) :=
  [(2, 3.267%Q); (3, 2.574%Q); (4, 2.282%Q); (5, 2.114%Q); (6, 2.004%Q); (7, 1.924%Q);
   (8, 1.864%Q); (9, 1.816%Q); (10, 1.777%Q)].

Record chart : Type := mkChart {
  groups : list (list Q);
  xbars : list num;
  ranges : list num;
  Xbar_bar : num; R_bar : num;
  UCL_x : num; LCL_x : num; UCL_R : num; LCL_R : num
}.

Definition xbar_r_chart_plotly (df : DataFrame) (value_column grouping_column : string)
    (subgroup_size : Z) : result chart :=
  data_series ← getitem df value_column;
  let data := dropna data_series in
  k ← floordiv (Z.of_nat (length data)) subgroup_size;
  if k =? 0 then Raise (ValueError too_few_msg)
  else
    groups ← reshape (slice_to data (k * subgroup_size)) k subgroup_size;
    let xbars := nmean <$> groups in
    let ranges := ptp <$> groups in
    _ ← getitem df grouping_column;
    let Xbar_bar := nmean_of xbars in
    let R_bar := nmean_of ranges in
    A2 ← lookup_constant A2 subgroup_size;
    D3 ← lookup_constant D3 subgroup_size;
    D4 ← lookup_constant D4 subgroup_size;
    mret {| groups := groups; xbars := xbars; ranges := ranges;
            Xbar_bar := Xbar_bar; R_bar := R_bar;
            UCL_x := (Xbar_bar + fin A2 * R_bar)%num;
            LCL_x := (Xbar_bar - fin A2 * R_bar)%num;
            UCL_R := (fin D4 * R_bar)%num;
            LCL_R := (fin D3 * R_bar)%num |}.

End x_bar_r.

(** ** src/spc/x_bar_s.py *)
Module x_bar_s.

Definition A3 : list (Z * Q) :=
  [(2, 2.659%Q); (3, 1.954%Q); (4, 1.628%Q); (5, 1.427%Q); (6, 1.287%Q); (7, 1.182%Q);
   (8, 1.099%Q); (9, 1.032%Q); (10, 0.975%Q)].
Definition B3 : list (Z * Q) :=
  [(2, 0%Q); (3, 0%Q); (4, 0%Q); (5, 0%Q); (6, 0.030%Q); (7, 0.118%Q); (8, 0.185%Q);
   (9, 0.239%Q); (10, 0.284%Q)].
Definition B4 : list (Z * Q) :=
  [(2, 3.267%Q); (3, 2.568%Q); (4, 2.266%Q); (5, 2.089%Q); (6, 1.970%Q); (7, 1.882%Q);
   (8, 1.815%Q); (9, 1.761%Q); (10, 1.716%Q)].

Record chart : Type := mkChart {
  groups : list (list Q);
  xbars : list num;
  s_values : list num;
  Xbar_bar : num; S_bar : num;
  UCL_x : num; LCL_x : num; UCL_S : num; LCL_S : num
}.

Section with_sqrt.
Variable sqrt : Q → Q.

Definition plot_xbar_s_chart (df : DataFrame) (value_column grouping_column : string)
    (subgroup_size : Z) : result chart :=
  data_series ← getitem df value_column;
  let data := dropna data_series in
  k ← floordiv (Z.of_nat (length data)) subgroup_size;
  if k =? 0 then Raise (ValueError too_few_msg)
  else
    groups ← reshape (slice_to data (k * subgroup_size)) k subgroup_size;
    let xbars := nmean <$> groups in
    let s_values := std_ddof1 sqrt <$> groups in
    _ ← getitem df grouping_column;
    let Xbar_bar := nmean_of xbars in
    let S_bar := nmean_of s_values in
    A3 ← lookup_constant A3 subgroup_size;
    B3 ← lookup_constant B3 subgroup_size;
    B4 ← lookup_constant B4 subgroup_size;
    mret {| groups := groups; xbars := xbars; s_values := s_values;
            Xbar_bar := Xbar_bar; S_bar := S_bar;
            UCL_x := (Xbar_bar + fin A3 * S_bar)%num;
            LCL_x := (Xbar_bar - fin A3 * S_bar)%num;
            UCL_S := (fin B4 * S_bar)%num;
            LCL_S := (fin B3 * S_bar)%num |}.

End with_sqrt.
End x_bar_s.

(** ** src/spc/imr_chart.py *)
Module imr_chart.

Definition msg : string :=
  "At least 2 data points required for Moving Range calculation".

(** [np.diff(data)]: [data[i+1] - data[i]]. *)
Definition diff (data : list Q) : list Q :=
  zip_with (λ a b, b - a)%Q data (tail data).

Definition E2 : Q := 2.659.
Definition D3 : Q := 0.
Definition D4 : Q := 3.267.

Record chart : Type := mkChart {
  data : list Q;
  moving_ranges : list Q;
  X_bar : num; MR_bar : num;
  UCL_x : num; LCL_x : num; UCL_mr : num; LCL_mr : num
}.


End imr_chart.

(** ** src/spc/ewma_chart.py

    The smoothing loop is written once, over any arithmetic, and run on
    two of them: the exact numbers of this development and binary64. *)
Module ewma_chart.

Section loop.
Context {F : Type}.
Variables (zero one : F) (add sub mul : F → F → F) (mean : list F → F).

(** One turn of [for i in range(1, n)]:
    [ewma[i] = lambda_value * x[i] + (1 - lambda_value) * ewma[i - 1]]. *)
Definition ewma_step (lambda_value : F) (x : list F) (ewma : list F) (i : nat) : list F :=
  match x !! i, ewma !! (i - 1)%nat with
  | Some xi, Some prev =>
      <[i := add (mul lambda_value xi) (mul (sub one lambda_value) prev)]> ewma
  | _, _ => ewma
  end.

(** Lines 24 to 35: [ewma[0] = mu] on an empty array is an IndexError. *)
Definition ewma_values (lambda_value : F) (x : list F) : result (list F) :=
  let n := length x in
  let mu := mean x in
  let ewma := replicate n zero in
  match n with
  | O => Raise IndexError
  | S _ =>
      let ewma := <[0%nat := mu]> ewma in
      Ok (foldl (ewma_step lambda_value x) ewma (seq 1 (n - 1)))
  end.

End loop.

Definition domain_msg : string := "math domain error".

(** [math.sqrt] on a Python float. *)
Definition math_sqrt (sqrt : Q → Q) (x : Q) : result Q :=
  if Qle_bool 0 x then Ok (sqrt x) else Raise (ValueError domain_msg).

(** [a / b] on Python floats. *)
Definition truediv (a b : Q) : result Q :=
  if Qeq_bool b 0 then Raise ZeroDivisionError else Ok (a / b)%Q.

(** [np.std(x, ddof=1)] of a column that may hold NaN. *)
Definition std_of (sqrt : Q → Q) (x : list cell) : num :=
  match mapM id x with
  | Some qs => std_ddof1 sqrt qs
  | None => None
  end.

Record chart : Type := mkChart {
  ewma : list num; mu : num; ucl : list num; lcl : list num
}.

Section with_sqrt.
Variable sqrt : Q → Q.

Definition exact_ewma (lambda_value : Q) (x : list cell) : result (list num) :=
  ewma_values (fin 0) (fin 1) nadd nsub nmul nmean_of (fin lambda_value) x.

Definition plot_ewma_chart (df : DataFrame) (value_column : string)
    (lambda_value : Q) (l_value : Z) : result chart :=
  x ← getitem df value_column;
  let n := length x in
  let mu := nmean_of x in
  let sigma := std_of sqrt x in
  ewma ← exact_ewma lambda_value x;
  std_dev ← mapM (λ i : nat,
      q ← truediv lambda_value (2 - lambda_value);
      a ← math_sqrt sqrt q;
      b ← math_sqrt sqrt (1 - (1 - lambda_value) ^ (2 * (Z.of_nat i + 1)));
      mret (fin a * sigma * fin b)%num) (seq 0 n);
  let ucl := (λ s, mu + fin (inject_Z l_value) * s)%num <$> std_dev in
  let lcl := (λ s, mu - fin (inject_Z l_value) * s)%num <$> std_dev in
  mret {| ewma := ewma; mu := mu; ucl := ucl; lcl := lcl |}.

End with_sqrt.
End ewma_chart.

(** The same loop on binary64, the arithmetic the code runs on. *)
Module ewma_binary64.

(** [np.mean]: the sum from left to right (numpy's order for fewer than
    eight values), divided by the length. *)
Definition mean (l : list float) : float :=
  (fold_left PrimFloat.add l 0 / PrimFloat.of_uint63 (Uint63.of_Z (Z.of_nat (length l))))%float.

Definition ewma_values (lambda_value : float) (x : list float) : result (list float) :=
  ewma_chart.ewma_values 0%float 1%float PrimFloat.add PrimFloat.sub PrimFloat.mul mean
    lambda_value x.

(** The literals [0.1] and [0.2], rounded to binary64 as Python reads them. *)
Definition lit_0_1 : float := (1 / 10)%float.
Definition lit_0_2 : float := (2 / 10)%float.

End ewma_binary64.

(** ** Helpers shared by the ECDF charts *)

(** [np.arange(1, n + 1) / n] *)
Definition arange_over (n : nat) : list Q :=
  (λ i : nat, inject_Z (Z.of_nat i) / inject_Z (Z.of_nat n))%Q <$> seq 1 n.

Fixpoint insert_sorted (x : Q) (l : list Q) : list Q :=
  match l with
  | [] => [x]
  | y :: l' => if Qle_bool x y then x :: l else y :: insert_sorted x l'
  end.

(** [np.sort] of finite numbers: increasing order. *)
Definition sort (l : list Q) : list Q := fold_right insert_sorted [] l.

(** [np.sort] of an array that may hold NaN: the numbers in increasing
    order, then the NaNs. *)
Definition sort_nan_last (l : list num) : list num :=
  (Some <$> sort (omap id l)) ++ filter (λ v, v = None) l.

(** ** src/standard/ecdf.py *)
Module ecdf.

Record chart : Type := mkChart {
  sorted : list Q;      (* the local [df] after [np.sort]: computed, not plotted *)
  trace_x : DataFrame;  (* [x=data] *)
  y : list Q            (* [y=y] *)
}.

(** [DataFrame.size]: number of rows times number of columns. *)
Definition size_of (data : DataFrame) : nat :=
  (length (index data) * size (columns data))%nat.

Definition plot_ecdf (data : DataFrame) (numeric_col : string) : result chart :=
  col ← getitem data numeric_col;
  let df := sort (dropna col) in
  let n := size_of data in
  let y := arange_over n in
  mret {| sorted := df; trace_x := data; y := y |}.

End ecdf.

(** ** src/model/cummulative_residuals.py *)
Module cummulative_residuals.

Definition length_msg : string := "operands could not be broadcast together".

Record chart : Type := mkChart { sorted_residuals : list num; ecdf : list Q }.

(** [model.predict] is the fitted model: from the feature columns to one
    prediction per row.  A prediction array of another length than the
    target column cannot be subtracted from it. *)
Definition plot_cumulative_error_distribution
    (model : list (list cell) → list num) (feature_names : list string)
    (data : DataFrame) (target_name : string) : result chart :=
  X ← mapM (getitem data) feature_names;
  y_true ← getitem data target_name;
  let y_pred := model X in
  if negb (length y_true =? length y_pred)%nat then Raise (ValueError length_msg)
  else
    let residuals := zip_with (λ t p, option_map Qabs (t - p)%num) y_true y_pred in
    let sorted_residuals := sort_nan_last residuals in
    let ecdf := arange_over (length sorted_residuals) in
    mret {| sorted_residuals := sorted_residuals; ecdf := ecdf |}.

End cummulative_residuals.

(** ** Helpers shared by the SHAP charts *)

(** What [shap.Explainer(model)(data)] returns: per row the attribution of
    each feature, and per row a baseline. *)
Record Explanation : Type := mkExplanation {
  values : list (list Q);
  base_values : list Q
}.

(** [a[i]] with Python's negative indices. *)
Definition py_index {A} (l : list A) (i : Z) : result A :=
  let j := if i <? 0 then Z.of_nat (length l) + i else i in
  if j <? 0 then Raise IndexError
  else match l !! Z.to_nat j with
       | Some a => Ok a
       | None => Raise IndexError
       end.

(** Insertion of an index, smaller than those of the list, into a list of
    indices kept in increasing order of [key]: it goes before the first
    index whose key is not smaller, so before those of equal key. *)
Fixpoint insert_by (key : nat → Q) (i : nat) (l : list nat) : list nat :=
  match l with
  | [] => [i]
  | j :: l' => if Qle_bool (key i) (key j) then i :: l else j :: insert_by key i l'
  end.

(** [a.argsort()]: the indices of [a] in increasing order of value.  numpy
    does not promise an order among equal values; this one keeps them in
    their order of appearance (as numpy's sort of a short array does). *)
Definition argsort (a : list Q) : list nat :=
  fold_right (insert_by (λ i, default 0%Q (a !! i))) [] (seq 0 (length a)).

(** [a[idx]] for an index array [idx] of valid positions. *)
Definition take_at {A} (a : list A) (idx : list nat) : list A :=
  omap (λ i, a !! i) idx.

(** [np.cumsum] *)
Fixpoint cumsum_from (acc : Q) (l : list Q) : list Q :=
  match l with
  | [] => []
  | x :: l' => (acc + x)%Q :: cumsum_from (acc + x)%Q l'
  end.
Definition cumsum (l : list Q) : list Q := cumsum_from 0 l.

(** ** src/shappley/waterfall_plot.py *)
Module waterfall_plot.

Record chart : Type := mkChart {
  base_value : Q;
  predicted_value : Q;          (* the annotation's "Prediction" *)
  sorted_features : list string;
  sorted_shap : list Q          (* the bars, in plotted order *)
}.

Definition plot_shap_waterfall_catboost (shap_values : Explanation)
    (data : DataFrame) (row_index : Z) (feature_names : list string) : result chart :=
  row_shap_values ← py_index (values shap_values) row_index;
  base_value ← py_index (base_values shap_values) row_index;
  let predicted_value := (base_value + Qsum row_shap_values)%Q in
  _ ← py_index (index data) row_index;
  let sorted_idx := reverse (argsort (Qabs <$> row_shap_values)) in
  sorted_features ← mapM (λ i : nat, py_index feature_names (Z.of_nat i)) sorted_idx;
  let sorted_shap := take_at row_shap_values sorted_idx in
  mret {| base_value := base_value; predicted_value := predicted_value;
          sorted_features := sorted_features; sorted_shap := sorted_shap |}.

End waterfall_plot.

(** ** src/shappley/decision_plot.py *)
Module decision_plot.

(** One trace per plotted row: the running sum, starting at the baseline. *)
Record chart : Type := mkChart {
  base_value : Q;
  traces : list (Z * list Q)
}.

(** The local [features] is bound inside the loop only: line 45 reads it
    after the loop, which without a turn of the loop is an
    UnboundLocalError. *)
Definition plot_shap_decision_catboost (shap_values : Explanation)
    (data : DataFrame) (indices : list Z) (feature_names : list string) : result chart :=
  base_value ← py_index (base_values shap_values) 0;
  traces ← mapM (λ idx : Z,
      row_values ← py_index (values shap_values) idx;
      let cumulative := (λ c, c + base_value)%Q <$> cumsum (0%Q :: row_values) in
      _ ← mapM (λ i : nat, py_index row_values (Z.of_nat i))
             (seq 0 (length feature_names));
      mret (idx, cumulative)) indices;
  _ ← match indices with
      | [] => Raise (UnboundLocalError "features")
      | _ => Ok feature_names
      end;
  mret {| base_value := base_value; traces := traces |}.

End decision_plot.

(** ** src/spc/t2_chart.py *)
Module t2_chart.

Definition vector : Type := list num.
Definition matrix : Type := list (list num).

Definition nsum (v : vector) : num := fold_left nadd v (fin 0).

(** [u @ v] for two vectors. *)
Definition dot (u v : vector) : num := nsum (zip_with nmul u v).

(** Column [k] of a matrix. *)
Definition col (m : matrix) (k : nat) : vector := (λ row, default None (row !! k)) <$> m.

(** [v @ m] for a vector and a matrix: one entry per column of [m]. *)
Definition vecmat (v : vector) (m : matrix) (p : nat) : vector :=
  (λ k, dot v (col m k)) <$> seq 0 p.

(** [df[numeric_columns].dropna().values]: the rows of the selected
    columns that hold no NaN. *)
Definition rows_of (n : nat) (cols : list (list cell)) : list (list cell) :=
  (λ i, (λ c, default None (c !! i)) <$> cols) <$> seq 0 n.
Definition complete_rows (rows : list (list cell)) : list (list Q) :=
  omap (mapM id) rows.

(** [np.nanmean(X, axis=0)] *)
Definition column_means (X : list (list Q)) (p : nat) : vector :=
  (λ k, nmean ((λ row, default 0%Q (row !! k)) <$> X)) <$> seq 0 p.

(** [np.cov(X, rowvar=False)]: the sample covariance, with divisor n - 1. *)
Definition cov (X : list (list Q)) (p : nat) : matrix :=
  let n := length X in
  let m := column_means X p in
  let centred := (λ row, zip_with nsub (Some <$> row) m) <$> X in
  (λ j, (λ k, dot (col centred j) (col centred k)
               / fin (inject_Z (Z.of_nat n - 1)))%num <$> seq 0 p) <$> seq 0 p.

Definition length_msg : string := "All arrays must be of same length".

Record chart : Type := mkChart {
  T2 : list num;
  Is_Outlier : list (option bool);
  UCL : num
}.

Section externals.
(** [np.linalg.inv] and [scipy.stats.f.ppf] are external routines. *)
Variable inv : matrix → result matrix.
Variable ppf : Q → Z → Z → num.

(** [p * (n - 1) * (n + 1) / (n * (n - p))] on Python integers. *)
Definition scale (n p : Z) : result Q :=
  if n * (n - p) =? 0 then Raise ZeroDivisionError
  else Ok (inject_Z (p * (n - 1) * (n + 1)) / inject_Z (n * (n - p)))%Q.

Definition limit (alpha : Q) (n p : Z) : result num :=
  c ← scale n p;
  mret (fin c * ppf (1 - alpha) p (n - p))%num.

(** [t2 > limit] on floats: not followed when a side is not a number. *)
Definition gt (a b : num) : option bool :=
  match a, b with
  | Some x, Some y => Some (Qltb y x)
  | _, _ => None
  end.

(** Lines 69 to 83: the statistic of every complete row. *)
Definition t2_values (df : DataFrame) (numeric_columns : list string)
    : result (list cell * list (list Q) * list num) :=
  cols ← mapM (getitem df) numeric_columns;
  let X := complete_rows (rows_of (length (index df)) cols) in
  material_labels ← getitem df "material_salida";
  let p := length numeric_columns in
  let X_mean := column_means X p in
  let S := cov X p in
  S_inv ← inv S;
  let T2 := (λ x, let diff := zip_with nsub (Some <$> x) X_mean in
                  dot (vecmat diff S_inv p) diff) <$> X in
  mret (material_labels, X, T2).

Definition plot_t2_chart (df : DataFrame) (numeric_columns : list string)
    (alpha : Q) : result chart :=
  '(material_labels, X, T2) ← t2_values df numeric_columns;
  let n := Z.of_nat (length X) in
  let p := Z.of_nat (length numeric_columns) in
  Is_Outlier ← mapM (λ t2, l ← limit alpha n p; mret (gt t2 l)) T2;
  if negb (length material_labels =? length T2)%nat then Raise (ValueError length_msg)
  else
    UCL ← limit alpha n p;
    mret {| T2 := T2; Is_Outlier := Is_Outlier; UCL := UCL |}.

End externals.
End t2_chart.

(** ** Helpers shared by the model and explanation charts *)

(** [Series.min()] and [Series.max()]: over the values that are not NaN;
    NaN when there is none. *)
Definition series_min (c : list cell) : num :=
  match dropna c with
  | [] => None
  | x :: r => Some (Qminimum x r)
  end.
Definition series_max (c : list cell) : num :=
  match dropna c with
  | [] => None
  | x :: r => Some (Qmaximum x r)
  end.

Definition samples_msg (num : Z) : string :=
  "Number of samples, " +:+ pretty num +:+ ", must be non-negative.".

(** [np.linspace(start, stop, num)], as numpy computes it: the steps
    [0, 1, ..., num - 1] scaled by [(stop - start) / (num - 1)] and shifted
    by [start], the last sample then set to [stop]. *)
Definition linspace (start stop : num) (n : Z) : result (list num) :=
  if n <? 0 then Raise (ValueError (samples_msg n))
  else
    let div := n - 1 in
    let delta := (stop - start)%num in
    let y := (λ i : nat, fin (inject_Z (Z.of_nat i))) <$> seq 0 (Z.to_nat n) in
    let y := if 0 <? div then (λ v, v * (delta / fin (inject_Z div)))%num <$> y
             else (λ v, v * delta)%num <$> y in
    let y := (λ v, v + start)%num <$> y in
    let y := if 1 <? n then <[Z.to_nat (n - 1) := stop]> y else y in
    Ok y.

(** ** src/xai/partial_dependence.py *)
Module partial_dependence.

Definition get_optimal_grid_points (n_rows : Z) : Z :=
  if n_rows <? 200 then 10
  else if n_rows <? 500 then 15
  else if n_rows <? 1000 then 20
  else if n_rows <? 5000 then 25
  else 30.

Definition missing_msg (feature : string) : string :=
  "Feature '" +:+ feature +:+ "' not in DataFrame columns.".

(** One trace per feature: the grid and the average prediction at each
    grid value. *)
Record trace : Type := mkTrace { name : string; x : list num; y : list num }.

Section with_model.
(** [model.predict(Pool(frame))] is the fitted model. *)
Variable predict : DataFrame → list num.

Definition plot_pdp_catboost (data : DataFrame) (features : list string)
    (grid_points : option Z) : result (list trace) :=
  let grid_points :=
    match grid_points with
    | None => get_optimal_grid_points (Z.of_nat (length (index data)))
    | Some g => g
    end in
  mapM (λ feature,
    match columns data !! feature with
    | None => Raise (ValueError (missing_msg feature))
    | Some c =>
        grid ← linspace (series_min c) (series_max c) grid_points;
        let predictions := (λ val,
            let temp_data := setitem data feature (replicate (length (index data)) val) in
            nmean_of (predict temp_data)) <$> grid in
        mret {| name := feature; x := grid; y := predictions |}
    end) features.

End with_model.
End partial_dependence.

Definition arrays_msg : string := "All arrays must be of same length".

(** [pd.DataFrame({'a': a, 'b': b})] from two arrays: its rows; arrays of
    different lengths are refused. *)
Definition frame_of {A B} (a : list A) (b : list B) : result (list (A * B)) :=
  if (length a =? length b)%nat then Ok (zip a b) else Raise (ValueError arrays_msg).

(** Insertion of a row, which comes before those of the list, into a list
    kept in decreasing order of [key]: it goes before the first row whose
    key is not greater, so before those of equal key. *)
Fixpoint insert_desc {A} (key : A → Q) (x : A) (l : list A) : list A :=
  match l with
  | [] => [x]
  | y :: l' => if Qle_bool (key y) (key x) then x :: l else y :: insert_desc key x l'
  end.

(** [df.sort_values(by=..., ascending=False)]: the rows in decreasing
    order of the key.  pandas does not promise an order among rows of
    equal key; this one keeps them in row order (as its sort of a short
    frame does). *)
Definition sort_desc {A} (key : A → Q) (l : list A) : list A :=
  fold_right (insert_desc key) [] l.

(** ** src/xai/feature_importance.py

    [model.get_feature_importance(...)] is the fitted model's and
    [data.columns.tolist()] the frame's column names in their order: both
    are inputs here.  The rows of [importance_df] are the bars. *)
Module feature_importance.

Definition plot_feature_importance_catboost (importances : list Q)
    (columns_of_data : list string) (top_n : Z) : result (list (string * Q)) :=
  let feature_names := columns_of_data in
  importance_df ← frame_of feature_names importances;
  let importance_df := slice_to (sort_desc snd importance_df) top_n in
  mret importance_df.

End feature_importance.

(** ** src/xai/global_explanations.py *)
Module global_explanations.

(** [[f'Feature {i}' for i in range(n)]] *)
Definition default_names (n : nat) : list string :=
  (λ i : nat, "Feature " +:+ pretty i) <$> seq 0 n.

Definition plot_catboost_global_explanations (importances : list Q)
    (feature_names : option (list string)) (top_n : Z) : result (list (string * Q)) :=
  let feature_names :=
    match feature_names with
    | None => default_names (length importances)
    | Some names => names
    end in
  importance_df ← frame_of feature_names importances;
  mret (slice_to (sort_desc snd importance_df) top_n).

End global_explanations.

(** ** src/shappley/force_plot_by_domain.py

    The bars and the prediction mark; the domains and their colours are
    not followed.  [data.columns] is an input, as above. *)
Module force_plot_by_domain.

Record bar : Type := mkBar {
  feature : string;
  shap_value : Q;     (* [x]: the length of the bar *)
  base : Q;           (* [base]: where the bar starts *)
  cumulative : Q      (* the row's entry in the column 'Cumulative' *)
}.

Record chart : Type := mkChart {
  base_value : Q;
  bars : list bar;
  prediction : Q      (* the dashed line *)
}.

(** The loop of lines 64 to 76 over the rows of [df_contrib]. *)
Fixpoint add_bars (current_position : Q) (rows : list (string * Q * Q)) : list bar :=
  match rows with
  | [] => []
  | (f, v, c) :: rows' =>
      {| feature := f; shap_value := v; base := current_position; cumulative := c |}
      :: add_bars (current_position + v)%Q rows'
  end.

Definition plot_shap_force_catboost_by_domain (shap_values : Explanation)
    (data : DataFrame) (columns_of_data : list string) (row_index : Z) : result chart :=
  base_value ← py_index (base_values shap_values) row_index;
  row_shap_values ← py_index (values shap_values) row_index;
  _ ← py_index (index data) row_index;
  df_contrib ← frame_of columns_of_data row_shap_values;
  let df_contrib := sort_desc (λ r, Qabs r.2) df_contrib in
  let Cumulative := (λ c, base_value + c)%Q <$> cumsum (df_contrib.*2) in
  let df_contrib := zip df_contrib Cumulative in
  let bars := add_bars base_value df_contrib in
  let prediction := (base_value + Qsum row_shap_values)%Q in
  mret {| base_value := base_value; bars := bars; prediction := prediction |}.

End force_plot_by_domain.

(** The text of the ValueError that Python's [min] and [max] raise on an
    empty argument (as CPython words it up to version 3.11). *)
Definition empty_msg (fn : string) : string := fn +:+ "() arg is an empty sequence".

(** Python's builtin [min] and [max] over an array: the first item, replaced
    by each later item that compares smaller (greater) than it. *)
Definition py_min (l : list num) : result num :=
  match l with
  | [] => Raise (ValueError (empty_msg "min"))
  | x :: r => Ok (fold_left (λ cur item, if flt item cur then item else cur) r x)
  end.
Definition py_max (l : list num) : result num :=
  match l with
  | [] => Raise (ValueError (empty_msg "max"))
  | x :: r => Ok (fold_left (λ cur item, if fgt item cur then item else cur) r x)
  end.

(** [min(a, b)] and [max(a, b)] *)
Definition py_min2 (a b : num) : num := if flt b a then b else a.
Definition py_max2 (a b : num) : num := if fgt b a then b else a.

(** The text of pandas's ValueError for [m] values given to an index of
    [n] labels. *)
Definition index_msg (m n : nat) : string :=
  "Length of values (" +:+ pretty m +:+ ") does not match length of index ("
  +:+ pretty n +:+ ")".

(** [series - array] and [array - series] between a column of the frame
    and an array of predictions: [op s a] for an item [s] of the column and
    the item [a] of the array in the same row.  numpy stretches an array of
    one item over the column.  It also stretches a column of one item over
    the array, but the result then does not fit the index of the column.
    Other lengths that differ cannot be broadcast. *)
Definition series_arith (op : num → num → num) (series array : list num)
    : result (list num) :=
  if (length series =? length array)%nat then Ok (zip_with op series array)
  else
    match array, series with
    | [a], _ => Ok ((λ s, op s a) <$> series)
    | _, [_] => Raise (ValueError (index_msg (length array) 1))
    | _, _ => Raise (ValueError cummulative_residuals.length_msg)
    end.

(** ** src/model/model_residuals.py *)
Module model_residuals.

Record chart : Type := mkChart {
  y_pred : list num;          (* x of the markers *)
  residuals : list num;       (* y of the markers *)
  zero_line : num * num       (* the ends of the reference line *)
}.

Definition plot_residuals_vs_predicted
    (model : list (list cell) → list num) (feature_names : list string)
    (data : DataFrame) (target_name id_col : string) : result chart :=
  X ← mapM (getitem data) feature_names;
  y_true ← getitem data target_name;
  let y_pred := model X in
  residuals ← series_arith nsub y_true y_pred;
  _ ← getitem data id_col;
  lo ← py_min y_pred;
  hi ← py_max y_pred;
  mret {| y_pred := y_pred; residuals := residuals; zero_line := (lo, hi) |}.

End model_residuals.

(** ** src/model/scatter_predictions.py *)
Module scatter_predictions.

Record chart : Type := mkChart {
  y_true : list num;          (* x of the markers *)
  y_pred : list num;          (* y of the markers *)
  errors : list num;          (* the Error of the hover text *)
  diagonal : num * num        (* [min_val] and [max_val] *)
}.

Definition plot_actual_vs_predicted_scatter
    (model : list (list cell) → list num) (feature_names : list string)
    (data : DataFrame) (target_name id_col : string) : result chart :=
  X ← mapM (getitem data) feature_names;
  y_true ← getitem data target_name;
  let y_pred := model X in
  _ ← getitem data id_col;
  errors ← series_arith (λ t p, p - t)%num y_true y_pred;
  a ← py_min y_true;
  b ← py_min y_pred;
  let min_val := py_min2 a b in
  c ← py_max y_true;
  d ← py_max y_pred;
  let max_val := py_max2 c d in
  mret {| y_true := y_true; y_pred := y_pred; errors := errors;
          diagonal := (min_val, max_val) |}.

End scatter_predictions.

(** Insertion of a row, which comes before those of the list, into a list
    kept in increasing order of [key]: before the first row whose key is
    not smaller. *)
Fixpoint insert_asc {A} (key : A → Q) (x : A) (l : list A) : list A :=
  match l with
  | [] => [x]
  | y :: l' => if Qle_bool (key x) (key y) then x :: l else y :: insert_asc key x l'
  end.

Definition sort_asc {A} (key : A → Q) (l : list A) : list A :=
  fold_right (insert_asc key) [] l.

(** [df.sort_values(by=col)] seen from two columns: the rows in increasing
    order of the first, those without a value there last.  Rows of equal
    key are kept in row order, as in [sort_desc]. *)
Definition sort_values {A} (rows : list (cell * A)) : list (cell * A) :=
  let numbers := omap (λ r : cell * A, (λ t, (t, r.2)) <$> r.1) rows in
  ((λ r : Q * A, (Some r.1, r.2)) <$> sort_asc fst numbers)
  ++ filter (λ r, r.1 = None) rows.

(** [Series.mean()] and [Series.median()]: over the values that are not
    NaN; NaN when there is none. *)
Definition series_mean (c : list cell) : num := nmean (dropna c).
Definition series_median (c : list cell) : num :=
  let s := sort (dropna c) in
  let n := length s in
  match s with
  | [] => None
  | _ =>
      if Nat.odd n then s !! (n / 2)%nat
      else match s !! (n / 2 - 1)%nat, s !! (n / 2)%nat with
           | Some a, Some b => Some ((a + b) / 2)%Q
           | _, _ => None
           end
  end.

(** ** src/spc/run_chart.py *)
Module run_chart.

Definition center_msg : string := "center_line must be 'mean' or 'median'".

(** [x_vals] is the time column or the index. *)
Inductive x_axis : Type :=
| Times (t : list cell)
| Index (i : list Z).

Record chart : Type := mkChart {
  x_vals : x_axis;
  y_vals : list cell;
  center : list num       (* [[cl_value] * len(df)] *)
}.

(** [if time_col:] holds for a name that is neither None nor empty. *)
Definition truthy (time_col : option string) : option string :=
  match time_col with
  | Some "" => None
  | other => other
  end.

Definition plot_run_chart (df : DataFrame) (column : string) (time_col : option string)
    (center_line : string) : result chart :=
  '(x_vals, y_vals) ←
    match truthy time_col with
    | Some time_col =>
        t ← getitem df time_col;
        y ← getitem df column;
        let rows := sort_values (zip t y) in
        mret (Times rows.*1, rows.*2)
    | None =>
        y ← getitem df column;
        mret (Index (index df), y)
    end;
  cl_value ←
    (if decide (center_line = "mean") then Ok (series_mean y_vals)
     else if decide (center_line = "median") then Ok (series_median y_vals)
     else Raise (ValueError center_msg));
  mret {| x_vals := x_vals; y_vals := y_vals;
          center := replicate (length (index df)) cl_value |}.

End run_chart.

(** ** src/standard/heatmap.py *)
Module heatmap.

Definition msg : string := "None of the selected columns are present in the DataFrame.".

Record chart : Type := mkChart {
  valid_columns : list string;       (* the columns of the title *)
  corr_matrix : list (list num)
}.

Section with_corr.
(** [DataFrame.corr(method=methods)] is pandas's: from the selected columns
    to their correlation matrix, or an exception for a method it does not
    know. *)
Variable corr : string → list (list cell) → result (list (list num)).

Definition plot_heatmap (df : DataFrame) (columns_to_include : list string)
    (methods : string) : result chart :=
  let valid_columns := filter (λ col, is_Some (columns df !! col)) columns_to_include in
  if decide (valid_columns = []) then Raise (ValueError msg)
  else
    selected ← mapM (getitem df) valid_columns;
    corr_matrix ← corr methods selected;
    mret {| valid_columns := valid_columns; corr_matrix := corr_matrix |}.

End with_corr.
End heatmap.

(** [x <= y] on floats: False as soon as one side is NaN. *)
Definition fle (x y : option Q) : bool :=
  match x, y with
  | Some a, Some b => Qle_bool a b
  | _, _ => false
  end.

(** [Series.quantile(q)], with pandas's linear interpolation: on the sorted
    values the position [q * (n - 1)], between the value below it and the
    value above it.  NaN on an empty series. *)
Definition quantile (l : list Q) (q : Q) : num :=
  let s := sort l in
  match s with
  | [] => None
  | x :: _ =>
      let h := (q * inject_Z (Z.of_nat (length s) - 1))%Q in
      let lo := Qfloor h in
      let a := default x (s !! Z.to_nat lo) in
      let b := default a (s !! Z.to_nat (lo + 1)) in
      Some (a + (b - a) * (h - inject_Z lo))%Q
  end.

(** ** src/xai/feature_interaction.py

    [model.get_feature_importance(type='Interaction')] is the fitted
    model's: its rows (two feature indices and a strength) are an input,
    as are the column names of the frame. *)
Module feature_interaction.

Inductive category : Type := Low | Medium | High.

Definition label (c : category) : string :=
  match c with
  | Low => "Low (Orange)"
  | Medium => "Medium (Green)"
  | High => "High (Red)"
  end.

(** [strengths.nunique() == 1] *)
Definition one_value (strengths : list Q) : bool :=
  match strengths with
  | [] => false
  | x :: r => forallb (Qeq_bool x) r
  end.

(** Lines 43 to 52. *)
Definition thresholds (strengths : list Q) : num * num :=
  if one_value strengths then
    match strengths with
    | [] => (None, None)
    | x :: r =>
        let min_s := Qminimum x r in
        let max_s := Qmaximum x r in
        (Some (min_s + (max_s - min_s) / 3)%Q, Some (min_s + 2 * (max_s - min_s) / 3)%Q)
    end
  else (quantile strengths 0.33, quantile strengths 0.66).

Definition categorize_strength (low_thresh high_thresh : num) (val : Q) : category :=
  if fle (Some val) low_thresh then Low
  else if fle (Some val) high_thresh then Medium
  else High.

Record row : Type := mkRow {
  feature_1 : string;
  feature_2 : string;
  strength : Q;
  strength_category : category
}.

Definition plot_feature_interactions_catboost (interactions : list (Z * Z * Q))
    (columns_of_data : list string) (top_n : Z) : result (list row) :=
  let feature_names := columns_of_data in
  f1 ← mapM (λ r : Z * Z * Q, py_index feature_names r.1.1) interactions;
  f2 ← mapM (λ r : Z * Z * Q, py_index feature_names r.1.2) interactions;
  let interaction_df := zip (zip f1 f2) interactions.*2 in
  let interaction_df := slice_to (sort_desc snd interaction_df) top_n in
  let strengths := interaction_df.*2 in
  let '(low_thresh, high_thresh) := thresholds strengths in
  mret ((λ r : string * string * Q,
           {| feature_1 := r.1.1; feature_2 := r.1.2; strength := r.2;
              strength_category := categorize_strength low_thresh high_thresh r.2 |})
        <$> interaction_df).

End feature_interaction.

(** ** src/shappley/summary_plot.py

    The points of the strip plot: a feature name and a SHAP value each.
    The feature values that the code merges in are not plotted and not
    followed.  The explanation and the column names of the frame are
    inputs. *)
Module summary_plot.

(** The text of pandas's ValueError for a matrix of [n] rows and [m]
    columns given [k] column names. *)
Definition shape_msg (n m k : nat) : string :=
  "Shape of passed values is (" +:+ pretty n +:+ ", " +:+ pretty m
  +:+ "), indices imply (" +:+ pretty n +:+ ", " +:+ pretty k +:+ ")".

(** [shap_df.abs().mean()] for one column of at least one row. *)
Definition mean_abs (col : list Q) : Q :=
  (Qsum (Qabs <$> col) / inject_Z (Z.of_nat (length col)))%Q.

(** Column [k] of the matrix of SHAP values. *)
Definition column (vals : list (list Q)) (k : nat) : list Q :=
  (λ row, default 0%Q (row !! k)) <$> vals.

(** Without rows the long frame is empty, whatever the order of the means
    (which are NaN then); with rows, the means are numbers. *)
Definition plot_shap_summary_catboost (shap_values : Explanation)
    (columns_of_data : list string) (max_display : Z) : result (list (string * Q)) :=
  let feature_names := columns_of_data in
  let vals := values shap_values in
  match vals with
  | [] => mret []
  | row :: _ =>
      if negb (forallb (λ r, length r =? length feature_names)%nat vals)
      then Raise (ValueError (shape_msg (length vals) (length row) (length feature_names)))
      else
        let shap_df := column vals <$> seq 0 (length feature_names) in
        let shap_df_long :=
          concat (zip_with (λ name col, (λ v, (name, v)) <$> col) feature_names shap_df) in
        let mean_abs_shap :=
          sort_desc snd (zip feature_names (mean_abs <$> shap_df)) in
        let top_features := (slice_to mean_abs_shap max_display).*1 in
        let merged := filter (λ r, r.1 ∈ top_features) shap_df_long in
        mret merged
  end.

End summary_plot.

(** * The vocabulary of the claims *)

(** A value lies strictly below a given lower limit. *)
Definition strictly_below (lower_spec : option Q) (x : cell) : Prop :=
  ∃ l v, lower_spec = Some l ∧ x = Some v ∧ (v < l)%Q.

(** A value lies strictly above a given upper limit. *)
Definition strictly_above (upper_spec : option Q) (x : cell) : Prop :=
  ∃ h v, upper_spec = Some h ∧ x = Some v ∧ (h < v)%Q.

(** The value is equal to one of the given limits, and the limits are not crossed. *)
Definition on_a_limit (lower_spec upper_spec : option Q) (v : Q) : Prop :=
  ((∃ l, lower_spec = Some l ∧ (v == l)%Q) ∨ (∃ h, upper_spec = Some h ∧ (v == h)%Q))
  ∧ (∀ l h, lower_spec = Some l → upper_spec = Some h → (l <= h)%Q).

(** At least one of the two limits is given. *)
Definition a_limit_given (lower_spec upper_spec : option Q) : Prop :=
  is_Some lower_spec ∨ is_Some upper_spec.

(** The frame has a column of that name. *)
Definition has_column (df : DataFrame) (name : string) : Prop :=
  is_Some (columns df !! name).

(** The partition into subgroups that both charts start with. *)
Definition subgroups_of (data : list Q) (subgroup_size : Z) : list (list Q) :=
  let k := Z.of_nat (length data) `div` subgroup_size in
  chunks (Z.to_nat k) (Z.to_nat subgroup_size) data.

(** The six tables of constants. *)
Definition tables : list (list (Z * Q)) :=
  [x_bar_r.A2; x_bar_r.D3; x_bar_r.D4; x_bar_s.A3; x_bar_s.B3; x_bar_s.B4].

(** The sequence 1/n, 2/n, ..., n/n. *)
Definition is_ecdf_of (n : nat) (y : list Q) : Prop :=
  length y = n
  ∧ (∀ i, (i < n)%nat →
       ∃ v, y !! i = Some v ∧ (v == inject_Z (Z.of_nat i + 1) / inject_Z (Z.of_nat n))%Q)
  ∧ (∀ i a b, y !! i = Some a → y !! S i = Some b →
       (a <= b)%Q ∧ (b - a == 1 / inject_Z (Z.of_nat n))%Q)
  ∧ (∀ a, y !! 0%nat = Some a → (0 < a)%Q ∧ (a == 1 / inject_Z (Z.of_nat n))%Q)
  ∧ (∀ b, last y = Some b → (b == 1)%Q).

(** The explainer's contract (spec, section 6): one row of attributions and
    one baseline per prediction, and baseline plus attributions give the
    prediction of the row. *)
Definition explains (shap_values : Explanation) (predictions : list Q) : Prop :=
  length (values shap_values) = length predictions
  ∧ length (base_values shap_values) = length predictions
  ∧ ∀ i row b p,
      values shap_values !! i = Some row → base_values shap_values !! i = Some b →
      predictions !! i = Some p → (b + Qsum row == p)%Q.

(** The baseline does not depend on the row (the expected value of a tree
    explainer). *)
Definition one_baseline (shap_values : Explanation) : Prop :=
  ∀ i j a b, base_values shap_values !! i = Some a →
    base_values shap_values !! j = Some b → (a == b)%Q.

(** Decreasing absolute value along a list. *)
Definition descending_abs (l : list Q) : Prop :=
  ∀ i a b, l !! i = Some a → l !! S i = Some b → (Qabs b <= Qabs a)%Q.

(** The position that Python's [a[i]] reads. *)
Definition position (len : nat) (i : Z) : option nat :=
  let j := if i <? 0 then Z.of_nat len + i else i in
  if (0 <=? j) && (j <? Z.of_nat len) then Some (Z.to_nat j) else None.

(** Increasing keys along a list of indices. *)
Definition ascending_by (key : nat → Q) (l : list nat) : Prop :=
  ∀ n i j, l !! n = Some i → l !! S n = Some j → (key i <= key j)%Q.








(** The values that rows of key [k] carry, in row order. *)
Definition values_with {A} (k : Z) (rows : list (Z * A)) : list A :=
  (filter (λ kv, kv.1 = k) rows).*2.

(** The values filed under key [k] in a grouping. *)
Definition group_of {A} (k : Z) (g : list (Z * list A)) : list A :=
  concat (filter (λ kv, kv.1 = k) g).*2.

(** The number of grid points a call of [plot_pdp_catboost] works with. *)
Definition effective_grid_points (data : DataFrame) (grid_points : option Z) : Z :=
  match grid_points with
  | None => partial_dependence.get_optimal_grid_points (Z.of_nat (length (index data)))
  | Some g => g
  end.

(** The order of the three categories. *)
Definition rank (c : feature_interaction.category) : nat :=
  match c with
  | feature_interaction.Low => 0
  | feature_interaction.Medium => 1
  | feature_interaction.High => 2
  end.

(** * Sample inputs *)

(** A frame of three rows with a measurement, a sample size and a label column. *)
Definition frame3 : DataFrame :=
  {| index := [0; 1; 2];
     columns := list_to_map
       [("x", [Some 1%Q; Some 7%Q; Some 3%Q]);
        ("size", [Some 10%Q; Some 20%Q; Some 10%Q]);
        ("material_salida", [Some 100%Q; Some 101%Q; Some 102%Q])] |}.

(** A frame with a measurement and a sample size column, and no label column. *)
Definition frame_unlabelled : DataFrame :=
  {| index := [0; 1; 2];
     columns := list_to_map
       [("x", [Some 1%Q; Some 7%Q; Some 3%Q]);
        ("y", [Some 2%Q; Some 1%Q; Some 5%Q]);
        ("size", [Some 10%Q; Some 20%Q; Some 10%Q])] |}.

(** The inverse of a 2 by 2 matrix by its adjugate: LinAlgError when the
    determinant is zero; any other shape is refused. *)
Definition inv_2x2 (m : t2_chart.matrix) : result t2_chart.matrix :=
  match m with
  | [[Some a; Some b]; [Some c; Some d]] =>
      let det := (a * d - b * c)%Q in
      if Qeq_bool det 0 then Raise LinAlgError
      else Ok [[Some (d / det); Some (- b / det)]; [Some (- c / det); Some (a / det)]]%Q
  | _ => Raise LinAlgError
  end.

(** A stand-in for the F quantile, constant 3. *)
Definition ppf_const (q : Q) (dfn dfd : Z) : num := Some 3%Q.

(** Four rows above an upper limit of 5, with a column of negative sizes. *)
Definition frame_all_defective : DataFrame :=
  {| index := [0; 1; 2; 3];
     columns := list_to_map
       [("x", [Some 9%Q; Some 9%Q; Some 9%Q; Some 9%Q]);
        ("negative", [Some (-1)%Q; Some (-1)%Q; Some (-1)%Q; Some (-1)%Q]);
        ("material_salida", [Some 1%Q; Some 2%Q; Some 3%Q; Some 4%Q])] |}.

(** Eight rows, one of them without a measurement. *)
Definition frame8 : DataFrame :=
  {| index := [0; 1; 2; 3; 4; 5; 6; 7];
     columns := list_to_map
       [("x", [Some 1%Q; Some 2%Q; None; Some 4%Q; Some 5%Q; Some 6%Q; Some 7%Q; Some 8%Q]);
        ("lot", [Some 1%Q; Some 1%Q; Some 1%Q; Some 2%Q; Some 2%Q; Some 2%Q; Some 3%Q;
                 Some 3%Q])] |}.

(** A constant column. *)
Definition frame_constant : DataFrame :=
  {| index := [0; 1; 2];
     columns := {[ "x" := [Some 5%Q; Some 5%Q; Some 5%Q] ]} |}.

(** Two observations in a frame of two columns. *)
Definition frame_two_columns : DataFrame :=
  {| index := [0; 1];
     columns := list_to_map [("x", [Some 3%Q; Some 1%Q]); ("id", [Some 10%Q; Some 11%Q])] |}.

(** Two rows, three features, one baseline. *)
Definition explanation2 : Explanation :=
  {| values := [[1; -3; 0.5]; [2; 0.25; -1]]%Q; base_values := [10; 10]%Q |}.
Definition predictions2 : list Q := [8.5; 11.25]%Q.
Definition frame_features : DataFrame :=
  {| index := [0; 1];
     columns := list_to_map
       [("a", [Some 1%Q; Some 2%Q]); ("b", [Some 3%Q; Some 4%Q]);
        ("c", [Some 5%Q; Some 6%Q])] |}.

(** Four labelled rows of two measurements. *)
Definition frame_t2 : DataFrame :=
  {| index := [0; 1; 2; 3];
     columns := list_to_map
       [("x", [Some 1%Q; Some 2%Q; Some 3%Q; Some 5%Q]);
        ("y", [Some 2%Q; Some 1%Q; Some 4%Q; Some 3%Q]);
        ("z", [Some 2%Q; Some 4%Q; Some 6%Q; Some 10%Q]);
        ("material_salida", [Some 7%Q; Some 8%Q; Some 9%Q; Some 10%Q])] |}.

(** Two rows with different baselines. *)
Definition explanation_two_baselines : Explanation :=
  {| values := [[1; -3]; [2; 0.25]]%Q; base_values := [10; 12]%Q |}.

(** A model that predicts the column "x" of the frame it is given. *)
Definition predict_x (df : DataFrame) : list num := default [] (columns df !! "x").

(** A model that predicts 2, 5 and 3 for three rows. *)
Definition predict_253 (X : list (list cell)) : list num := [Some 2%Q; Some 5%Q; Some 3%Q].

(** * Properties *)

(** ** Comparisons and arithmetic on the rationals *)

Lemma Qltb_lt (a b : Q) : Qltb a b = true ↔ (a < b)%Q.
Proof.
  unfold Qltb. rewrite negb_true_iff.
  split; intros H.
  - apply Qnot_le_lt. intros Hle. apply Qle_bool_iff in Hle. congruence.
  - destruct (Qle_bool b a) eqn:E; [|done].
    apply Qle_bool_iff in E. exfalso. by apply (Qlt_not_le a b).
Qed.

Lemma Qltb_ge (a b : Q) : Qltb a b = false ↔ (b <= a)%Q.
Proof.
  unfold Qltb. rewrite negb_false_iff. apply Qle_bool_iff.
Qed.

Lemma sqrt_4dp_nonneg (x : Q) : (0 <= sqrt_4dp x)%Q.
Proof.
  unfold sqrt_4dp, Qle; simpl.
  pose proof (Z.sqrt_nonneg (Qnum x * Z.pos (Qden x) * 100000000)). lia.
Qed.

(** ** What counts as a defect (C10) *)

Lemma below_test (lower_spec : option Q) (x : cell) :
  is_not_None lower_spec && flt x lower_spec = true ↔ strictly_below lower_spec x.
Proof.
  unfold strictly_below. destruct lower_spec as [l|], x as [v|]; simpl.
  - rewrite Qltb_lt. split; [intros H; by exists l, v | intros (?&?&?&?&?); by simplify_eq].
  - split; [done | intros (?&?&?&?&?); done].
  - split; [done | intros (?&?&?&?&?); done].
  - split; [done | intros (?&?&?&?&?); done].
Qed.

Lemma above_test (upper_spec : option Q) (x : cell) :
  is_not_None upper_spec && fgt x upper_spec = true ↔ strictly_above upper_spec x.
Proof.
  unfold strictly_above, fgt. destruct upper_spec as [h|], x as [v|]; simpl.
  - rewrite Qltb_lt. split; [intros H; by exists h, v | intros (?&?&?&?&?); by simplify_eq].
  - split; [done | intros (?&?&?&?&?); done].
  - split; [done | intros (?&?&?&?&?); done].
  - split; [done | intros (?&?&?&?&?); done].
Qed.

Lemma on_a_limit_inside (lower_spec upper_spec : option Q) (v : Q) :
  on_a_limit lower_spec upper_spec v →
  ¬ strictly_below lower_spec (Some v) ∧ ¬ strictly_above upper_spec (Some v).
Proof.
  intros [Heq Hord]. split.
  - intros (l & v' & -> & [= <-] & Hlt).
    destruct Heq as [(l' & [= <-] & Hv) | (h & Hh & Hv)].
    + rewrite Hv in Hlt. by apply Qlt_irrefl in Hlt.
    + specialize (Hord l h eq_refl Hh). rewrite Hv in Hlt. by apply Qlt_not_le in Hlt.
  - intros (h & v' & -> & [= <-] & Hlt).
    destruct Heq as [(l & Hl & Hv) | (h' & [= <-] & Hv)].
    + specialize (Hord l h Hl eq_refl). rewrite Hv in Hlt. by apply Qlt_not_le in Hlt.
    + rewrite Hv in Hlt. by apply Qlt_irrefl in Hlt.
Qed.

(** The one-or-zero test of the np, p and u charts. *)
Lemma is_defective_cases (lower_spec upper_spec : option Q) (x : cell) :
  (np_chart.is_defective lower_spec upper_spec x = 1
     ∧ (strictly_below lower_spec x ∨ strictly_above upper_spec x))
  ∨ (np_chart.is_defective lower_spec upper_spec x = 0
     ∧ ¬ strictly_below lower_spec x ∧ ¬ strictly_above upper_spec x).
Proof.
  unfold np_chart.is_defective.
  destruct (is_not_None lower_spec && flt x lower_spec) eqn:Elo.
  { left. split; [done|]. left. by apply below_test. }
  destruct (is_not_None upper_spec && fgt x upper_spec) eqn:Ehi.
  { left. split; [done|]. right. by apply above_test. }
  right. split; [done|]. split; intros H.
  - apply below_test in H. congruence.
  - apply above_test in H. congruence.
Qed.

Lemma count_defects_cases (lower_spec upper_spec : option Q) (x : cell) :
  c_chart.count_defects lower_spec upper_spec x
  = (if is_not_None lower_spec && flt x lower_spec then 1 else 0)
    + (if is_not_None upper_spec && fgt x upper_spec then 1 else 0).
Proof.
  unfold c_chart.count_defects.
  by destruct (is_not_None lower_spec && flt x lower_spec),
              (is_not_None upper_spec && fgt x upper_spec).
Qed.

Lemma equal_limit_tests (v l : Q) :
  (v == l)%Q → flt (Some v) (Some l) = false ∧ fgt (Some v) (Some l) = false.
Proof.
  intros Hv. unfold fgt, flt. split; apply Qltb_ge; rewrite Hv; apply Qle_refl.
Qed.

(** C10. In the c, np, p and u charts only a value strictly below the
    lower limit or strictly above the upper limit adds to the defect
    count: the c chart counts one defect per limit that is passed, the
    other three count one defect when either is.  For every combination of
    limits, a limit that the value is equal to adds nothing (the count is
    the one without that limit); so a value equal to a limit counts as
    conforming unless it lies strictly beyond the other limit, which
    limits that are not crossed exclude. *)
Theorem defect_only_strictly_outside :
  (∀ lower_spec upper_spec x,
     (0 < c_chart.count_defects lower_spec upper_spec x
        ↔ strictly_below lower_spec x ∨ strictly_above upper_spec x)
     ∧ (np_chart.is_defective lower_spec upper_spec x = 1
        ↔ strictly_below lower_spec x ∨ strictly_above upper_spec x)
     ∧ (p_chart.is_defective lower_spec upper_spec x = 1
        ↔ strictly_below lower_spec x ∨ strictly_above upper_spec x)
     ∧ (u_chart.count_defects lower_spec upper_spec x = 1
        ↔ strictly_below lower_spec x ∨ strictly_above upper_spec x))
  ∧ (∀ l h v other,
     ((v == l)%Q →
      c_chart.count_defects (Some l) other (Some v)
        = c_chart.count_defects None other (Some v)
      ∧ np_chart.is_defective (Some l) other (Some v)
        = np_chart.is_defective None other (Some v)
      ∧ p_chart.is_defective (Some l) other (Some v)
        = p_chart.is_defective None other (Some v)
      ∧ u_chart.count_defects (Some l) other (Some v)
        = u_chart.count_defects None other (Some v))
     ∧ ((v == h)%Q →
        c_chart.count_defects other (Some h) (Some v)
          = c_chart.count_defects other None (Some v)
        ∧ np_chart.is_defective other (Some h) (Some v)
          = np_chart.is_defective other None (Some v)
        ∧ p_chart.is_defective other (Some h) (Some v)
          = p_chart.is_defective other None (Some v)
        ∧ u_chart.count_defects other (Some h) (Some v)
          = u_chart.count_defects other None (Some v)))
  ∧ (∀ lower_spec upper_spec v,
     on_a_limit lower_spec upper_spec v →
     c_chart.count_defects lower_spec upper_spec (Some v) = 0
     ∧ np_chart.is_defective lower_spec upper_spec (Some v) = 0
     ∧ p_chart.is_defective lower_spec upper_spec (Some v) = 0
     ∧ u_chart.count_defects lower_spec upper_spec (Some v) = 0).
Proof.
  split_and!.
  - intros lo hi x.
    assert (Hone : np_chart.is_defective lo hi x = 1
                   ↔ strictly_below lo x ∨ strictly_above hi x).
    { destruct (is_defective_cases lo hi x) as [[E H]|[E [H1 H2]]]; rewrite E.
      - done.
      - split; [done | intros [?|?]; done]. }
    split; [|done].
    rewrite count_defects_cases, <- below_test, <- above_test.
    destruct (is_not_None lo && flt x lo), (is_not_None hi && fgt x hi);
      split; intros H; try lia; try (by left); try (by right).
  - intros l h v other. split; intros [Hlt Hgt]%equal_limit_tests.
    + unfold c_chart.count_defects, np_chart.is_defective, p_chart.is_defective,
        u_chart.count_defects. cbn [is_not_None andb]. by rewrite Hlt.
    + unfold c_chart.count_defects, np_chart.is_defective, p_chart.is_defective,
        u_chart.count_defects. cbn [is_not_None andb]. by rewrite Hgt.
  - intros lo hi v Hon.
    apply on_a_limit_inside in Hon as [Hlo Hhi].
    assert (Hzero : np_chart.is_defective lo hi (Some v) = 0).
    { destruct (is_defective_cases lo hi (Some v)) as [[_ [H|H]]|[E _]]; done. }
    split; [|done].
    rewrite count_defects_cases.
    rewrite <- below_test in Hlo. rewrite <- above_test in Hhi.
    by destruct (is_not_None lo && flt (Some v) lo), (is_not_None hi && fgt (Some v) hi).
Qed.

(** A value on the upper limit 5, with lower limit 2. *)
Lemma defect_only_strictly_outside_witness :
  on_a_limit (Some 2%Q) (Some 5%Q) 5%Q
  ∧ c_chart.count_defects (Some 2%Q) (Some 5%Q) (Some 5%Q) = 0
  ∧ u_chart.count_defects (Some 2%Q) (Some 5%Q) (Some 5%Q) = 0.
Proof.
  assert (H : on_a_limit (Some 2%Q) (Some 5%Q) 5%Q).
  { split; [right; by exists 5%Q|]. intros l h [= <-] [= <-]. by vm_compute. }
  split; [exact H|].
  pose proof (proj2 (proj2 defect_only_strictly_outside) (Some 2%Q) (Some 5%Q) 5%Q H)
    as (?&?&?&?).
  done.
Defined.

(** ** Column accesses *)

Lemma getitem_Ok (df : DataFrame) (name : string) (c : list cell) :
  getitem df name = Ok c ↔ columns df !! name = Some c.
Proof.
  unfold getitem. destruct (columns df !! name); split; intros H; by simplify_eq.
Qed.

Lemma getitem_Raise (df : DataFrame) (name : string) (e : exn) :
  getitem df name = Raise e ↔ columns df !! name = None ∧ e = KeyError name.
Proof.
  unfold getitem. destruct (columns df !! name); split.
  - done.
  - by intros [? _].
  - by intros [= <-].
  - by intros [_ ->].
Qed.

Lemma getitem_setitem_ne (df : DataFrame) (name other : string) (c : list cell) :
  other ≠ name → getitem (setitem df other c) name = getitem df name.
Proof.
  intros Hne. unfold getitem, setitem; simpl. by rewrite lookup_insert_ne.
Qed.

Lemma getitem_setitem_eq (df : DataFrame) (name : string) (c : list cell) :
  getitem (setitem df name c) name = Ok c.
Proof.
  unfold getitem, setitem; simpl. by rewrite lookup_insert_eq.
Qed.

(** Case analysis on the next column access of the goal. *)
Ltac next_getitem :=
  match goal with
  | |- context [getitem ?df ?c] =>
      let E := fresh "E" in
      destruct (getitem df c) as [?|?] eqn:E;
      [| apply getitem_Raise in E as [? ->]];
      cbn [mbind result_bind mret result_ret]
  end.

(** ** The specification-limit check (C8) *)

Lemma a_limit_given_check (lower_spec upper_spec : option Q) :
  a_limit_given lower_spec upper_spec →
  negb (is_not_None lower_spec) && negb (is_not_None upper_spec) = false.
Proof.
  intros [[? ->]|[? ->]]; simpl; [done|]. by rewrite andb_false_r.
Qed.

(** C8. Called with both limits None, each of the four attribute charts
    raises its ValueError whatever the frame and the other arguments are
    (no column is read, no statistic computed before the check); called
    with at least one limit, none of them raises that error. *)
Theorem no_limit_is_refused_first (sqrt : Q → Q) :
  (∀ df column,
     c_chart.plot_c_chart sqrt df column None None = Raise (ValueError c_chart.msg))
  ∧ (∀ df column subgroup_size,
     np_chart.plot_np_chart sqrt df column subgroup_size None None
     = Raise (ValueError np_chart.msg))
  ∧ (∀ df column subgroup_size,
     p_chart.plot_p_chart sqrt df column subgroup_size None None
     = Raise (ValueError p_chart.msg))
  ∧ (∀ df column sample_size_col,
     u_chart.plot_u_chart sqrt df column sample_size_col None None
     = Raise (ValueError u_chart.msg))
  ∧ (∀ df column subgroup_size sample_size_col lower_spec upper_spec,
     a_limit_given lower_spec upper_spec →
     c_chart.plot_c_chart sqrt df column lower_spec upper_spec
       ≠ Raise (ValueError c_chart.msg)
     ∧ np_chart.plot_np_chart sqrt df column subgroup_size lower_spec upper_spec
       ≠ Raise (ValueError np_chart.msg)
     ∧ p_chart.plot_p_chart sqrt df column subgroup_size lower_spec upper_spec
       ≠ Raise (ValueError p_chart.msg)
     ∧ u_chart.plot_u_chart sqrt df column sample_size_col lower_spec upper_spec
       ≠ Raise (ValueError u_chart.msg)).
Proof.
  split_and!; [done..|].
  intros df column subgroup_size sample_size_col lo hi Hgiven.
  pose proof (a_limit_given_check lo hi Hgiven) as Hcheck.
  split_and!.
  - unfold c_chart.plot_c_chart. rewrite Hcheck. by next_getitem.
  - unfold np_chart.plot_np_chart. rewrite Hcheck. by next_getitem.
  - unfold p_chart.plot_p_chart. rewrite Hcheck. by next_getitem.
  - unfold u_chart.plot_u_chart. rewrite Hcheck. by repeat next_getitem.
Qed.

Lemma no_limit_is_refused_first_witness :
  a_limit_given None (Some 5%Q)
  ∧ c_chart.plot_c_chart sqrt_4dp frame3 "x" None (Some 5%Q)
      ≠ Raise (ValueError c_chart.msg)
  ∧ u_chart.plot_u_chart sqrt_4dp frame3 "x" "size" None (Some 5%Q)
      ≠ Raise (ValueError u_chart.msg).
Proof.
  assert (H : a_limit_given None (Some 5%Q)) by (right; by eexists).
  split; [exact H|].
  pose proof (proj2 (proj2 (proj2 (proj2 (no_limit_is_refused_first sqrt_4dp))))
                frame3 "x" 10 "size" None (Some 5%Q) H) as (?&?&?&?).
  done.
Defined.

(** ** The undeclared column (C9) *)

Lemma has_column_getitem (df : DataFrame) (name : string) :
  has_column df name → ∃ c, getitem df name = Ok c.
Proof. intros [c Hc]. exists c. by apply getitem_Ok. Qed.

Lemma has_column_setitem (df : DataFrame) (name other : string) (c : list cell) :
  has_column df name → has_column (setitem df other c) name.
Proof.
  unfold has_column, setitem; simpl. intros H.
  destruct (decide (other = name)) as [->|Hne].
  - rewrite lookup_insert_eq. by eexists.
  - by rewrite lookup_insert_ne.
Qed.

Lemma mapM_getitem_Ok (df : DataFrame) (names : list string) :
  Forall (has_column df) names → ∃ cols, mapM (getitem df) names = Ok cols.
Proof.
  induction 1 as [|name names Hname _ [cols IH]]; simpl.
  - by eexists.
  - apply has_column_getitem in Hname as [c ->]. cbn. rewrite IH. by eexists.
Qed.

(** Up to its last column access, [plot_u_chart] adds no column of that name. *)
Lemma u_chart_needs_material_salida (sqrt : Q → Q) df column sample_size_col
    lower_spec upper_spec :
  columns df !! "material_salida" = None →
  raises (u_chart.plot_u_chart sqrt df column sample_size_col lower_spec upper_spec)
  ∧ (a_limit_given lower_spec upper_spec →
     has_column df column → has_column df sample_size_col →
     u_chart.plot_u_chart sqrt df column sample_size_col lower_spec upper_spec
     = Raise (KeyError "material_salida")).
Proof.
  intros Hnone.
  assert (Hlast : ∀ c1 c2 c3 c4 c5 c6 c7,
    getitem (setitem (setitem (setitem (setitem (setitem (setitem (setitem df
      "defect_count" c1) "sample_size" c2) "u" c3) "UCL" c4) "LCL" c5) "LCL" c6)
      "out_of_control" c7) "material_salida" = Raise (KeyError "material_salida")).
  { intros. rewrite !getitem_setitem_ne by done. by apply getitem_Raise. }
  unfold u_chart.plot_u_chart. cbv zeta. split.
  - destruct (negb _ && negb _); [by eexists|].
    destruct (getitem df column) as [xs|e]; cbn [mbind result_bind mret result_ret];
      [|by eexists].
    destruct (getitem _ sample_size_col) as [sizes|e];
      cbn [mbind result_bind mret result_ret]; [|by eexists].
    destruct (getitem _ column) as [xs'|e];
      cbn [mbind result_bind mret result_ret]; [|by eexists].
    rewrite Hlast. by eexists.
  - intros Hgiven Hcol Hsize. rewrite (a_limit_given_check _ _ Hgiven).
    apply has_column_getitem in Hcol as Hx. destruct Hx as [xs ->].
    cbn [mbind result_bind mret result_ret].
    match goal with |- context [getitem ?d sample_size_col] =>
      assert (Hsize' : has_column d sample_size_col) by (by apply has_column_setitem);
      apply has_column_getitem in Hsize' as [sizes ->] end.
    cbn [mbind result_bind mret result_ret].
    match goal with |- context [getitem ?d column] =>
      assert (Hcol' : has_column d column) by (by repeat apply has_column_setitem);
      apply has_column_getitem in Hcol' as [? ->] end.
    cbn [mbind result_bind mret result_ret].
    by rewrite Hlast.
Qed.

Lemma t2_chart_needs_material_salida (inv : t2_chart.matrix → result t2_chart.matrix)
    (ppf : Q → Z → Z → num) df numeric_columns alpha :
  columns df !! "material_salida" = None →
  raises (t2_chart.plot_t2_chart inv ppf df numeric_columns alpha)
  ∧ (Forall (has_column df) numeric_columns →
     t2_chart.plot_t2_chart inv ppf df numeric_columns alpha
     = Raise (KeyError "material_salida")).
Proof.
  intros Hnone.
  assert (Hlast : getitem df "material_salida" = Raise (KeyError "material_salida"))
    by by apply getitem_Raise.
  unfold t2_chart.plot_t2_chart, t2_chart.t2_values. split.
  - destruct (mapM (getitem df) numeric_columns) as [cols|e];
      cbn [mbind result_bind mret result_ret]; [|by eexists].
    rewrite Hlast. by eexists.
  - intros Hcols. apply mapM_getitem_Ok in Hcols as [cols ->].
    cbn [mbind result_bind mret result_ret]. by rewrite Hlast.
Qed.

(** C9. [plot_u_chart] and [plot_t2_chart] read the column
    'material_salida', which is no parameter of theirs: on a frame without
    a column of that name the call never returns, and when the declared
    arguments are valid (a limit is given, the named columns exist) what
    it raises is the KeyError of that column. *)
Theorem material_salida_is_required (sqrt : Q → Q)
    (inv : t2_chart.matrix → result t2_chart.matrix) (ppf : Q → Z → Z → num) :
  ∀ df, columns df !! "material_salida" = None →
  (∀ column sample_size_col lower_spec upper_spec,
     raises (u_chart.plot_u_chart sqrt df column sample_size_col lower_spec upper_spec)
     ∧ (a_limit_given lower_spec upper_spec →
        has_column df column → has_column df sample_size_col →
        u_chart.plot_u_chart sqrt df column sample_size_col lower_spec upper_spec
        = Raise (KeyError "material_salida")))
  ∧ (∀ numeric_columns alpha,
     raises (t2_chart.plot_t2_chart inv ppf df numeric_columns alpha)
     ∧ (Forall (has_column df) numeric_columns →
        t2_chart.plot_t2_chart inv ppf df numeric_columns alpha
        = Raise (KeyError "material_salida"))).
Proof.
  intros df Hnone. split; intros.
  - by apply u_chart_needs_material_salida.
  - by apply t2_chart_needs_material_salida.
Qed.

Lemma material_salida_is_required_witness :
  columns frame_unlabelled !! "material_salida" = None
  ∧ u_chart.plot_u_chart sqrt_4dp frame_unlabelled "x" "size" None (Some 5%Q)
    = Raise (KeyError "material_salida")
  ∧ t2_chart.plot_t2_chart inv_2x2 ppf_const frame_unlabelled ["x"; "y"] 0.05%Q
    = Raise (KeyError "material_salida").
Proof.
  assert (H : columns frame_unlabelled !! "material_salida" = None) by by vm_compute.
  split; [exact H|].
  destruct (material_salida_is_required sqrt_4dp inv_2x2 ppf_const frame_unlabelled H)
    as [Hu Ht].
  split.
  - apply (Hu "x" "size" None (Some 5%Q)).
    + right. by eexists.
    + eexists. by vm_compute.
    + eexists. by vm_compute.
  - apply (Ht ["x"; "y"] 0.05%Q).
    repeat constructor; eexists; by vm_compute.
Defined.

(** ** Means and sums of non-negative values *)

Lemma Qsum_nonneg (l : list Q) : Forall (λ x, 0 <= x)%Q l → (0 <= Qsum l)%Q.
Proof.
  induction 1 as [|x l Hx _ IH]; simpl; [done|].
  change 0%Q with (0 + 0)%Q. by apply Qplus_le_compat.
Qed.

Lemma nmean_nonneg (l : list Q) (q : Q) :
  Forall (λ x, 0 <= x)%Q l → nmean l = Some q → (0 <= q)%Q.
Proof.
  intros Hl Hq. destruct l as [|x l]; [done|].
  injection Hq as <-. apply Qsum_nonneg in Hl.
  apply Qle_shift_div_l.
  - unfold Qlt; simpl. lia.
  - by rewrite Qmult_0_l.
Qed.

Lemma of_Zs_nonneg (l : list Z) :
  Forall (λ z, 0 ≤ z) l → Forall (λ x, 0 <= x)%Q (of_Zs l).
Proof.
  intros H. apply Forall_map. eapply Forall_impl; [exact H|].
  intros z Hz; simpl in *. unfold Qle; simpl. lia.
Qed.

Lemma Zsum_nonneg (l : list Z) : Forall (λ z, 0 ≤ z) l → 0 ≤ Zsum l.
Proof. induction 1; simpl; lia. Qed.

(** ** Groups *)

Lemma group_insert_Forall {A} (P : A → Prop) (k : Z) (v : A) (g : list (Z * list A)) :
  P v → Forall (λ kv, kv.2 ≠ [] ∧ Forall P kv.2) g →
  Forall (λ kv, kv.2 ≠ [] ∧ Forall P kv.2) (group_insert k v g).
Proof.
  intros Hv. induction 1 as [|[k' vs] g [Hne Hvs] Hg IH]; simpl.
  - repeat constructor; done.
  - destruct (k <? k').
    + repeat constructor; done.
    + destruct (k =? k').
      * constructor; [|done]. simpl in *. split.
        -- by destruct vs.
        -- apply Forall_app. split; [done|by constructor].
      * by constructor.
Qed.

Lemma groupby_Forall {A} (P : A → Prop) (keys : list Z) (vals : list A) :
  Forall P vals →
  Forall (λ kv, kv.2 ≠ [] ∧ Forall P kv.2) (groupby keys vals).
Proof.
  intros Hvals. unfold groupby.
  assert (Hzip : Forall (λ kv, P kv.2) (zip keys vals)).
  { revert keys. induction Hvals as [|v vals Hv _ IH]; intros [|k keys]; simpl;
      try constructor; auto. }
  assert (Hinit : Forall (λ kv : Z * list A, kv.2 ≠ [] ∧ Forall P kv.2) []) by constructor.
  revert Hinit. generalize (@nil (Z * list A)).
  induction Hzip as [|[k v] l Hkv _ IH]; intros g Hg; simpl; [exact Hg|].
  apply IH. by apply group_insert_Forall.
Qed.

(** ** Control limits around a non-negative centre line (C5) *)

Lemma floor_band (c d : Q) :
  (0 <= c)%Q → (0 <= d)%Q →
  (0 <= (if Qltb 0 (c - d) then c - d else 0)
   ∧ (if Qltb 0 (c - d) then c - d else 0) <= c
   ∧ c <= c + d)%Q.
Proof.
  intros Hc Hd. destruct (Qltb 0 (c - d)) eqn:E.
  - apply Qltb_lt in E. lra.
  - lra.
Qed.

Lemma nsqrt_nonneg (sqrt : Q → Q) (a : num) (r : Q) :
  (∀ x, 0 <= x → 0 <= sqrt x)%Q → nsqrt sqrt a = Some r → (0 <= r)%Q.
Proof.
  intros Hsqrt. destruct a as [x|]; simpl; [|done].
  destruct (Qle_bool 0 x) eqn:E; [|done].
  intros [= <-]. apply Hsqrt. by apply Qle_bool_iff.
Qed.

(** Limits of the form CL - 3 sqrt(..) floored at zero, CL, CL + 3 sqrt(..). *)
Lemma band_ordered (sqrt : Q → Q) (c arg : num) :
  (∀ x, 0 <= x → 0 <= sqrt x)%Q →
  (∀ qc, c = Some qc → 0 <= qc)%Q →
  ordered_from_zero (py_max0 (c - fin 3 * nsqrt sqrt arg)) c (c + fin 3 * nsqrt sqrt arg).
Proof.
  intros Hsqrt Hc ql qc qu Hl -> Hu.
  destruct (nsqrt sqrt arg) as [r|] eqn:Er; [|done].
  apply nsqrt_nonneg in Er; [|done].
  simpl in Hl, Hu. injection Hl as <-. injection Hu as <-.
  apply floor_band; [by apply Hc|]. lra.
Qed.

Lemma c_chart_ordered (sqrt : Q → Q) df column lower_spec upper_spec ch :
  (∀ x, 0 <= x → 0 <= sqrt x)%Q →
  c_chart.plot_c_chart sqrt df column lower_spec upper_spec = Ok ch →
  ordered_from_zero (LCL (c_chart.lims ch)) (CL (c_chart.lims ch)) (UCL (c_chart.lims ch)).
Proof.
  intros Hsqrt. unfold c_chart.plot_c_chart.
  destruct (negb _ && negb _); [done|].
  next_getitem; [|done]. intros [= <-]; simpl.
  apply band_ordered; [done|]. intros qc Hqc.
  eapply nmean_nonneg; [|exact Hqc].
  apply of_Zs_nonneg, Forall_fmap, Forall_forall. intros x _; simpl.
  rewrite count_defects_cases.
  destruct (is_not_None lower_spec && _), (is_not_None upper_spec && _); lia.
Qed.

Lemma is_defective_nonneg lower_spec upper_spec (xs : list cell) :
  Forall (λ z, 0 ≤ z) (np_chart.is_defective lower_spec upper_spec <$> xs).
Proof.
  apply Forall_fmap, Forall_forall. intros x _; simpl.
  destruct (is_defective_cases lower_spec upper_spec x) as [[-> _]|[-> _]]; lia.
Qed.

Lemma p_chart_ordered (sqrt : Q → Q) df column subgroup_size lower_spec upper_spec ch :
  (∀ x, 0 <= x → 0 <= sqrt x)%Q →
  p_chart.plot_p_chart sqrt df column subgroup_size lower_spec upper_spec = Ok ch →
  ordered_from_zero (LCL (p_chart.lims ch)) (CL (p_chart.lims ch)) (UCL (p_chart.lims ch)).
Proof.
  intros Hsqrt. unfold p_chart.plot_p_chart.
  destruct (negb _ && negb _); [done|].
  next_getitem; [|done]. intros [= <-]; simpl.
  apply band_ordered; [done|]. intros qc Hqc.
  destruct (subgroup_size =? 0); [done|].
  eapply nmean_nonneg; [|exact Hqc].
  rewrite <- list_fmap_compose. apply Forall_fmap.
  eapply Forall_impl; [apply (groupby_Forall (λ z, 0 ≤ z)), is_defective_nonneg|].
  intros [k vs] [Hne Hvs]; simpl in *.
  apply Qle_shift_div_l.
  - unfold Qlt; simpl. destruct vs; [done|simpl; lia].
  - rewrite Qmult_0_l. apply Zsum_nonneg in Hvs. unfold Qle; simpl. lia.
Qed.

Lemma np_chart_ordered (sqrt : Q → Q) df column subgroup_size lower_spec upper_spec ch :
  (∀ x, 0 <= x → 0 <= sqrt x)%Q →
  0 < subgroup_size →
  np_chart.plot_np_chart sqrt df column subgroup_size lower_spec upper_spec = Ok ch →
  ordered_from_zero (LCL (np_chart.lims ch)) (CL (np_chart.lims ch))
    (UCL (np_chart.lims ch)).
Proof.
  intros Hsqrt Hpos. unfold np_chart.plot_np_chart.
  destruct (negb _ && negb _); [done|].
  next_getitem; [|done]. intros [= <-]; simpl.
  destruct (subgroup_size =? 0) eqn:Es; [lia|]. clear Es.
  intros ql qc qu Hl Hc Hu. rewrite Hc in Hl, Hu.
  assert (Hqc : (0 <= qc)%Q).
  { eapply nmean_nonneg; [|exact Hc].
    apply of_Zs_nonneg. rewrite <- list_fmap_compose. apply Forall_fmap.
    eapply Forall_impl; [apply (groupby_Forall (λ z, 0 ≤ z)), is_defective_nonneg|].
    intros [k vs] [_ Hvs]; simpl. by apply Zsum_nonneg. }
  set (s := inject_Z subgroup_size) in *.
  assert (Hs : (0 < s)%Q) by (unfold s, Qlt; simpl; lia).
  unfold fin in Hl, Hu. simpl in Hl, Hu.
  destruct (Qeq_bool s 0) eqn:Es.
  { apply Qeq_bool_iff in Es. lra. }
  simpl in Hl, Hu.
  match type of Hu with context [nsqrt sqrt ?a] =>
    destruct (nsqrt sqrt a) as [r|] eqn:Er; [|done] end.
  apply nsqrt_nonneg in Er; [|done].
  simpl in Hl, Hu. injection Hl as <-. injection Hu as <-.
  assert (Hdiv : (s * (qc / s) == qc)%Q) by (apply Qmult_div_r; lra).
  assert (Hsr : (0 <= s * r)%Q) by (apply Qmult_le_0_compat; lra).
  assert (Hlow : (s * (qc / s - 3 * r) == qc - 3 * (s * r))%Q).
  { rewrite <- Hdiv at 2. ring. }
  assert (Hup : (s * (qc / s + 3 * r) == qc + 3 * (s * r))%Q).
  { rewrite <- Hdiv at 2. ring. }
  destruct (Qltb 0 _) eqn:Elt.
  - apply Qltb_lt in Elt. lra.
  - lra.
Qed.

Lemma clip_band (c d : Q) :
  (0 <= c)%Q → (0 <= d)%Q →
  (0 <= (if Qltb (c - d) 0 then 0 else c - d)
   ∧ (if Qltb (c - d) 0 then 0 else c - d) <= c
   ∧ c <= c + d)%Q.
Proof.
  intros Hc Hd. destruct (Qltb (c - d) 0) eqn:E.
  - lra.
  - apply Qltb_ge in E. lra.
Qed.

Lemma u_chart_ordered (sqrt : Q → Q) df column sample_size_col lower_spec upper_spec ch :
  (∀ x, 0 <= x → 0 <= sqrt x)%Q →
  u_chart.plot_u_chart sqrt df column sample_size_col lower_spec upper_spec = Ok ch →
  (∀ n, Some n ∈ u_chart.sample_size ch → 0 < n)%Q →
  ∀ i l u, u_chart.LCL ch !! i = Some l → u_chart.UCL ch !! i = Some u →
    ordered_from_zero l (u_chart.u_bar ch) u.
Proof.
  intros Hsqrt. unfold u_chart.plot_u_chart. cbv zeta.
  destruct (negb _ && negb _); [done|].
  destruct (getitem df column) as [xs|e]; cbn [mbind result_bind mret result_ret];
    [|done].
  destruct (getitem _ sample_size_col) as [sizes|e];
    cbn [mbind result_bind mret result_ret]; [|done].
  destruct (getitem _ column) as [xs'|e];
    cbn [mbind result_bind mret result_ret]; [|done].
  destruct (getitem _ "material_salida") as [labels|e];
    cbn [mbind result_bind mret result_ret]; [|done].
  intros [= <-].
  cbn [u_chart.LCL u_chart.UCL u_chart.u_bar u_chart.sample_size].
  set (D := Zsum (u_chart.count_defects lower_spec upper_spec <$> xs)).
  set (ub := (fin (inject_Z D) / fin (Qsum (dropna sizes)))%num).
  intros Hsizes i l u Hl Hu.
  apply list_lookup_fmap_Some in Hu as (n & -> & Hn).
  apply list_lookup_fmap_Some in Hl as (l' & -> & Hl).
  apply list_lookup_fmap_Some in Hl as (n' & -> & Hn').
  assert (n' = n) as -> by congruence.
  intros ql qc qu Hl Hc Hu. rewrite Hc in Hl, Hu.
  assert (Hqc : (0 <= qc)%Q).
  { unfold ub, fin in Hc; simpl in Hc.
    destruct (Qeq_bool _ 0) eqn:E0; [done|]. injection Hc as <-.
    apply Qeq_bool_neq in E0.
    assert (Hsum : (0 <= Qsum (dropna sizes))%Q).
    { apply Qsum_nonneg, Forall_forall. intros x Hx.
      apply list_elem_of_omap in Hx as (c & Hc & Hcx). simpl in Hcx. subst c.
      apply Qlt_le_weak. by apply Hsizes. }
    apply Qle_shift_div_l; [lra|]. rewrite Qmult_0_l.
    pose proof (Zsum_nonneg _ (is_defective_nonneg lower_spec upper_spec xs)) as HD.
    change (0 ≤ D) in HD. unfold Qle; simpl. lia. }
  destruct (nsqrt sqrt (Some qc / n)%num) as [r|] eqn:Er; [|done].
  apply nsqrt_nonneg in Er; [|done].
  simpl in Hl, Hu. injection Hl as <-. injection Hu as <-.
  apply clip_band; lra.
Qed.

(** C5, amended. Whenever one of the four attribute charts returns, its
    limits, where they are numbers, satisfy 0 ≤ LCL ≤ CL ≤ UCL (the lower
    limit being floored at zero): for the c chart and the p chart as they
    are, for the np chart with a positive subgroup size, and for the u
    chart row by row when the sample sizes are positive.  The square root
    is any function that is non-negative on non-negative arguments. *)
Theorem limits_ordered_from_zero (sqrt : Q → Q) :
  (∀ x, 0 <= x → 0 <= sqrt x)%Q →
  (∀ df column lower_spec upper_spec ch,
     c_chart.plot_c_chart sqrt df column lower_spec upper_spec = Ok ch →
     ordered_from_zero (LCL (c_chart.lims ch)) (CL (c_chart.lims ch))
       (UCL (c_chart.lims ch)))
  ∧ (∀ df column subgroup_size lower_spec upper_spec ch,
     0 < subgroup_size →
     np_chart.plot_np_chart sqrt df column subgroup_size lower_spec upper_spec = Ok ch →
     ordered_from_zero (LCL (np_chart.lims ch)) (CL (np_chart.lims ch))
       (UCL (np_chart.lims ch)))
  ∧ (∀ df column subgroup_size lower_spec upper_spec ch,
     p_chart.plot_p_chart sqrt df column subgroup_size lower_spec upper_spec = Ok ch →
     ordered_from_zero (LCL (p_chart.lims ch)) (CL (p_chart.lims ch))
       (UCL (p_chart.lims ch)))
  ∧ (∀ df column sample_size_col lower_spec upper_spec ch,
     u_chart.plot_u_chart sqrt df column sample_size_col lower_spec upper_spec = Ok ch →
     (∀ n, Some n ∈ u_chart.sample_size ch → 0 < n)%Q →
     ∀ i l u, u_chart.LCL ch !! i = Some l → u_chart.UCL ch !! i = Some u →
       ordered_from_zero l (u_chart.u_bar ch) u).
Proof.
  intros Hsqrt. split_and!; intros.
  - by eapply c_chart_ordered.
  - by eapply np_chart_ordered.
  - by eapply p_chart_ordered.
  - by eapply u_chart_ordered.
Qed.

Lemma limits_ordered_from_zero_witness :
  (∀ x, 0 <= x → 0 <= sqrt_4dp x)%Q
  ∧ (∃ ch, c_chart.plot_c_chart sqrt_4dp frame3 "x" None (Some 5%Q) = Ok ch
       ∧ is_Some (LCL (c_chart.lims ch)) ∧ is_Some (CL (c_chart.lims ch))
       ∧ is_Some (UCL (c_chart.lims ch))
       ∧ ordered_from_zero (LCL (c_chart.lims ch)) (CL (c_chart.lims ch))
           (UCL (c_chart.lims ch)))
  ∧ (0 < 2
     ∧ ∃ ch, np_chart.plot_np_chart sqrt_4dp frame3 "x" 2 None (Some 5%Q) = Ok ch
       ∧ is_Some (LCL (np_chart.lims ch)) ∧ is_Some (CL (np_chart.lims ch))
       ∧ is_Some (UCL (np_chart.lims ch))
       ∧ ordered_from_zero (LCL (np_chart.lims ch)) (CL (np_chart.lims ch))
           (UCL (np_chart.lims ch)))
  ∧ (∃ ch, p_chart.plot_p_chart sqrt_4dp frame3 "x" 2 None (Some 5%Q) = Ok ch
       ∧ is_Some (LCL (p_chart.lims ch)) ∧ is_Some (CL (p_chart.lims ch))
       ∧ is_Some (UCL (p_chart.lims ch))
       ∧ ordered_from_zero (LCL (p_chart.lims ch)) (CL (p_chart.lims ch))
           (UCL (p_chart.lims ch)))
  ∧ (∃ ch l u, u_chart.plot_u_chart sqrt_4dp frame3 "x" "size" None (Some 5%Q) = Ok ch
       ∧ (∀ n, Some n ∈ u_chart.sample_size ch → 0 < n)%Q
       ∧ u_chart.LCL ch !! 1%nat = Some (Some l)
       ∧ u_chart.UCL ch !! 1%nat = Some (Some u)
       ∧ is_Some (u_chart.u_bar ch)
       ∧ ordered_from_zero (Some l) (u_chart.u_bar ch) (Some u)).
Proof.
  assert (Hsqrt : (∀ x, 0 <= x → 0 <= sqrt_4dp x)%Q)
    by (intros x _; apply sqrt_4dp_nonneg).
  destruct (limits_ordered_from_zero sqrt_4dp Hsqrt) as (Hc & Hnp & Hp & Hu).
  split; [exact Hsqrt|]. split_and!.
  - eexists. split; [by vm_compute|].
    split_and!; [by eexists..|]. apply (Hc frame3 "x" None (Some 5%Q)). by vm_compute.
  - lia.
  - eexists. split; [by vm_compute|].
    split_and!; [by eexists..|]. apply (Hnp frame3 "x" 2 None (Some 5%Q)); [lia|by vm_compute].
  - eexists. split; [by vm_compute|].
    split_and!; [by eexists..|]. apply (Hp frame3 "x" 2 None (Some 5%Q)). by vm_compute.
  - eexists _, _, _. split; [by vm_compute|].
    assert (Hsizes : (∀ n, Some n ∈ [Some 10; Some 20; Some 10] → 0 < n)%Q).
    { intros n Hn. repeat (apply elem_of_cons in Hn as [[= ->]|Hn]; [by vm_compute|]).
      by apply elem_of_nil in Hn. }
    split; [exact Hsizes|].
    split; [by vm_compute|]. split; [by vm_compute|]. split; [by eexists|].
    eapply (Hu frame3 "x" "size" None (Some 5%Q) _ eq_refl Hsizes 1%nat); by vm_compute.
Defined.

(** The claim as the spec words it fails for sizes that are not positive.
    The np chart on four defective rows with a subgroup size of -2, and the
    u chart on two defective rows with sample sizes of -1, both return
    limits that are numbers and out of order: LCL above CL above UCL in the
    first, LCL = 0 above CL = -1 in the second. *)
Lemma limits_out_of_order :
  (∃ ch l c u,
     np_chart.plot_np_chart sqrt_4dp frame_all_defective "x" (-2) None (Some 5%Q) = Ok ch
     ∧ LCL (np_chart.lims ch) = Some l ∧ CL (np_chart.lims ch) = Some c
     ∧ UCL (np_chart.lims ch) = Some u
     ∧ (u < c)%Q ∧ (c < l)%Q)
  ∧ (∃ ch l c,
     u_chart.plot_u_chart sqrt_4dp frame_all_defective "x" "negative" None (Some 5%Q)
       = Ok ch
     ∧ u_chart.LCL ch !! 0%nat = Some (Some l) ∧ u_chart.u_bar ch = Some c
     ∧ (c < 0)%Q ∧ (c < l)%Q).
Proof.
  split.
  - eexists _, _, _, _. split; [by vm_compute|].
    split_and!; [reflexivity..| |]; by vm_compute.
  - eexists _, _, _. split; [by vm_compute|].
    split_and!; [reflexivity..| |]; by vm_compute.
Qed.

(** ** Subgroups (C1) *)

Lemma chunks_length {A} (rows cols : nat) (l : list A) :
  length (chunks rows cols l) = rows.
Proof. revert l. induction rows as [|rows IH]; intros l; simpl; [done|]. by rewrite IH. Qed.

Lemma chunks_concat {A} (rows cols : nat) (l : list A) :
  concat (chunks rows cols l) = take (rows * cols) l.
Proof.
  revert l. induction rows as [|rows IH]; intros l; simpl; [done|].
  by rewrite IH, take_take_drop.
Qed.

Lemma chunks_row_length {A} (rows cols : nat) (l : list A) :
  (rows * cols ≤ length l)%nat →
  Forall (λ g, length g = cols) (chunks rows cols l).
Proof.
  revert l. induction rows as [|rows IH]; intros l Hl; simpl; constructor.
  - rewrite length_take. simpl in Hl. lia.
  - apply IH. rewrite length_drop. simpl in Hl. lia.
Qed.

Lemma subgroups_of_spec (data : list Q) (s : Z) :
  1 ≤ s →
  let m := Z.of_nat (length data) in
  Z.of_nat (length (subgroups_of data s)) = m `div` s
  ∧ Forall (λ g, Z.of_nat (length g) = s) (subgroups_of data s)
  ∧ ∃ dropped, data = concat (subgroups_of data s) ++ dropped
               ∧ Z.of_nat (length dropped) = m `mod` s.
Proof.
  intros Hs m. unfold subgroups_of. fold m.
  assert (Hk : 0 ≤ m `div` s) by (apply Z.div_pos; lia).
  assert (Hle : (Z.to_nat (m `div` s) * Z.to_nat s ≤ length data)%nat).
  { pose proof (Z.mul_div_le m s). unfold m in *. nia. }
  split_and!.
  - rewrite chunks_length. lia.
  - eapply Forall_impl; [by apply chunks_row_length|]. intros g Hg; simpl in *. lia.
  - exists (drop (Z.to_nat (m `div` s) * Z.to_nat s) data). split.
    + by rewrite chunks_concat, take_drop.
    + rewrite length_drop. pose proof (Z.div_mod m s). nia.
Qed.

Lemma floordiv_Ok (a b k : Z) :
  floordiv a b = Ok k ↔ b ≠ 0 ∧ k = a `div` b.
Proof.
  unfold floordiv. destruct (b =? 0) eqn:E; split.
  - done.
  - intros [? _]. lia.
  - intros [= <-]. split; [lia|done].
  - by intros [_ ->].
Qed.

Lemma chunks_take {A} (rows cols n : nat) (l : list A) :
  (rows * cols ≤ n)%nat → chunks rows cols (take n l) = chunks rows cols l.
Proof.
  revert n l. induction rows as [|rows IH]; intros n l Hn; simpl; [done|].
  simpl in Hn. f_equal.
  - rewrite take_take. f_equal. lia.
  - replace n with (cols + (n - cols))%nat at 1 by lia.
    rewrite <- take_drop_commute. apply IH. lia.
Qed.

(** With at least one complete subgroup, the slice and the reshape go
    through and give the subgroups. *)
Lemma reshape_subgroups (data : list Q) (s k : Z) :
  floordiv (Z.of_nat (length data)) s = Ok k → 1 ≤ k →
  1 ≤ s ∧ (k =? 0) = false
  ∧ reshape (slice_to data (k * s)) k s = Ok (subgroups_of data s).
Proof.
  intros [Hs ->]%floordiv_Ok Hk.
  set (m := Z.of_nat (length data)) in *.
  assert (Hs1 : 1 ≤ s).
  { destruct (Z.lt_ge_cases 0 s) as [?|Hneg]; [lia|].
    pose proof (Z.div_mod m s Hs). pose proof (Z.mod_neg_bound m s). nia. }
  split; [done|]. split; [lia|].
  assert (Hle : m `div` s * s ≤ m) by (pose proof (Z.mul_div_le m s); lia).
  unfold reshape, slice_to.
  replace (m `div` s * s <? 0) with false by lia.
  rewrite length_take.
  replace (0 <=? m `div` s) with true by lia.
  replace (0 <=? s) with true by lia. simpl.
  rewrite Nat.min_l by (unfold m in *; lia).
  rewrite Z2Nat.id, Z.eqb_refl by lia.
  f_equal. unfold subgroups_of. fold m. apply chunks_take. nia.
Qed.

Lemma lookup_constant_unsupported (s : Z) :
  s < 2 ∨ 10 < s →
  Forall (λ t, lookup_constant t s = Raise (ValueError (unsupported_msg s))) tables.
Proof.
  intros Hs. unfold tables.
  repeat constructor; unfold lookup_constant;
    match goal with |- context [list_find ?P ?t] =>
      destruct (list_find P t) as [[i kv]|] eqn:E; [|done] end;
    apply list_find_Some in E as (Hin & Hkey & _);
    apply list_elem_of_lookup_2 in Hin; simpl in Hkey;
    repeat (apply elem_of_cons in Hin as [->|Hin]; [simpl in Hkey; lia|]);
    by apply elem_of_nil in Hin.
Qed.

Lemma lookup_constant_supported (s : Z) :
  2 ≤ s ≤ 10 → Forall (λ t, ∃ q, lookup_constant t s = Ok q) tables.
Proof.
  intros Hs.
  assert (s = 2 ∨ s = 3 ∨ s = 4 ∨ s = 5 ∨ s = 6 ∨ s = 7 ∨ s = 8 ∨ s = 9 ∨ s = 10)
    as Hcases by lia.
  unfold tables.
  repeat destruct Hcases as [->|Hcases]; try subst s;
    repeat constructor; by eexists.
Qed.

(** The claim as the spec words it fails when the grouping column is not
    a column of the frame, as with the default grouping_column=None: the
    labels of the subgroups are read before the tables of constants, so an
    unsupported subgroup size ends in that KeyError, not in the
    ValueError. *)
Lemma unsupported_size_without_grouping_column :
  x_bar_r.xbar_r_chart_plotly frame8 "x" "batch" 1 = Raise (KeyError "batch")
  ∧ x_bar_s.plot_xbar_s_chart sqrt_4dp frame8 "x" "batch" 1 = Raise (KeyError "batch")
  ∧ x_bar_r.xbar_r_chart_plotly frame8 "x" "lot" 1
    = Raise (ValueError (unsupported_msg 1)).
Proof. split_and!; by vm_compute. Qed.

(** C1, amended. The X-bar/R and the X-bar/S chart, on a frame that has
    the value column, with m the number of non-NA values of that column.
    When the grouping column is a column of the frame: for a subgroup size
    outside 2 to 10 for which the code counts at least one complete
    subgroup (k = m // subgroup_size ≥ 1), the call raises the ValueError
    "Subgroup size ... not supported"; for a subgroup size s from 2 to 10
    with m ≥ s the call returns, the subgroup means are the means of
    m // s consecutive blocks of s values, and the values left out are the
    last m mod s.  When the grouping column is not a column of the frame,
    every call that counts a complete subgroup raises the KeyError of that
    column, whether the subgroup size is supported or not. *)
Theorem subgroup_size_checked (sqrt : Q → Q) df value_column grouping_column col s :
  columns df !! value_column = Some col →
  let data := dropna col in
  let m := Z.of_nat (length data) in
  (has_column df grouping_column →
   ((s < 2 ∨ 10 < s) →
    (∃ k, floordiv m s = Ok k ∧ 1 ≤ k) →
    x_bar_r.xbar_r_chart_plotly df value_column grouping_column s
      = Raise (ValueError (unsupported_msg s))
    ∧ x_bar_s.plot_xbar_s_chart sqrt df value_column grouping_column s
      = Raise (ValueError (unsupported_msg s)))
   ∧ (2 ≤ s ≤ 10 → s ≤ m →
      ∃ r c dropped,
        x_bar_r.xbar_r_chart_plotly df value_column grouping_column s = Ok r
        ∧ x_bar_s.plot_xbar_s_chart sqrt df value_column grouping_column s = Ok c
        ∧ x_bar_r.groups r = x_bar_s.groups c
        ∧ x_bar_r.xbars r = nmean <$> x_bar_r.groups r
        ∧ x_bar_s.xbars c = nmean <$> x_bar_s.groups c
        ∧ Z.of_nat (length (x_bar_r.xbars r)) = m `div` s
        ∧ Z.of_nat (length (x_bar_s.xbars c)) = m `div` s
        ∧ Forall (λ g, Z.of_nat (length g) = s) (x_bar_r.groups r)
        ∧ data = concat (x_bar_r.groups r) ++ dropped
        ∧ Z.of_nat (length dropped) = m `mod` s))
  ∧ (columns df !! grouping_column = None →
     (∃ k, floordiv m s = Ok k ∧ 1 ≤ k) →
     x_bar_r.xbar_r_chart_plotly df value_column grouping_column s
       = Raise (KeyError grouping_column)
     ∧ x_bar_s.plot_xbar_s_chart sqrt df value_column grouping_column s
       = Raise (KeyError grouping_column)).
Proof.
  intros Hcol data m.
  apply getitem_Ok in Hcol.
  unfold x_bar_r.xbar_r_chart_plotly, x_bar_s.plot_xbar_s_chart.
  rewrite Hcol. cbn [mbind result_bind mret result_ret]. fold data. fold m.
  split; [intros Hgroup; apply has_column_getitem in Hgroup as [labels Hlabels]; split|].
  - intros Hout (k & Hk & Hk1).
    destruct (reshape_subgroups data s k Hk Hk1) as (_ & Hk0 & Hreshape).
    rewrite Hk. cbn [mbind result_bind mret result_ret].
    rewrite Hk0, Hreshape. cbn [mbind result_bind mret result_ret].
    rewrite Hlabels. cbn [mbind result_bind mret result_ret].
    pose proof (lookup_constant_unsupported s Hout) as Htab.
    rewrite Forall_forall in Htab.
    rewrite (Htab x_bar_r.A2), (Htab x_bar_s.A3); [done|unfold tables; by repeat constructor..].
  - intros Hin Hm.
    assert (Hk : floordiv m s = Ok (m `div` s)) by (apply floordiv_Ok; split; [lia|done]).
    assert (Hk1 : 1 ≤ m `div` s).
    { apply Z.div_le_lower_bound; lia. }
    destruct (reshape_subgroups data s _ Hk Hk1) as (_ & Hk0 & Hreshape).
    rewrite Hk. cbn [mbind result_bind mret result_ret].
    rewrite Hk0, Hreshape. cbn [mbind result_bind mret result_ret].
    rewrite Hlabels. cbn [mbind result_bind mret result_ret].
    pose proof (lookup_constant_supported s Hin) as Htab.
    rewrite Forall_forall in Htab.
    destruct (Htab x_bar_r.A2) as [a2 ->]; [unfold tables; by repeat constructor|].
    destruct (Htab x_bar_r.D3) as [d3 ->]; [unfold tables; by repeat constructor|].
    destruct (Htab x_bar_r.D4) as [d4 ->]; [unfold tables; by repeat constructor|].
    destruct (Htab x_bar_s.A3) as [a3 ->]; [unfold tables; by repeat constructor|].
    destruct (Htab x_bar_s.B3) as [b3 ->]; [unfold tables; by repeat constructor|].
    destruct (Htab x_bar_s.B4) as [b4 ->]; [unfold tables; by repeat constructor|].
    cbn [mbind result_bind mret result_ret].
    destruct (subgroups_of_spec data s ltac:(lia)) as (Hlen & Hrows & dropped & Hcat & Hdrop).
    eexists _, _, dropped. split; [reflexivity|]. split; [reflexivity|].
    cbn [x_bar_r.groups x_bar_r.xbars x_bar_s.groups x_bar_s.xbars].
    rewrite !length_fmap. by split_and!.
  - intros Hnone (k & Hk & Hk1).
    assert (Hraise : getitem df grouping_column = Raise (KeyError grouping_column))
      by (by apply getitem_Raise).
    destruct (reshape_subgroups data s k Hk Hk1) as (_ & Hk0 & Hreshape).
    rewrite Hk. cbn [mbind result_bind mret result_ret].
    rewrite Hk0, Hreshape. cbn [mbind result_bind mret result_ret].
    by rewrite Hraise.
Qed.

Lemma subgroup_size_checked_witness :
  (∃ r c, x_bar_r.xbar_r_chart_plotly frame8 "x" "lot" 3 = Ok r
     ∧ x_bar_s.plot_xbar_s_chart sqrt_4dp frame8 "x" "lot" 3 = Ok c
     ∧ x_bar_r.groups r = [[1; 2; 4]; [5; 6; 7]]%Q
     ∧ Z.of_nat (length (x_bar_r.xbars r)) = 2
     ∧ Z.of_nat (length (x_bar_s.xbars c)) = 2)
  ∧ x_bar_r.xbar_r_chart_plotly frame8 "x" "lot" 1
    = Raise (ValueError "Subgroup size 1 not supported. Valid sizes: 2-10")
  ∧ x_bar_s.plot_xbar_s_chart sqrt_4dp frame8 "x" "batch" 3 = Raise (KeyError "batch")
  ∧ x_bar_s.plot_xbar_s_chart sqrt_4dp frame8 "x" "lot" 11
    = Raise (ValueError too_few_msg).
Proof.
  assert (Hcol : columns frame8 !! "x"
    = Some [Some 1%Q; Some 2%Q; None; Some 4%Q; Some 5%Q; Some 6%Q; Some 7%Q; Some 8%Q])
    by by vm_compute.
  assert (Hlot : has_column frame8 "lot") by (eexists; by vm_compute).
  split_and!.
  - destruct (subgroup_size_checked sqrt_4dp frame8 "x" "lot" _ 3 Hcol) as [Hthere _].
    destruct (Hthere Hlot) as [_ Hin].
    destruct Hin as (r & c & dropped & Hr & Hc & _ & _ & _ & Hlr & Hlc & _);
      [lia | by vm_compute |].
    exists r, c. split; [exact Hr|]. split; [exact Hc|].
    split; [|by split].
    vm_compute in Hr. by injection Hr as <-.
  - destruct (subgroup_size_checked sqrt_4dp frame8 "x" "lot" _ 1 Hcol) as [Hthere _].
    destruct (Hthere Hlot) as [Hout _].
    destruct Hout as [Hr _]; [lia | by eexists; split; [by vm_compute|lia] |].
    exact Hr.
  - destruct (subgroup_size_checked sqrt_4dp frame8 "x" "batch" _ 3 Hcol) as [_ Hmissing].
    destruct Hmissing as [_ Hs]; [by vm_compute | by eexists; split; [by vm_compute|lia] |].
    exact Hs.
  - by vm_compute.
Defined.

(** Below 1 no subgroup is complete.  A subgroup size of 0 is a division
    by zero; a negative one is refused either by the count of subgroups or
    by the reshape, with a ValueError of another text. *)
Lemma subgroup_size_not_positive (sqrt : Q → Q) df value_column grouping_column col s :
  columns df !! value_column = Some col →
  (s = 0 →
   x_bar_r.xbar_r_chart_plotly df value_column grouping_column s = Raise ZeroDivisionError
   ∧ x_bar_s.plot_xbar_s_chart sqrt df value_column grouping_column s
     = Raise ZeroDivisionError)
  ∧ (s < 0 →
     ∃ text,
       x_bar_r.xbar_r_chart_plotly df value_column grouping_column s
         = Raise (ValueError text)
       ∧ x_bar_s.plot_xbar_s_chart sqrt df value_column grouping_column s
         = Raise (ValueError text)).
Proof.
  intros Hcol. apply getitem_Ok in Hcol.
  unfold x_bar_r.xbar_r_chart_plotly, x_bar_s.plot_xbar_s_chart.
  rewrite Hcol. cbn [mbind result_bind mret result_ret].
  set (m := Z.of_nat (length (dropna col))).
  split.
  - intros ->. done.
  - intros Hs. unfold floordiv. replace (s =? 0) with false by lia.
    cbn [mbind result_bind mret result_ret].
    destruct (m `div` s =? 0) eqn:Ek; [by eexists|].
    assert (Hk : m `div` s < 0).
    { pose proof (Z.div_mod m s ltac:(lia)). pose proof (Z.mod_neg_bound m s Hs).
      unfold m in *. nia. }
    unfold reshape.
    replace (0 <=? m `div` s) with false by lia. simpl.
    replace (0 <? s) with false by lia. rewrite andb_false_r.
    replace (0 <? m `div` s) with false by lia. rewrite andb_false_r. simpl.
    by eexists.
Qed.

(** ** Moving ranges (C7) *)





(** ** The EWMA loop (C3) *)

Section ewma_loop.
Context {F : Type}.
Variables (zero one : F) (add sub mul : F → F → F) (mean : list F → F).
Variables (lambda_value : F) (x : list F).

Let smooth (xi prev : F) : F := add (mul lambda_value xi) (mul (sub one lambda_value) prev).
Let step := ewma_chart.ewma_step one add sub mul lambda_value x.
Let start : list F := <[0%nat := mean x]> (replicate (length x) zero).

(** After the turns 1 to k of the loop: the array has kept its length and
    its first entry, and the entries 1 to k obey the recurrence. *)
Lemma ewma_loop_invariant (k : nat) :
  (k < length x)%nat →
  let e := foldl step start (seq 1 k) in
  length e = length x
  ∧ e !! 0%nat = Some (mean x)
  ∧ ∀ i xi prev, (1 ≤ i ≤ k)%nat → x !! i = Some xi → e !! (i - 1)%nat = Some prev →
      e !! i = Some (smooth xi prev).
Proof.
  induction k as [|k IH]; intros Hk; cbv zeta.
  - simpl. unfold start. rewrite length_insert, length_replicate. split_and!; [done| |lia].
    apply list_lookup_insert_eq. rewrite length_replicate. lia.
  - destruct IH as (Hlen & H0 & Hrec); [lia|].
    rewrite seq_S, foldl_app. simpl.
    set (e := foldl step start (seq 1 k)) in *.
    destruct (lookup_lt_is_Some_2 x (S k) Hk) as [xk Hxk].
    destruct (lookup_lt_is_Some_2 e k ltac:(lia)) as [ek Hek].
    assert (Hstep : step e (S k) = <[S k := smooth xk ek]> e).
    { unfold step, ewma_chart.ewma_step.
      replace (S k - 1)%nat with k by lia. by rewrite Hxk, Hek. }
    rewrite Hstep, length_insert. split_and!; [done|by rewrite list_lookup_insert_ne| ].
    intros i xi prev Hi Hxi Hprev.
    destruct (decide (i = S k)) as [->|Hne].
    + rewrite list_lookup_insert_eq by lia.
      replace (S k - 1)%nat with k in Hprev by lia.
      rewrite list_lookup_insert_ne in Hprev by lia.
      by simplify_eq.
    + rewrite list_lookup_insert_ne by lia.
      rewrite list_lookup_insert_ne in Hprev by lia.
      apply Hrec; [lia|done..].
Qed.

Lemma ewma_values_empty :
  x = [] →
  ewma_chart.ewma_values zero one add sub mul mean lambda_value x = Raise IndexError.
Proof. intros Hx. by rewrite Hx. Qed.

(** On a non-empty series the loop returns, the first entry is the mean
    and every later entry is the smoothing of its predecessor. *)
Lemma ewma_values_recurrence :
  (0 < length x)%nat →
  ∃ e, ewma_chart.ewma_values zero one add sub mul mean lambda_value x = Ok e
    ∧ length e = length x
    ∧ e !! 0%nat = Some (mean x)
    ∧ ∀ i xi prev, (1 ≤ i)%nat → x !! i = Some xi → e !! (i - 1)%nat = Some prev →
        e !! i = Some (add (mul lambda_value xi) (mul (sub one lambda_value) prev)).
Proof.
  intros Hx. exists (foldl step start (seq 1 (length x - 1))). split.
  - unfold ewma_chart.ewma_values, start, step.
    destruct (length x) eqn:En; [lia|done].
  - destruct (ewma_loop_invariant (length x - 1)) as (Hlen & H0 & Hrec); [lia|].
    split_and!; [done..|].
    intros i xi prev Hi Hxi Hprev. apply Hrec; [|done..].
    apply lookup_lt_Some in Hxi. lia.
Qed.

(** A constant series is left as it is by any arithmetic that computes its
    mean as the constant and smooths the constant with itself to the
    constant. *)
Lemma ewma_values_constant (c : F) (e : list F) :
  Forall (λ v, v = c) x → mean x = c →
  add (mul lambda_value c) (mul (sub one lambda_value) c) = c →
  ewma_chart.ewma_values zero one add sub mul mean lambda_value x = Ok e →
  Forall (λ v, v = c) e.
Proof.
  intros Hx Hmean Hsmooth He.
  destruct (decide (0 < length x)%nat) as [Hpos|Hempty].
  2: { rewrite ewma_values_empty in He; [done|]. apply length_zero_iff_nil. lia. }
  destruct (ewma_values_recurrence Hpos) as (e' & He' & Hlen & H0 & Hrec).
  rewrite He' in He. injection He as ->.
  assert (Hall : ∀ i, (i < length e)%nat → e !! i = Some c).
  { induction i as [|i IH]; intros Hi.
    - by rewrite H0, Hmean.
    - assert (Hxi : x !! S i = Some c).
      { destruct (lookup_lt_is_Some_2 x (S i)) as [xi Hxi]; [lia|]. rewrite Hxi.
        rewrite Forall_forall in Hx. f_equal. apply Hx.
        by eapply list_elem_of_lookup_2. }
      rewrite (Hrec (S i) c c); [by rewrite Hsmooth|lia|done|].
      replace (S i - 1)%nat with i by lia. apply IH. lia. }
  apply Forall_lookup. intros i v Hv.
  rewrite Hall in Hv by (by eapply lookup_lt_Some). by injection Hv as <-.
Qed.

End ewma_loop.

Lemma mapM_Ok {A B} (f : A → result B) (l : list A) :
  Forall (λ a, ∃ b, f a = Ok b) l → ∃ bs, mapM f l = Ok bs ∧ length bs = length l.
Proof.
  induction 1 as [|a l [b Hb] _ (bs & IH & Hlen)]; simpl.
  - by eexists.
  - rewrite Hb. cbn. rewrite IH. eexists. split; [done|]. simpl. by rewrite Hlen.
Qed.

Lemma Qpower_unit_interval (a : Q) (n : Z) :
  (0 <= a)%Q → (a <= 1)%Q → 0 ≤ n → (0 <= a ^ n ∧ a ^ n <= 1)%Q.
Proof.
  intros Ha0 Ha1 Hn. split; [by apply Qpower_0_le|].
  rewrite <- (Z2Nat.id n Hn). generalize (Z.to_nat n). clear n Hn.
  intros m. induction m as [|m IH].
  - simpl. lra.
  - rewrite Nat2Z.inj_succ, <- Z.add_1_l, Qpower_plus' by lia.
    rewrite Qpower_1_r.
    pose proof (Qpower_0_le a (Z.of_nat m) Ha0). nra.
Qed.

(** The mean of a constant series of numbers is that number. *)
Lemma nmean_of_constant (x : list cell) (c : Q) :
  x ≠ [] → Forall (λ v, v = Some c) x →
  ∃ v, nmean_of x = Some v ∧ (v == c)%Q.
Proof.
  intros Hne Hx.
  assert (Hqs : mapM id x = Some (replicate (length x) c)).
  { clear Hne. induction Hx as [|v x -> _ IH]; simpl; [done|]. by rewrite IH. }
  unfold nmean_of. rewrite Hqs.
  destruct x as [|v x]; [done|]. simpl length. clear.
  set (n := length x).
  assert (Hsum : ∀ k, (Qsum (replicate k c) == inject_Z (Z.of_nat k) * c)%Q).
  { induction k as [|k IH]; [simpl; ring|].
    change (replicate (S k) c) with (c :: replicate k c). simpl Qsum.
    rewrite IH, Nat2Z.inj_succ, <- Z.add_1_l, inject_Z_plus. ring. }
  eexists. split; [reflexivity|].
  rewrite length_replicate, Hsum. field.
  unfold Qeq; simpl. lia.
Qed.

Section ewma_exact.
Variable sqrt : Q → Q.

(** What [plot_ewma_chart] plots as the EWMA is the loop's result. *)
Lemma plot_ewma_chart_sequence df value_column lambda_value l_value ch :
  ewma_chart.plot_ewma_chart sqrt df value_column lambda_value l_value = Ok ch →
  ∃ x, columns df !! value_column = Some x
     ∧ ewma_chart.exact_ewma lambda_value x = Ok (ewma_chart.ewma ch).
Proof.
  unfold ewma_chart.plot_ewma_chart.
  destruct (getitem df value_column) as [x|] eqn:Ex; [|done].
  cbn [mbind result_bind mret result_ret].
  destruct (ewma_chart.exact_ewma lambda_value x) as [e|] eqn:Ee; [|done].
  cbn [mbind result_bind mret result_ret].
  destruct (mapM _ _) as [sd|]; [|done].
  cbn [mbind result_bind mret result_ret]. intros [= <-].
  exists x. apply getitem_Ok in Ex. by split.
Qed.

(** With a smoothing constant in (0, 1] the limits can be computed, so on a
    non-empty column the call returns. *)
Lemma plot_ewma_chart_returns df value_column lambda_value l_value x :
  columns df !! value_column = Some x → x ≠ [] →
  (0 < lambda_value)%Q → (lambda_value <= 1)%Q →
  ∃ ch, ewma_chart.plot_ewma_chart sqrt df value_column lambda_value l_value = Ok ch.
Proof.
  intros Hx Hne Hl0 Hl1. apply getitem_Ok in Hx.
  unfold ewma_chart.plot_ewma_chart. rewrite Hx.
  cbn [mbind result_bind mret result_ret].
  destruct (ewma_values_recurrence (fin 0) (fin 1) nadd nsub nmul nmean_of
              (fin lambda_value) x) as (e & He & _).
  { destruct x; [done|simpl; lia]. }
  unfold ewma_chart.exact_ewma. rewrite He.
  cbn [mbind result_bind mret result_ret].
  match goal with |- context [mapM ?f ?l] =>
    destruct (mapM_Ok f l) as (sd & -> & _) end.
  - apply Forall_forall. intros i _.
    unfold ewma_chart.truediv, ewma_chart.math_sqrt.
    destruct (Qeq_bool (2 - lambda_value) 0) eqn:E2.
    { apply Qeq_bool_iff in E2. lra. }
    cbn [mbind result_bind mret result_ret].
    assert (Hq : (0 <= lambda_value / (2 - lambda_value))%Q).
    { apply Qle_shift_div_l; lra. }
    apply Qle_bool_iff in Hq as ->.
    cbn [mbind result_bind mret result_ret].
    destruct (Qpower_unit_interval (1 - lambda_value) (2 * (Z.of_nat i + 1)))
      as [_ Hp]; [lra..|lia|].
    assert (Hb : (0 <= 1 - (1 - lambda_value) ^ (2 * (Z.of_nat i + 1)))%Q) by lra.
    apply Qle_bool_iff in Hb as ->.
    cbn [mbind result_bind mret result_ret]. by eexists.
  - cbn [mbind result_bind mret result_ret]. by eexists.
Qed.

(** On a constant series every entry is the constant, in exact arithmetic. *)
Lemma exact_ewma_constant lambda_value (x : list cell) (c : Q) e :
  x ≠ [] → Forall (λ v, v = Some c) x →
  ewma_chart.exact_ewma lambda_value x = Ok e →
  ∀ i, (i < length x)%nat → ∃ v, e !! i = Some (Some v) ∧ (v == c)%Q.
Proof.
  intros Hne Hx He.
  destruct (ewma_values_recurrence (fin 0) (fin 1) nadd nsub nmul nmean_of
              (fin lambda_value) x) as (e' & He' & Hlen & H0 & Hrec).
  { destruct x; [done|simpl; lia]. }
  unfold ewma_chart.exact_ewma in He. rewrite He' in He. injection He as ->.
  destruct (nmean_of_constant x c Hne Hx) as (v0 & Hv0 & Hv0c).
  unfold num, cell in *.
  induction i as [|i IH]; intros Hi.
  - exists v0. by rewrite H0, Hv0.
  - destruct IH as (v & Hv & Hvc); [lia|].
    assert (Hxi : x !! S i = Some (Some c)).
    { destruct (lookup_lt_is_Some_2 x (S i) Hi) as [xi Hxi]. rewrite Hxi.
      rewrite Forall_forall in Hx. f_equal. apply Hx.
      by eapply list_elem_of_lookup_2. }
    rewrite (Hrec (S i) (Some c) (Some v)); [|lia|done|].
    + eexists. split; [reflexivity|]. rewrite Hvc. ring.
    + by replace (S i - 1)%nat with i by lia.
Qed.

End ewma_exact.

(** The claim as the spec words it, on the arithmetic the code runs on: the
    constant series [0.1, 0.1] with the default smoothing constant 0.2.
    The mean is 0.1 exactly, and the next entry, 0.2 * 0.1 + (1 - 0.2) * 0.1,
    rounds to the next float above 0.1. *)
Lemma ewma_constant_series_binary64 :
  ∃ e0 e1,
    ewma_binary64.ewma_values ewma_binary64.lit_0_2
      [ewma_binary64.lit_0_1; ewma_binary64.lit_0_1] = Ok [e0; e1]
    ∧ PrimFloat.eqb e0 ewma_binary64.lit_0_1 = true
    ∧ PrimFloat.eqb e1 ewma_binary64.lit_0_1 = false
    ∧ PrimFloat.ltb ewma_binary64.lit_0_1 e1 = true
    ∧ PrimFloat.eqb e1 (PrimFloat.next_up ewma_binary64.lit_0_1) = true.
Proof.
  eexists _, _. split; [by vm_compute|]. by vm_compute.
Qed.

(** C3, amended. The EWMA loop of [plot_ewma_chart], on any arithmetic
    (binary64 included), returns on a non-empty series an array of the same
    length with ewma[0] = mean(x) and
    ewma[i] = lambda_value * x[i] + (1 - lambda_value) * ewma[i - 1] for
    i ≥ 1; on a constant series every entry is the constant x[0] whenever
    that arithmetic gives mean(x) = x[0] and
    lambda_value * x[0] + (1 - lambda_value) * x[0] = x[0].  In exact
    arithmetic both hold for every smoothing constant: there, for a
    smoothing constant in (0, 1] and a non-empty column, the chart function
    returns, what it plots is that loop's result, and on a constant series
    of numbers every entry equals the constant.  In binary64 they can
    fail, as on the series 0.1, 0.1 above. *)
Theorem ewma_recurrence_and_constant_series (sqrt : Q → Q) :
  (∀ (F : Type) (zero one : F) (add sub mul : F → F → F) (mean : list F → F)
     (lambda_value : F) (x : list F),
     (0 < length x)%nat →
     ∃ e, ewma_chart.ewma_values zero one add sub mul mean lambda_value x = Ok e
       ∧ length e = length x
       ∧ e !! 0%nat = Some (mean x)
       ∧ (∀ i xi prev, (1 ≤ i)%nat → x !! i = Some xi → e !! (i - 1)%nat = Some prev →
            e !! i = Some (add (mul lambda_value xi) (mul (sub one lambda_value) prev)))
       ∧ (∀ c, Forall (λ v, v = c) x → mean x = c →
            add (mul lambda_value c) (mul (sub one lambda_value) c) = c →
            Forall (λ v, v = c) e))
  ∧ (∀ df value_column lambda_value l_value (x : list cell),
     columns df !! value_column = Some x → x ≠ [] →
     (0 < lambda_value)%Q → (lambda_value <= 1)%Q →
     ∃ ch, ewma_chart.plot_ewma_chart sqrt df value_column lambda_value l_value = Ok ch)
  ∧ (∀ df value_column lambda_value l_value (x : list cell) ch,
     columns df !! value_column = Some x →
     ewma_chart.plot_ewma_chart sqrt df value_column lambda_value l_value = Ok ch →
     length (ewma_chart.ewma ch) = length x
     ∧ ewma_chart.ewma ch !! 0%nat = Some (nmean_of x)
     ∧ (∀ i xi prev, (1 ≤ i)%nat → x !! i = Some xi →
          ewma_chart.ewma ch !! (i - 1)%nat = Some prev →
          ewma_chart.ewma ch !! i
          = Some (fin lambda_value * xi + (fin 1 - fin lambda_value) * prev)%num)
     ∧ (∀ c, Forall (λ v, v = Some c) x →
          ∀ i, (i < length x)%nat →
            ∃ v, ewma_chart.ewma ch !! i = Some (Some v) ∧ (v == c)%Q)).
Proof.
  split_and!.
  - intros F zero one add sub mul mean lambda_value x Hx.
    destruct (ewma_values_recurrence zero one add sub mul mean lambda_value x Hx)
      as (e & He & Hlen & H0 & Hrec).
    exists e. split_and!; [done..|].
    intros c Hc Hmean Hsmooth.
    by eapply ewma_values_constant.
  - intros. by eapply plot_ewma_chart_returns.
  - intros df value_column lambda_value l_value x ch Hx Hch.
    apply plot_ewma_chart_sequence in Hch as (x' & Hx' & He).
    assert (x' = x) as -> by congruence.
    assert (Hne : x ≠ []).
    { intros ->. unfold ewma_chart.exact_ewma in He.
      by rewrite ewma_values_empty in He. }
    destruct (ewma_values_recurrence (fin 0) (fin 1) nadd nsub nmul nmean_of
                (fin lambda_value) x) as (e & He' & Hlen & H0 & Hrec).
    { destruct x; [done|simpl; lia]. }
    unfold ewma_chart.exact_ewma in He. rewrite He' in He. injection He as <-.
    split_and!; [done..|].
    intros c Hc. eapply exact_ewma_constant; [done..|]. exact He'.
Qed.

(** In exact arithmetic on the constant column 5, 5, 5; and in binary64 on
    the constant series 0.5, 0.5, 0.5 with the smoothing constant 0.5,
    where the mean and the smoothing of the constant are exact. *)
Lemma ewma_recurrence_and_constant_series_witness :
  (∃ ch, ewma_chart.plot_ewma_chart sqrt_4dp frame_constant "x" 0.2%Q 3 = Ok ch
     ∧ ∃ v, ewma_chart.ewma ch !! 2%nat = Some (Some v) ∧ (v == 5)%Q)
  ∧ ∃ e, ewma_binary64.ewma_values 0.5%float [0.5; 0.5; 0.5]%float = Ok e
      ∧ Forall (λ v, v = 0.5%float) e.
Proof.
  destruct (ewma_recurrence_and_constant_series sqrt_4dp) as (Hloop & Hret & Hseq).
  split.
  - assert (Hx : columns frame_constant !! "x" = Some [Some 5%Q; Some 5%Q; Some 5%Q])
      by by vm_compute.
    destruct (Hret frame_constant "x" 0.2%Q 3 _ Hx) as [ch Hch];
      [done | by vm_compute | by vm_compute |].
    exists ch. split; [exact Hch|].
    destruct (Hseq frame_constant "x" 0.2%Q 3 _ ch Hx Hch) as (_ & _ & _ & Hconst).
    apply (Hconst 5%Q); [by repeat constructor | simpl; lia].
  - destruct (Hloop float 0%float 1%float PrimFloat.add PrimFloat.sub PrimFloat.mul
                ewma_binary64.mean 0.5%float [0.5; 0.5; 0.5]%float)
      as (e & He & _ & _ & _ & Hconst); [simpl; lia|].
    exists e. split; [exact He|].
    apply Hconst; [by repeat constructor| by vm_compute..].
Defined.

(** ** Empirical distribution functions (C4) *)

Lemma Qpos_neq0 (d : Q) : (0 < d)%Q → ¬ (d == 0)%Q.
Proof. intros Hd H. rewrite H in Hd. by apply Qlt_irrefl in Hd. Qed.

Lemma arange_over_lookup (n i : nat) :
  (i < n)%nat →
  arange_over n !! i = Some (inject_Z (Z.of_nat (S i)) / inject_Z (Z.of_nat n))%Q.
Proof.
  intros Hi. unfold arange_over.
  by rewrite list_lookup_fmap, lookup_seq_lt.
Qed.

Lemma arange_over_is_ecdf (n : nat) : is_ecdf_of n (arange_over n).
Proof.
  assert (Hlen : length (arange_over n) = n).
  { unfold arange_over. by rewrite length_fmap, length_seq. }
  assert (Hn : ∀ i, (i < n)%nat → (0 < inject_Z (Z.of_nat n))%Q).
  { intros i Hi. unfold Qlt; simpl. lia. }
  split_and!.
  - done.
  - intros i Hi. eexists. split; [by apply arange_over_lookup|].
    by rewrite Nat2Z.inj_succ, <- Z.add_1_r.
  - intros i a b Ha Hb.
    assert (Hi : (S i < n)%nat) by (apply lookup_lt_Some in Hb; lia).
    rewrite arange_over_lookup in Ha, Hb by lia. simplify_eq.
    specialize (Hn _ Hi).
    rewrite !Nat2Z.inj_succ, <- !Z.add_1_r, !inject_Z_plus.
    change (inject_Z 1) with 1%Q.
    set (q := inject_Z (Z.of_nat i)) in *. set (d := inject_Z (Z.of_nat n)) in *.
    assert (Hstep : ((q + 1 + 1) / d - (q + 1) / d == 1 / d)%Q) by (field; by apply Qpos_neq0).
    split; [|done].
    assert (Hpos : (0 < 1 / d)%Q) by (apply Qlt_shift_div_l; lra).
    revert Hstep Hpos.
    generalize ((q + 1 + 1) / d)%Q ((q + 1) / d)%Q (1 / d)%Q. intros u v w ??. lra.
  - intros a Ha.
    assert (Hi : (0 < n)%nat) by (apply lookup_lt_Some in Ha; lia).
    rewrite arange_over_lookup in Ha by lia. simplify_eq.
    specialize (Hn _ Hi). split; [|done].
    apply Qlt_shift_div_l; [done|]. by rewrite Qmult_0_l.
  - intros b Hb. rewrite last_lookup, Hlen in Hb.
    assert (Hi : (0 < n)%nat) by (apply lookup_lt_Some in Hb; lia).
    rewrite arange_over_lookup in Hb by lia. simplify_eq.
    specialize (Hn _ Hi).
    replace (S (Init.Nat.pred n)) with n by lia. field. by apply Qpos_neq0.
Qed.

Lemma insert_sorted_length (x : Q) (l : list Q) :
  length (insert_sorted x l) = S (length l).
Proof.
  induction l as [|y l IH]; simpl; [done|].
  destruct (Qle_bool x y); simpl; by rewrite ?IH.
Qed.

Lemma sort_length (l : list Q) : length (sort l) = length l.
Proof.
  induction l as [|x l IH]; simpl; [done|].
  by rewrite insert_sorted_length, IH.
Qed.

Lemma omap_filter_length (l : list num) :
  (length (omap id l) + length (filter (λ v, v = None) l))%nat = length l.
Proof.
  unfold num in *. induction l as [|[q|] l IH]; [done|..].
  - rewrite filter_cons_False by done.
    change (omap id (Some q :: l)) with (q :: omap id l). simpl length. lia.
  - rewrite filter_cons_True by done.
    change (omap id (None :: l)) with (omap id l). simpl length. lia.
Qed.

Lemma sort_nan_last_length (l : list num) : length (sort_nan_last l) = length l.
Proof.
  unfold sort_nan_last. rewrite length_app, length_fmap, sort_length.
  apply omap_filter_length.
Qed.

(** The residual chart does what the claim says: over the n rows of the
    target column the plotted sequence is 1/n, 2/n, ..., 1. *)
Lemma cumulative_error_distribution_is_ecdf model feature_names data target_name ch y_true :
  columns data !! target_name = Some y_true →
  cummulative_residuals.plot_cumulative_error_distribution model feature_names data
    target_name = Ok ch →
  length (cummulative_residuals.sorted_residuals ch) = length y_true
  ∧ is_ecdf_of (length y_true) (cummulative_residuals.ecdf ch).
Proof.
  intros Hy%getitem_Ok.
  unfold cummulative_residuals.plot_cumulative_error_distribution.
  destruct (mapM _ _) as [X|]; [|done].
  cbn [mbind result_bind mret result_ret]. rewrite Hy.
  cbn [mbind result_bind mret result_ret].
  destruct (negb _) eqn:Elen; [done|].
  apply negb_false_iff, Nat.eqb_eq in Elen. intros [= <-]; simpl.
  assert (Hlen : length (sort_nan_last
      (zip_with (λ t p, option_map Qabs (t - p)%num) y_true (model X))) = length y_true).
  { rewrite sort_nan_last_length, length_zip_with. unfold num, cell in *. lia. }
  split; [done|]. rewrite Hlen. apply arange_over_is_ecdf.
Qed.

(** [plot_ecdf] takes n from the whole frame: what it plots has one value
    per cell of the frame, whatever the column holds. *)
Lemma plot_ecdf_counts_cells data numeric_col ch :
  ecdf.plot_ecdf data numeric_col = Ok ch →
  ecdf.trace_x ch = data
  ∧ is_ecdf_of (length (index data) * size (columns data)) (ecdf.y ch).
Proof.
  unfold ecdf.plot_ecdf. next_getitem; [|done].
  intros [= <-]; simpl. split; [done|]. apply arange_over_is_ecdf.
Qed.

(** C4 on that frame: the column has the 2 observations 1 and 3, and the
    plotted sequence is 1/4, 2/4, 3/4, 1 (four values, starting at 1/4): not
    the ECDF of two observations, which is 1/2, 1. *)
Theorem plot_ecdf_two_columns :
  ∃ ch, ecdf.plot_ecdf frame_two_columns "x" = Ok ch
    ∧ ecdf.sorted ch = [1; 3]%Q
    ∧ ecdf.trace_x ch = frame_two_columns
    ∧ Forall2 Qeq (ecdf.y ch) [1 # 4; 2 # 4; 3 # 4; 1]%Q
    ∧ Forall2 Qeq (arange_over 2) [1 # 2; 1]%Q.
Proof.
  eexists. split; [by vm_compute|]. simpl.
  split_and!; [done..| |]; repeat constructor.
Qed.

(** ** Attributions sum to the prediction (C6) *)

Lemma py_index_Ok {A} (l : list A) (i : Z) (a : A) :
  py_index l i = Ok a ↔ ∃ j, position (length l) i = Some j ∧ l !! j = Some a.
Proof.
  unfold py_index, position.
  set (j := if i <? 0 then Z.of_nat (length l) + i else i).
  destruct (j <? 0) eqn:Ej.
  - replace (0 <=? j) with false by lia. split; [done|]. by intros (? & ? & ?).
  - replace (0 <=? j) with true by lia. simpl.
    destruct (l !! Z.to_nat j) as [a'|] eqn:El.
    + apply lookup_lt_Some in El as Hlt.
      replace (j <? Z.of_nat (length l)) with true by lia.
      split; [intros [= <-]; by eexists|]. intros (? & [= <-] & ?). congruence.
    + apply lookup_ge_None in El as Hge.
      replace (j <? Z.of_nat (length l)) with false by lia.
      split; [done|]. by intros (? & ? & ?).
Qed.

Lemma mapM_result_Forall2 {A B} (f : A → result B) (l : list A) (bs : list B) :
  mapM f l = Ok bs → Forall2 (λ a b, f a = Ok b) l bs.
Proof.
  revert bs. induction l as [|a l IH]; intros bs; simpl.
  - intros [= <-]. constructor.
  - destruct (f a) as [b|] eqn:Eb; [|done]. cbn.
    destruct (mapM f l) as [bs'|]; [|done]. cbn. intros [= <-].
    constructor; [done|]. by apply IH.
Qed.

Lemma Qsum_Permutation (l k : list Q) : l ≡ₚ k → (Qsum l == Qsum k)%Q.
Proof.
  induction 1 as [|x l k _ IH|x y l|l k m _ IH1 _ IH2]; simpl.
  - reflexivity.
  - by rewrite IH.
  - ring.
  - by rewrite IH1.
Qed.

Lemma insert_by_Permutation (key : nat → Q) (i : nat) (l : list nat) :
  insert_by key i l ≡ₚ i :: l.
Proof.
  induction l as [|j l IH]; simpl; [done|].
  destruct (Qle_bool (key i) (key j)); [done|].
  rewrite IH. apply perm_swap.
Qed.

Lemma argsort_Permutation (a : list Q) : argsort a ≡ₚ seq 0 (length a).
Proof.
  unfold argsort. induction (seq 0 (length a)) as [|i l IH]; simpl; [done|].
  by rewrite insert_by_Permutation, IH.
Qed.

Lemma take_at_seq {A} (pre a : list A) :
  take_at (pre ++ a) (seq (length pre) (length a)) = a.
Proof.
  unfold take_at. revert pre. induction a as [|x a IH]; intros pre; simpl; [done|].
  rewrite lookup_app_r, Nat.sub_diag by lia. simpl. f_equal.
  specialize (IH (pre ++ [x])). rewrite length_app, Nat.add_1_r in IH. simpl in IH.
  by rewrite <- (assoc_L (++)) in IH.
Qed.

Lemma take_at_Permutation {A} (a : list A) (idx : list nat) :
  idx ≡ₚ seq 0 (length a) → take_at a idx ≡ₚ a.
Proof.
  intros Hidx. pose proof (take_at_seq [] a) as Hseq. simpl in Hseq.
  rewrite <- Hseq at 2. unfold take_at. by rewrite Hidx.
Qed.

Lemma insert_by_ascending (key : nat → Q) (i : nat) (l : list nat) :
  ascending_by key l → ascending_by key (insert_by key i l).
Proof.
  induction l as [|j l IH]; intros Hl; simpl.
  - intros [|n] ???; done.
  - destruct (Qle_bool (key i) (key j)) eqn:E.
    + apply Qle_bool_iff in E. intros [|n] a b Ha Hb; simplify_eq/=.
      * done.
      * by apply (Hl n).
    + assert (E' : (key j <= key i)%Q).
      { apply Qlt_le_weak, Qltb_lt. unfold Qltb. by rewrite E. }
      assert (Hl' : ascending_by key l) by (intros n a b Ha Hb; by apply (Hl (S n))).
      specialize (IH Hl').
      intros [|n] a b Ha Hb; simplify_eq/=; [|by apply (IH n)].
      destruct l as [|j' l]; simpl in *.
      * by simplify_eq.
      * destruct (Qle_bool (key i) (key j')); simplify_eq/=; [done|].
        by apply (Hl 0%nat).
Qed.

Lemma argsort_ascending (a : list Q) :
  ascending_by (λ i, default 0%Q (a !! i)) (argsort a).
Proof.
  unfold argsort. induction (seq 0 (length a)) as [|i l IH]; simpl.
  - intros n ???; done.
  - by apply insert_by_ascending.
Qed.

Lemma take_at_lookup {A} (a : list A) (idx : list nat) (n : nat) :
  Forall (λ i, (i < length a)%nat) idx →
  take_at a idx !! n = idx !! n ≫= (a !!.).
Proof.
  intros Hidx. revert n. unfold take_at.
  induction Hidx as [|i idx Hi _ IH]; intros n; [done|].
  destruct (lookup_lt_is_Some_2 a i Hi) as [x Hx].
  simpl. rewrite Hx. simpl. destruct n as [|n]; simpl; [done|apply IH].
Qed.

(** The bars of the waterfall: the row's attributions, rearranged, largest
    absolute value first. *)
Lemma waterfall_order (row : list Q) :
  let sorted_idx := reverse (argsort (Qabs <$> row)) in
  take_at row sorted_idx ≡ₚ row ∧ descending_abs (take_at row sorted_idx).
Proof.
  intros sorted_idx.
  assert (Hperm : sorted_idx ≡ₚ seq 0 (length row)).
  { unfold sorted_idx. rewrite reverse_Permutation, argsort_Permutation.
    by rewrite length_fmap. }
  assert (Hvalid : Forall (λ i, (i < length row)%nat) sorted_idx).
  { rewrite Hperm. apply Forall_forall. intros i Hi%elem_of_seq. lia. }
  split; [by apply take_at_Permutation|].
  intros n a b Ha Hb.
  rewrite take_at_lookup in Ha, Hb by done.
  destruct (sorted_idx !! n) as [i|] eqn:Ei; [|done].
  destruct (sorted_idx !! S n) as [j|] eqn:Ej; [|done].
  simpl in Ha, Hb.
  pose proof (argsort_ascending (Qabs <$> row)) as Hasc.
  set (l := argsort (Qabs <$> row)) in *.
  assert (Hn : (S n < length l)%nat).
  { apply lookup_lt_Some in Ej. unfold sorted_idx in Ej.
    by rewrite length_reverse in Ej. }
  unfold sorted_idx in Ei, Ej.
  rewrite reverse_lookup in Ei, Ej by lia.
  replace (length l - S n)%nat with (S (length l - S (S n))) in Ei by lia.
  specialize (Hasc _ _ _ Ej Ei). simpl in Hasc.
  by rewrite !list_lookup_fmap, Ha, Hb in Hasc.
Qed.

Lemma waterfall_sums_to_prediction shap_values predictions data row_index feature_names
    ch p :
  explains shap_values predictions →
  waterfall_plot.plot_shap_waterfall_catboost shap_values data row_index feature_names
    = Ok ch →
  py_index predictions row_index = Ok p →
  ∃ row, py_index (values shap_values) row_index = Ok row
    ∧ py_index (base_values shap_values) row_index = Ok (waterfall_plot.base_value ch)
    ∧ waterfall_plot.sorted_shap ch ≡ₚ row
    ∧ descending_abs (waterfall_plot.sorted_shap ch)
    ∧ waterfall_plot.predicted_value ch = (waterfall_plot.base_value ch + Qsum row)%Q
    ∧ (waterfall_plot.base_value ch + Qsum (waterfall_plot.sorted_shap ch) == p)%Q
    ∧ (waterfall_plot.predicted_value ch == p)%Q.
Proof.
  intros (Hlv & Hlb & Hsum) Hch Hp.
  unfold waterfall_plot.plot_shap_waterfall_catboost in Hch.
  destruct (py_index (values shap_values) row_index) as [row|] eqn:Erow; [|done].
  destruct (py_index (base_values shap_values) row_index) as [b|] eqn:Eb; [|done].
  cbn [mbind result_bind mret result_ret] in Hch.
  destruct (py_index (index data) row_index); [|done].
  cbn [mbind result_bind mret result_ret] in Hch.
  destruct (mapM _ _) as [names|]; [|done].
  cbn [mbind result_bind mret result_ret] in Hch. injection Hch as <-.
  cbn [waterfall_plot.base_value waterfall_plot.predicted_value
       waterfall_plot.sorted_shap].
  destruct (waterfall_order row) as [Hperm Hdesc].
  apply py_index_Ok in Erow as Hrow. destruct Hrow as (j & Hj & Hrow).
  apply py_index_Ok in Eb as Hb. destruct Hb as (j' & Hj' & Hb).
  apply py_index_Ok in Hp as (j'' & Hj'' & Hp).
  rewrite Hlv in Hj. rewrite Hlb in Hj'.
  assert (j' = j) as -> by congruence. assert (j'' = j) as -> by congruence.
  specialize (Hsum j row b p Hrow Hb Hp).
  exists row. split_and!; try done.
  by rewrite (Qsum_Permutation _ _ Hperm).
Qed.

Lemma cumsum_from_last (acc : Q) (l : list Q) (v : Q) :
  last (cumsum_from acc l) = Some v → (v == acc + Qsum l)%Q.
Proof.
  revert acc. induction l as [|x l IH]; intros acc; simpl; [done|].
  destruct l as [|y l].
  - simpl. intros [= <-]. ring.
  - intros Hlast. rewrite (IH (acc + x)%Q) by exact Hlast. simpl. ring.
Qed.

Lemma cumsum_from_lookup (acc : Q) (l : list Q) (i : nat) (x : Q) :
  l !! i = Some x →
  ∃ v, cumsum_from acc l !! i = Some v
     ∧ (v == match i with
             | O => acc
             | S i' => default 0%Q (cumsum_from acc l !! i')
             end + x)%Q.
Proof.
  revert acc i. induction l as [|y l IH]; intros acc [|i] Hx; simplify_eq/=.
  - eexists. split; [done|]. reflexivity.
  - destruct (IH (acc + y)%Q i Hx) as (v & Hv & Heq).
    exists v. split; [done|]. rewrite Heq. destruct i; simpl; reflexivity.
Qed.

(** The trace of one row of the decision plot: it starts at the baseline
    of row 0, adds the attributions in feature order, and ends at that
    baseline plus their sum. *)
Lemma decision_trace (base_value : Q) (row : list Q) :
  let cumulative := (λ c, c + base_value)%Q <$> cumsum (0%Q :: row) in
  length cumulative = S (length row)
  ∧ (∃ v, cumulative !! 0%nat = Some v ∧ (v == base_value)%Q)
  ∧ (∀ i x a, row !! i = Some x → cumulative !! i = Some a →
       ∃ b, cumulative !! S i = Some b ∧ (b == a + x)%Q)
  ∧ (∃ v, last cumulative = Some v ∧ (v == base_value + Qsum row)%Q).
Proof.
  intros cumulative.
  assert (Hlen : ∀ acc l, length (cumsum_from acc l) = length l).
  { intros acc l. revert acc. induction l; intros; simpl; by rewrite ?IHl. }
  split_and!.
  - unfold cumulative, cumsum. by rewrite length_fmap, Hlen.
  - eexists. split; [reflexivity|]. ring.
  - intros i x a Hx Ha. unfold cumulative, cumsum in *.
    destruct (cumsum_from_lookup 0 (0%Q :: row) (S i) x Hx) as (v & Hv & Heq).
    rewrite list_lookup_fmap, Hv. eexists. split; [done|]. simpl.
    rewrite list_lookup_fmap in Ha.
    destruct (cumsum_from 0 (0%Q :: row) !! i) as [w|]; simplify_eq/=.
    rewrite Heq. ring.
  - unfold cumulative, cumsum. rewrite fmap_last.
    destruct (last (cumsum_from 0 (0%Q :: row))) as [w|] eqn:Ew.
    + eexists. split; [done|]. apply cumsum_from_last in Ew. rewrite Ew. simpl. ring.
    + apply last_None in Ew. done.
Qed.

(** What a returned decision plot holds: the loop ran at least once, the
    baseline is that of row 0, and every trace is the running sum of its
    row from that baseline. *)
Lemma decision_returned shap_values data indices feature_names ch :
  decision_plot.plot_shap_decision_catboost shap_values data indices feature_names
    = Ok ch →
  indices ≠ []
  ∧ py_index (base_values shap_values) 0 = Ok (decision_plot.base_value ch)
  ∧ Forall2 (λ idx trace,
      trace.1 = idx
      ∧ ∃ row, py_index (values shap_values) idx = Ok row
          ∧ mapM (λ i : nat, py_index row (Z.of_nat i)) (seq 0 (length feature_names))
            ≠ Raise IndexError
          ∧ trace.2 = (λ c, c + decision_plot.base_value ch)%Q <$> cumsum (0%Q :: row))
      indices (decision_plot.traces ch).
Proof.
  intros Hch.
  unfold decision_plot.plot_shap_decision_catboost in Hch.
  destruct (py_index (base_values shap_values) 0) as [b0|] eqn:Eb0; [|done].
  cbn [mbind result_bind mret result_ret] in Hch.
  destruct (mapM _ indices) as [traces|] eqn:Etraces; [|done].
  cbn [mbind result_bind mret result_ret] in Hch.
  destruct indices as [|idx0 indices]; [done|].
  cbn [mbind result_bind mret result_ret] in Hch. injection Hch as <-.
  cbn [decision_plot.base_value decision_plot.traces]. split_and!; [done..|].
  apply mapM_result_Forall2 in Etraces.
  eapply Forall2_impl; [exact Etraces|]. clear Etraces.
  intros idx trace Htrace; simpl in Htrace.
  destruct (py_index (values shap_values) idx) as [row|] eqn:Erow; [|done].
  cbn [mbind result_bind mret result_ret] in Htrace.
  destruct (mapM _ (seq 0 (length feature_names))) as [texts|] eqn:Etexts; [|done].
  cbn [mbind result_bind mret result_ret] in Htrace. injection Htrace as <-.
  simpl. split; [done|]. exists row. by rewrite Etexts.
Qed.

(** The claim as the spec words it fails for an explanation whose rows have
    different baselines.  Row 1 has the baseline 12 and the attributions 2
    and 0.25, so the prediction 14.25; its trace in the decision plot
    starts at 10, the baseline of row 0, and ends at 12.25. *)
Lemma decision_trace_misses_the_prediction :
  explains explanation_two_baselines [8; 14.25]%Q
  ∧ ∃ ch trace v,
      decision_plot.plot_shap_decision_catboost explanation_two_baselines
        frame_two_columns [1] ["x"; "id"] = Ok ch
      ∧ decision_plot.base_value ch = 10%Q
      ∧ decision_plot.traces ch = [trace]
      ∧ last trace.2 = Some v
      ∧ (v == 12.25)%Q ∧ ¬ (v == 14.25)%Q.
Proof.
  split.
  - split_and!; [done..|].
    intros [|[|i]] row b p; simpl; intros; simplify_eq; by vm_compute.
  - eexists _, _, _. split; [by vm_compute|].
    split_and!; [reflexivity..|by vm_compute|]. by vm_compute.
Qed.

(** C6, amended. Let the explanation obey the explainer's contract for the
    model's predictions.  The waterfall of a row adds to that row's
    baseline the row's attributions, rearranged by decreasing absolute
    value, and both that sum and the annotated Prediction (base_value plus
    the sum of the row's SHAP values) equal the prediction of the row.
    The decision plot starts every trace at base_values[0], the baseline
    of row 0, and adds the attributions of the plotted row in feature
    order, so that the trace ends at that baseline plus their sum: at the
    prediction of the row shifted by the difference between the baseline
    of row 0 and the baseline of the row, which is the prediction exactly
    when the two baselines are equal.  Sums are exact here: the tolerance
    of the claim is that of binary64. *)
Theorem attributions_sum_to_prediction shap_values predictions :
  explains shap_values predictions →
  (∀ data row_index feature_names ch p,
     waterfall_plot.plot_shap_waterfall_catboost shap_values data row_index
       feature_names = Ok ch →
     py_index predictions row_index = Ok p →
     ∃ row, py_index (values shap_values) row_index = Ok row
       ∧ py_index (base_values shap_values) row_index
         = Ok (waterfall_plot.base_value ch)
       ∧ waterfall_plot.sorted_shap ch ≡ₚ row
       ∧ descending_abs (waterfall_plot.sorted_shap ch)
       ∧ waterfall_plot.predicted_value ch
         = (waterfall_plot.base_value ch + Qsum row)%Q
       ∧ (waterfall_plot.base_value ch + Qsum (waterfall_plot.sorted_shap ch) == p)%Q
       ∧ (waterfall_plot.predicted_value ch == p)%Q)
  ∧ (∀ data indices feature_names ch,
       decision_plot.plot_shap_decision_catboost shap_values data indices
         feature_names = Ok ch →
       py_index (base_values shap_values) 0 = Ok (decision_plot.base_value ch)
       ∧ Forall2 (λ idx trace,
           trace.1 = idx
           ∧ ∃ row, py_index (values shap_values) idx = Ok row
               ∧ (∃ v, trace.2 !! 0%nat = Some v
                    ∧ (v == decision_plot.base_value ch)%Q)
               ∧ (∀ i x a, row !! i = Some x → trace.2 !! i = Some a →
                    ∃ b, trace.2 !! S i = Some b ∧ (b == a + x)%Q)
               ∧ ∃ v, last trace.2 = Some v
                   ∧ (v == decision_plot.base_value ch + Qsum row)%Q
                   ∧ ∀ p b, py_index predictions idx = Ok p →
                       py_index (base_values shap_values) idx = Ok b →
                       (v == p + (decision_plot.base_value ch - b))%Q
                       ∧ ((v == p)%Q ↔ (b == decision_plot.base_value ch)%Q))
           indices (decision_plot.traces ch)).
Proof.
  intros Hexp. split.
  - intros. by eapply waterfall_sums_to_prediction.
  - intros data indices feature_names ch (_ & Hb0 & Htraces)%decision_returned.
    split; [done|].
    eapply Forall2_impl; [exact Htraces|]. clear Htraces.
    intros idx trace (Hidx & row & Hrow & _ & Htrace).
    split; [done|]. exists row. split; [done|].
    destruct (decision_trace (decision_plot.base_value ch) row)
      as (_ & Hfirst & Hstep & v & Hv & Heq).
    rewrite Htrace. split_and!; [done..|].
    exists v. split_and!; [done..|].
    intros p b Hp Hb.
    destruct Hexp as (Hlv & Hlb & Hsum).
    apply py_index_Ok in Hrow as (j & Hj & Hrow).
    apply py_index_Ok in Hp as (j' & Hj' & Hp).
    apply py_index_Ok in Hb as (j'' & Hj'' & Hb).
    rewrite Hlv in Hj. rewrite Hlb in Hj''.
    assert (j' = j) as -> by congruence. assert (j'' = j) as -> by congruence.
    pose proof (Hsum j row b p Hrow Hb Hp) as Hp_eq.
    split; [rewrite Heq, <- Hp_eq; ring|].
    split; intros H.
    + rewrite Heq, <- Hp_eq in H. lra.
    + rewrite Heq, <- Hp_eq, H. ring.
Qed.

Lemma attributions_sum_to_prediction_witness :
  explains explanation2 predictions2
  ∧ (∃ ch, waterfall_plot.plot_shap_waterfall_catboost explanation2 frame_features 0
             ["a"; "b"; "c"] = Ok ch
       ∧ waterfall_plot.sorted_shap ch = [-3; 1; 0.5]%Q
       ∧ (waterfall_plot.base_value ch + Qsum (waterfall_plot.sorted_shap ch) == 8.5)%Q)
  ∧ (∃ ch trace, decision_plot.plot_shap_decision_catboost explanation2 frame_features
             [1] ["a"; "b"; "c"] = Ok ch
       ∧ decision_plot.traces ch = [trace]
       ∧ ∃ v, last trace.2 = Some v ∧ (v == 11.25)%Q).
Proof.
  assert (Hexp : explains explanation2 predictions2).
  { split_and!; [done..|].
    intros [|[|i]] row b p; simpl; intros; simplify_eq; by vm_compute. }
  destruct (attributions_sum_to_prediction explanation2 predictions2 Hexp) as [Hw Hd].
  split; [exact Hexp|]. split.
  - eexists. split; [by vm_compute|]. split; [by vm_compute|].
    edestruct (Hw frame_features 0 ["a"; "b"; "c"]) as (row & _ & _ & _ & _ & _ & Hsum & _);
      [by vm_compute | by vm_compute |].
    exact Hsum.
  - eexists _, _. split; [by vm_compute|]. split; [by vm_compute|].
    edestruct (Hd frame_features [1] ["a"; "b"; "c"]) as [_ Htraces];
      [by vm_compute|].
    simpl in Htraces.
    apply Forall2_cons in Htraces as [(_ & row & _ & _ & _ & v & Hv & _ & Hlast) _].
    exists v. split; [exact Hv|].
    destruct (Hlast 11.25%Q 10%Q) as [_ Hiff]; [by vm_compute..|].
    apply Hiff. by vm_compute.
Defined.

(** ** Hotelling's T² (C2) *)



Lemma Qsum_ext (f g : nat → Q) (l : list nat) :
  (∀ j, j ∈ l → (f j == g j)%Q) → (Qsum (f <$> l) == Qsum (g <$> l))%Q.
Proof.
  induction l as [|a l IH]; intros Hl; [reflexivity|].
  cbn [fmap list_fmap Qsum fold_right].
  change (fold_right Qplus 0 (list_fmap nat Q f l))%Q with (Qsum (f <$> l)).
  change (fold_right Qplus 0 (list_fmap nat Q g l))%Q with (Qsum (g <$> l)).
  rewrite (Hl a) by apply list_elem_of_here.
  rewrite IH; [reflexivity|]. intros j Hj. apply Hl. by apply list_elem_of_further.
Qed.













Section t2.
Variable inv : t2_chart.matrix → result t2_chart.matrix.
Variable ppf : Q → Z → Z → num.




End t2.


(** ** The examples run *)

Lemma cumulative_error_distribution_is_ecdf_witness :
  ∃ ch, cummulative_residuals.plot_cumulative_error_distribution
          (λ _, [Some 1%Q; Some 5%Q]) ["b"] frame_features "a" = Ok ch
    ∧ is_ecdf_of 2 (cummulative_residuals.ecdf ch).
Proof.
  assert (Hch : ∃ ch, cummulative_residuals.plot_cumulative_error_distribution
                        (λ _, [Some 1%Q; Some 5%Q]) ["b"] frame_features "a" = Ok ch)
    by (eexists; by vm_compute).
  destruct Hch as [ch Hch]. exists ch. split; [exact Hch|].
  assert (Hy : columns frame_features !! "a" = Some [Some 1%Q; Some 2%Q])
    by by vm_compute.
  exact (proj2 (cumulative_error_distribution_is_ecdf _ _ _ _ _ _ Hy Hch)).
Defined.

Lemma plot_ecdf_counts_cells_witness :
  ∃ ch, ecdf.plot_ecdf frame_two_columns "x" = Ok ch
    ∧ is_ecdf_of 4 (ecdf.y ch).
Proof.
  assert (Hch : ∃ ch, ecdf.plot_ecdf frame_two_columns "x" = Ok ch)
    by (eexists; by vm_compute).
  destruct Hch as [ch Hch]. exists ch. split; [exact Hch|].
  exact (proj2 (plot_ecdf_counts_cells _ _ _ Hch)).
Defined.

Lemma subgroup_size_not_positive_witness :
  x_bar_r.xbar_r_chart_plotly frame8 "x" "lot" 0 = Raise ZeroDivisionError
  ∧ ∃ text, x_bar_s.plot_xbar_s_chart sqrt_4dp frame8 "x" "lot" (-3)
            = Raise (ValueError text).
Proof.
  assert (Hcol : columns frame8 !! "x"
    = Some [Some 1%Q; Some 2%Q; None; Some 4%Q; Some 5%Q; Some 6%Q; Some 7%Q; Some 8%Q])
    by by vm_compute.
  split.
  - destruct (subgroup_size_not_positive sqrt_4dp frame8 "x" "lot" _ 0 Hcol) as [Hzero _].
    by destruct Hzero.
  - destruct (subgroup_size_not_positive sqrt_4dp frame8 "x" "lot" _ (-3) Hcol)
      as [_ Hneg].
    destruct Hneg as (text & _ & Hs); [lia|]. by exists text.
Defined.

(** * Further properties of the charts *)

(** ** The limits of the variables charts *)

Lemma Qmaximum_ge (x : Q) (r : list Q) : (x <= Qmaximum x r)%Q.
Proof.
  unfold Qmaximum. revert x. induction r as [|b r IH]; intros x; simpl; [lra|].
  destruct (Qltb x b) eqn:E.
  - apply Qltb_lt in E. specialize (IH b). lra.
  - apply IH.
Qed.

Lemma Qminimum_le (x : Q) (r : list Q) : (Qminimum x r <= x)%Q.
Proof.
  unfold Qminimum. revert x. induction r as [|b r IH]; intros x; simpl; [lra|].
  destruct (Qltb b x) eqn:E.
  - apply Qltb_lt in E. specialize (IH b). lra.
  - apply IH.
Qed.


Lemma mapM_id_Some (qs : list Q) : mapM id (Some <$> qs) = Some qs.
Proof.
  apply mapM_Some, Forall2_fmap_l, Forall_Forall2_diag, Forall_true. done.
Qed.

Lemma nmean_of_fmap_Some (qs : list Q) : nmean_of (Some <$> qs) = nmean qs.
Proof. unfold nmean_of. by rewrite mapM_id_Some. Qed.

Lemma table_key_range (t : list (Z * Q)) (s : Z) (q : Q) :
  t ∈ tables → lookup_constant t s = Ok q → 2 ≤ s ≤ 10.
Proof.
  intros Ht Hq.
  destruct (decide (s < 2 ∨ 10 < s)) as [Hout|Hin]; [|lia].
  pose proof (lookup_constant_unsupported s Hout) as Hall.
  rewrite Forall_forall in Hall. rewrite (Hall t Ht) in Hq. done.
Qed.

Ltac table_cases s H :=
  let R := fresh "R" in
  match type of H with
  | lookup_constant ?t s = Ok ?q =>
      assert (R : 2 ≤ s ≤ 10)
        by (apply (table_key_range t s q); [unfold tables; by repeat constructor | exact H]);
      assert (s = 2 ∨ s = 3 ∨ s = 4 ∨ s = 5 ∨ s = 6 ∨ s = 7 ∨ s = 8 ∨ s = 9 ∨ s = 10)
        as [->|[->|[->|[->|[->|[->|[->|[->| ->]]]]]]]] by lia;
      vm_compute in H; injection H as <-
  end.

Lemma A3_range s q : lookup_constant x_bar_s.A3 s = Ok q → (0 <= q)%Q.
Proof. intros H. table_cases s H; by vm_compute. Qed.
Lemma B3_range s q : lookup_constant x_bar_s.B3 s = Ok q → (0 <= q ∧ q <= 1)%Q.
Proof. intros H. table_cases s H; split; by vm_compute. Qed.
Lemma B4_range s q : lookup_constant x_bar_s.B4 s = Ok q → (1 <= q)%Q.
Proof. intros H. table_cases s H; by vm_compute. Qed.

Lemma Qsum_app (l k : list Q) : (Qsum (l ++ k) == Qsum l + Qsum k)%Q.
Proof. induction l as [|x l IH]; simpl; [lra|]. rewrite IH. lra. Qed.

Lemma Qsum_concat_scaled (gs : list (list Q)) (d : Q) :
  ¬ (d == 0)%Q → (Qsum ((λ g, Qsum g / d)%Q <$> gs) == Qsum (concat gs) / d)%Q.
Proof.
  intros Hd. induction gs as [|g gs IH]; simpl.
  - field. done.
  - rewrite Qsum_app. etrans; [apply Qplus_comp; [reflexivity | apply IH]|]. field. done.
Qed.

Lemma nmean_Some (l : list Q) :
  l ≠ [] → nmean l = Some (Qsum l / inject_Z (Z.of_nat (length l)))%Q.
Proof. by destruct l. Qed.

Lemma concat_length_uniform {A} (gs : list (list A)) (s : nat) :
  Forall (λ g, length g = s) gs → length (concat gs) = (length gs * s)%nat.
Proof.
  induction 1 as [|g gs Hg _ IH]; [done|]. simpl. rewrite length_app, IH, Hg. done.
Qed.

Lemma inject_Z_pos_neq0 (n : nat) : (0 < n)%nat → ¬ (inject_Z (Z.of_nat n) == 0)%Q.
Proof.
  intros Hn. apply Qpos_neq0. change 0%Q with (inject_Z 0). rewrite <- Zlt_Qlt. lia.
Qed.

(** The mean of the means of equally long subgroups is the mean of all
    their values. *)
Lemma mean_of_means (gs : list (list Q)) (s : nat) :
  (0 < s)%nat → gs ≠ [] → Forall (λ g, length g = s) gs →
  ∃ v w, nmean_of (nmean <$> gs) = Some v ∧ nmean (concat gs) = Some w ∧ (v == w)%Q.
Proof.
  intros Hs Hgs Hall.
  assert (Hmeans : nmean <$> gs
                   = Some <$> ((λ g, Qsum g / inject_Z (Z.of_nat s))%Q <$> gs)).
  { rewrite <- list_fmap_compose. apply Forall_fmap_ext_1.
    eapply Forall_impl; [exact Hall|]. intros g Hg; simpl.
    rewrite nmean_Some, Hg; [done|]. intros ->. simpl in Hg. lia. }
  pose proof (concat_length_uniform gs s Hall) as Hlen.
  assert (Hk : (0 < length gs)%nat) by (destruct gs; [done | simpl; lia]).
  rewrite Hmeans, nmean_of_fmap_Some.
  rewrite nmean_Some by (destruct gs; [done | simpl; discriminate]).
  rewrite (nmean_Some (concat gs)) by (intros E; rewrite E in Hlen; simpl in Hlen; nia).
  do 2 eexists. split_and!; [done..|].
  rewrite length_fmap, Hlen, Qsum_concat_scaled by (by apply inject_Z_pos_neq0).
  rewrite Nat2Z.inj_mul, inject_Z_mult.
  pose proof (inject_Z_pos_neq0 _ Hs). pose proof (inject_Z_pos_neq0 _ Hk).
  field. done.
Qed.

Lemma subgroups_nonempty (data : list Q) (s : Z) :
  2 ≤ s → s ≤ Z.of_nat (length data) →
  subgroups_of data s ≠ []
  ∧ Forall (λ g, length g = Z.to_nat s) (subgroups_of data s)
  ∧ concat (subgroups_of data s)
    = take (Z.to_nat (Z.of_nat (length data) `div` s) * Z.to_nat s) data.
Proof.
  intros Hs Hm.
  destruct (subgroups_of_spec data s) as (Hlen & Hall & _); [lia|]. cbv zeta in Hlen.
  assert (1 ≤ Z.of_nat (length data) `div` s)
    by (apply Z.div_le_lower_bound; lia).
  split_and!.
  - intros E. rewrite E in Hlen. simpl in Hlen. lia.
  - eapply Forall_impl; [exact Hall|]. intros g Hg; simpl in Hg. lia.
  - unfold subgroups_of. apply chunks_concat.
Qed.


Lemma xbar_s_returned (sqrt : Q → Q) df value_column grouping_column s ch :
  x_bar_s.plot_xbar_s_chart sqrt df value_column grouping_column s = Ok ch →
  ∃ col a3 b3 b4,
    columns df !! value_column = Some col
    ∧ 2 ≤ s ∧ s ≤ Z.of_nat (length (dropna col))
    ∧ x_bar_s.groups ch = subgroups_of (dropna col) s
    ∧ x_bar_s.xbars ch = nmean <$> x_bar_s.groups ch
    ∧ x_bar_s.s_values ch = std_ddof1 sqrt <$> x_bar_s.groups ch
    ∧ x_bar_s.Xbar_bar ch = nmean_of (x_bar_s.xbars ch)
    ∧ x_bar_s.S_bar ch = nmean_of (x_bar_s.s_values ch)
    ∧ lookup_constant x_bar_s.A3 s = Ok a3
    ∧ lookup_constant x_bar_s.B3 s = Ok b3
    ∧ lookup_constant x_bar_s.B4 s = Ok b4
    ∧ x_bar_s.UCL_x ch = (x_bar_s.Xbar_bar ch + fin a3 * x_bar_s.S_bar ch)%num
    ∧ x_bar_s.LCL_x ch = (x_bar_s.Xbar_bar ch - fin a3 * x_bar_s.S_bar ch)%num
    ∧ x_bar_s.UCL_S ch = (fin b4 * x_bar_s.S_bar ch)%num
    ∧ x_bar_s.LCL_S ch = (fin b3 * x_bar_s.S_bar ch)%num.
Proof.
  unfold x_bar_s.plot_xbar_s_chart.
  destruct (getitem df value_column) as [col|] eqn:Ecol; [|done].
  apply getitem_Ok in Ecol. cbn [mbind result_bind mret result_ret].
  destruct (floordiv _ s) as [k|] eqn:Ek; [|done].
  cbn [mbind result_bind mret result_ret].
  destruct (k =? 0) eqn:Ek0; [done|]. apply Z.eqb_neq in Ek0.
  destruct (reshape _ k s) as [groups|] eqn:Er; [|done].
  cbn [mbind result_bind mret result_ret].
  destruct (getitem df grouping_column) as [?|]; [|done].
  cbn [mbind result_bind mret result_ret].
  destruct (lookup_constant x_bar_s.A3 s) as [a3|] eqn:Ea; [|done].
  destruct (lookup_constant x_bar_s.B3 s) as [b3|] eqn:Eb3; [|done].
  destruct (lookup_constant x_bar_s.B4 s) as [b4|] eqn:Eb4; [|done].
  cbn [mbind result_bind mret result_ret]. intros [= <-]; cbn.
  assert (Hs : 2 ≤ s ≤ 10)
    by (apply (table_key_range x_bar_s.A3 s a3); [unfold tables; by repeat constructor|done]).
  pose proof Ek as Ek'. apply floordiv_Ok in Ek' as [_ Hk].
  assert (Hk1 : 1 ≤ k).
  { assert (0 ≤ k) by (subst k; apply Z.div_pos; lia). lia. }
  destruct (reshape_subgroups (dropna col) s k Ek Hk1) as (_ & _ & Hr).
  rewrite Hr in Er. injection Er as <-.
  exists col, a3, b3, b4. split_and!; try done; [lia|].
  destruct (decide (s ≤ Z.of_nat (length (dropna col)))) as [|Hlt]; [done|].
  rewrite Z.div_small in Hk by lia. lia.
Qed.

Lemma fmap_all_Some {A} (f : A → num) (P : Q → Prop) (l : list A) :
  Forall (λ a, ∃ q, f a = Some q ∧ P q) l →
  ∃ qs, f <$> l = Some <$> qs ∧ Forall P qs ∧ length qs = length l.
Proof.
  induction 1 as [|a l (q & Hq & HP) _ (qs & Hqs & HPs & Hlen)].
  - by exists [].
  - exists (q :: qs). rewrite !fmap_cons, Hq, Hqs. cbn [length]. rewrite Hlen.
    split_and!; [done| by constructor |done].
Qed.

Lemma nmean_of_nonneg (l : list num) :
  l ≠ [] → Forall (λ v, ∃ q, v = Some q ∧ (0 <= q)%Q) l →
  ∃ q, nmean_of l = Some q ∧ (0 <= q)%Q.
Proof.
  intros Hne Hall.
  destruct (fmap_all_Some id (λ q, 0 <= q)%Q l) as (qs & Hqs & Hpos & Hlen).
  { eapply Forall_impl; [exact Hall|]. by intros v (q & -> & ?); exists q. }
  rewrite list_fmap_id in Hqs. subst l. rewrite nmean_of_fmap_Some.
  destruct qs as [|q qs]; [done|].
  eexists. split; [done|]. eapply nmean_nonneg; [exact Hpos|done].
Qed.

Lemma Qsum_squares_nonneg (m : Q) (row : list Q) :
  (0 <= Qsum ((λ x, (x - m) * (x - m))%Q <$> row))%Q.
Proof.
  apply Qsum_nonneg, Forall_fmap, Forall_true. intros x; simpl.
  pose proof (Qsqr_nonneg (x - m)) as H.
  assert (E : ((x - m) ^ 2 == (x - m) * (x - m))%Q) by (simpl; ring).
  by rewrite E in H.
Qed.

(** The sample standard deviation of two values or more is a number, and
    not negative when the square root is not. *)
Lemma std_ddof1_nonneg (sqrt : Q → Q) (row : list Q) :
  (∀ x, 0 <= x → 0 <= sqrt x)%Q → (2 ≤ length row)%nat →
  ∃ q, std_ddof1 sqrt row = Some q ∧ (0 <= q)%Q.
Proof.
  intros Hsqrt Hlen. unfold std_ddof1.
  rewrite nmean_Some by (intros ->; simpl in Hlen; lia).
  set (m := (Qsum row / inject_Z (Z.of_nat (length row)))%Q).
  pose proof (Qsum_squares_nonneg m row) as Hss.
  set (ss := Qsum ((λ x, (x - m) * (x - m))%Q <$> row)) in *.
  assert (Hd : (0 < inject_Z (Z.of_nat (length row) - 1))%Q).
  { change 0%Q with (inject_Z 0). rewrite <- Zlt_Qlt. lia. }
  set (d := inject_Z (Z.of_nat (length row) - 1)) in *.
  unfold ndiv, fin.
  destruct (Qeq_bool d 0) eqn:E.
  { apply Qeq_bool_iff in E. lra. }
  assert (Hq : (0 <= ss / d)%Q).
  { apply Qle_shift_div_l; [done|]. lra. }
  unfold nsqrt. destruct (Qle_bool 0 _) eqn:E'.
  - eexists. split; [done|]. by apply Hsqrt.
  - apply Qle_bool_iff in Hq. congruence.
Qed.

Section xbar_limits.
Variable sqrt : Q → Q.


Lemma xbar_s_limit_values df value_column grouping_column s ch :
  (∀ x, 0 <= x → 0 <= sqrt x)%Q →
  x_bar_s.plot_xbar_s_chart sqrt df value_column grouping_column s = Ok ch →
  Forall (λ r, ∃ q, r = Some q ∧ (0 <= q)%Q) (x_bar_s.s_values ch)
  ∧ ∃ c r ux lx us ls,
      x_bar_s.Xbar_bar ch = Some c ∧ x_bar_s.S_bar ch = Some r
      ∧ x_bar_s.UCL_x ch = Some ux ∧ x_bar_s.LCL_x ch = Some lx
      ∧ x_bar_s.UCL_S ch = Some us ∧ x_bar_s.LCL_S ch = Some ls
      ∧ (lx <= c ∧ c <= ux)%Q
      ∧ (0 <= ls ∧ ls <= r ∧ r <= us)%Q.
Proof.
  intros Hsqrt
    (col & a3 & b3 & b4 & Hcol & Hs & Hm & Hg & Hx & Hr & Hxb & Hrb & Ha & Hb3 & Hb4
          & -> & -> & -> & ->)%xbar_s_returned.
  destruct (subgroups_nonempty (dropna col) s) as (Hne & Hlen & _); [lia..|].
  rewrite <- Hg in Hne, Hlen.
  assert (Hsv : Forall (λ r, ∃ q, r = Some q ∧ (0 <= q)%Q) (x_bar_s.s_values ch)).
  { rewrite Hr. apply Forall_fmap. eapply Forall_impl; [exact Hlen|].
    intros g Hg'; simpl in *. apply std_ddof1_nonneg; [done|lia]. }
  split; [done|].
  destruct (mean_of_means (x_bar_s.groups ch) (Z.to_nat s)) as (c & _ & Hc & _);
    [lia|done..|].
  destruct (nmean_of_nonneg (x_bar_s.s_values ch)) as (r & Hrbar & Hr0); [|done|].
  { rewrite Hr. by destruct (x_bar_s.groups ch). }
  rewrite Hxb, Hx, Hc, Hrb, Hrbar.
  apply A3_range in Ha. apply B3_range in Hb3 as [? ?]. apply B4_range in Hb4.
  pose proof (Qmult_le_0_compat a3 r Ha Hr0).
  pose proof (Qmult_le_0_compat b3 r ltac:(done) Hr0).
  pose proof (Qmult_le_0_compat (1 - b3) r ltac:(lra) Hr0).
  pose proof (Qmult_le_0_compat (b4 - 1) r ltac:(lra) Hr0).
  exists c, r, (c + a3 * r)%Q, (c - a3 * r)%Q, (b4 * r)%Q, (b3 * r)%Q.
  split_and!; [done..| | | | |]; lra.
Qed.


(** The same for a returned X-bar and S chart, for a square root that is
    not negative: no standard deviation is negative,
    LCL_x ≤ Xbar_bar ≤ UCL_x, and 0 ≤ LCL_S ≤ S_bar ≤ UCL_S, wherever these
    are numbers. *)
Theorem xbar_s_limits df value_column grouping_column s ch :
  (∀ x, 0 <= x → 0 <= sqrt x)%Q →
  x_bar_s.plot_xbar_s_chart sqrt df value_column grouping_column s = Ok ch →
  (∀ v q, v ∈ x_bar_s.s_values ch → v = Some q → (0 <= q)%Q)
  ∧ (∀ c lx ux, x_bar_s.Xbar_bar ch = Some c → x_bar_s.LCL_x ch = Some lx →
       x_bar_s.UCL_x ch = Some ux → (lx <= c ∧ c <= ux)%Q)
  ∧ (∀ r ls us, x_bar_s.S_bar ch = Some r → x_bar_s.LCL_S ch = Some ls →
       x_bar_s.UCL_S ch = Some us → (0 <= ls ∧ ls <= r ∧ r <= us)%Q).
Proof.
  intros Hsqrt Hch.
  destruct (xbar_s_limit_values _ _ _ _ _ Hsqrt Hch)
    as (Hsv & c & r & ux & lx & us & ls & Hc & Hr & Hux & Hlx & Hus & Hls & Hx & HS).
  split_and!.
  - intros v q Hv ->. rewrite Forall_forall in Hsv.
    destruct (Hsv _ Hv) as (q' & [= <-] & Hq). done.
  - intros c' lx' ux' Hc' Hlx' Hux'. by simplify_eq.
  - intros r' ls' us' Hr' Hls' Hus'. by simplify_eq.
Qed.

End xbar_limits.


Lemma xbar_s_limits_witness :
  (∀ x, 0 <= x → 0 <= sqrt_4dp x)%Q
  ∧ ∃ ch c r ls us,
    x_bar_s.plot_xbar_s_chart sqrt_4dp frame8 "x" "lot" 3 = Ok ch
    ∧ x_bar_s.Xbar_bar ch = Some c ∧ x_bar_s.S_bar ch = Some r
    ∧ x_bar_s.LCL_S ch = Some ls ∧ x_bar_s.UCL_S ch = Some us
    ∧ (0 <= ls ∧ ls <= r ∧ r <= us)%Q.
Proof.
  assert (Hsqrt : (∀ x, 0 <= x → 0 <= sqrt_4dp x)%Q)
    by (intros x _; apply sqrt_4dp_nonneg).
  split; [exact Hsqrt|].
  assert (Hch : ∃ ch, x_bar_s.plot_xbar_s_chart sqrt_4dp frame8 "x" "lot" 3 = Ok ch)
    by (eexists; by vm_compute).
  destruct Hch as [ch Hch].
  destruct (xbar_s_limits sqrt_4dp frame8 "x" "lot" 3 ch Hsqrt Hch) as (_ & _ & Hord).
  assert (Hv : ∃ c r ls us, x_bar_s.Xbar_bar ch = Some c ∧ x_bar_s.S_bar ch = Some r
                 ∧ x_bar_s.LCL_S ch = Some ls ∧ x_bar_s.UCL_S ch = Some us).
  { revert Hch. vm_compute. intros [= <-]. by eexists _, _, _, _. }
  destruct Hv as (c & r & ls & us & Hc & Hr & Hls & Hus).
  exists ch, c, r, ls, us.
  refine (conj Hch (conj Hc (conj Hr (conj Hls (conj Hus _))))). by apply Hord.
Defined.



(** ** The EWMA chart *)

Lemma Qpower_even_unit_interval (a : Q) (k : Z) :
  (-1 <= a)%Q → (a <= 1)%Q → 0 ≤ k → (0 <= a ^ (2 * k) ∧ a ^ (2 * k) <= 1)%Q.
Proof.
  intros Hlo Hhi Hk. rewrite Qpower_mult.
  apply Qpower_unit_interval; [| |done].
  - apply Qsqr_nonneg.
  - simpl. nra.
Qed.

Section ewma_domain.
Variable sqrt : Q → Q.

(** The half width of the limits at position [i], as line 38 computes it. *)
Let width (lambda_value : Q) (sigma : num) (i : nat) : result num :=
  q ← ewma_chart.truediv lambda_value (2 - lambda_value);
  a ← ewma_chart.math_sqrt sqrt q;
  b ← ewma_chart.math_sqrt sqrt (1 - (1 - lambda_value) ^ (2 * (Z.of_nat i + 1)));
  mret (fin a * sigma * fin b)%num.

Lemma width_cases (lambda_value : Q) (sigma : num) (i : nat) :
  ((lambda_value == 2)%Q → width lambda_value sigma i = Raise ZeroDivisionError)
  ∧ ((lambda_value < 0 ∨ 2 < lambda_value)%Q →
     width lambda_value sigma i = Raise (ValueError ewma_chart.domain_msg))
  ∧ ((0 <= lambda_value ∧ lambda_value < 2)%Q → ∃ w, width lambda_value sigma i = Ok w).
Proof.
  unfold width, ewma_chart.truediv, ewma_chart.math_sqrt. split_and!.
  - intros H2. destruct (Qeq_bool (2 - lambda_value) 0) eqn:E; [done|].
    apply Qeq_bool_neq in E. lra.
  - intros Hout. destruct (Qeq_bool (2 - lambda_value) 0) eqn:E.
    { apply Qeq_bool_iff in E. lra. }
    cbn [mbind result_bind mret result_ret].
    destruct (Qle_bool 0 (lambda_value / (2 - lambda_value))) eqn:Eq; [|done].
    apply Qle_bool_iff in Eq. apply Qeq_bool_neq in E.
    exfalso. destruct Hout as [Hneg|Hbig].
    + assert (0 < 2 - lambda_value)%Q by lra.
      assert (lambda_value / (2 - lambda_value) < 0)%Q; [|lra].
      apply Qlt_shift_div_r; lra.
    + assert (0 < lambda_value - 2)%Q by lra.
      assert (Heq : (lambda_value / (2 - lambda_value)
                     == - (lambda_value / (lambda_value - 2)))%Q)
        by (field; split; lra).
      assert (0 < lambda_value / (lambda_value - 2))%Q
        by (apply Qlt_shift_div_l; lra).
      lra.
  - intros [H0 H2]. destruct (Qeq_bool (2 - lambda_value) 0) eqn:E.
    { apply Qeq_bool_iff in E. lra. }
    cbn [mbind result_bind mret result_ret].
    assert (Hq : (0 <= lambda_value / (2 - lambda_value))%Q).
    { apply Qle_shift_div_l; lra. }
    apply Qle_bool_iff in Hq as ->.
    cbn [mbind result_bind mret result_ret].
    destruct (Qpower_even_unit_interval (1 - lambda_value) (Z.of_nat i + 1))
      as [_ Hp]; [lra..|lia|].
    assert (Hb : (0 <= 1 - (1 - lambda_value) ^ (2 * (Z.of_nat i + 1)))%Q) by lra.
    apply Qle_bool_iff in Hb as ->.
    cbn [mbind result_bind mret result_ret]. by eexists.
Qed.

(** Which smoothing constants [plot_ewma_chart] accepts.  A missing column
    is a KeyError and an empty one an IndexError, whatever the constant.
    On a non-empty column the call returns exactly for 0 ≤ lambda_value < 2
    (with one upper and one lower limit per row); lambda_value = 2 is a
    division by zero, and a constant below 0 or above 2 a ValueError of
    [math.sqrt]. *)
Theorem ewma_smoothing_constant_domain df value_column lambda_value l_value :
  (columns df !! value_column = None →
   ewma_chart.plot_ewma_chart sqrt df value_column lambda_value l_value
   = Raise (KeyError value_column))
  ∧ (columns df !! value_column = Some [] →
     ewma_chart.plot_ewma_chart sqrt df value_column lambda_value l_value
     = Raise IndexError)
  ∧ (∀ x : list cell, columns df !! value_column = Some x → x ≠ [] →
     ((lambda_value == 2)%Q →
      ewma_chart.plot_ewma_chart sqrt df value_column lambda_value l_value
      = Raise ZeroDivisionError)
     ∧ ((lambda_value < 0 ∨ 2 < lambda_value)%Q →
        ewma_chart.plot_ewma_chart sqrt df value_column lambda_value l_value
        = Raise (ValueError ewma_chart.domain_msg))
     ∧ ((0 <= lambda_value ∧ lambda_value < 2)%Q →
        ∃ ch, ewma_chart.plot_ewma_chart sqrt df value_column lambda_value l_value = Ok ch
          ∧ length (ewma_chart.ewma ch) = length x
          ∧ length (ewma_chart.ucl ch) = length x
          ∧ length (ewma_chart.lcl ch) = length x)).
Proof.
  split_and!.
  - intros Hx. unfold ewma_chart.plot_ewma_chart, getitem. by rewrite Hx.
  - intros Hx. unfold ewma_chart.plot_ewma_chart, getitem. by rewrite Hx.
  - intros x Hx Hne. apply getitem_Ok in Hx.
    unfold ewma_chart.plot_ewma_chart. rewrite Hx.
    cbn [mbind result_bind mret result_ret].
    destruct (ewma_values_recurrence (fin 0) (fin 1) nadd nsub nmul nmean_of
                (fin lambda_value) x) as (e & He & Hlen & _).
    { destruct x; [done|simpl; lia]. }
    unfold ewma_chart.exact_ewma. rewrite He.
    cbn [mbind result_bind mret result_ret].
    change (mapM _ (seq 0 (length x)))
      with (mapM (width lambda_value (ewma_chart.std_of sqrt x)) (seq 0 (length x))).
    destruct (width_cases lambda_value (ewma_chart.std_of sqrt x) 0) as (Hz & Hd & _).
    split_and!.
    + intros H2. destruct x as [|v x]; [done|]. cbn [length seq mapM].
      by rewrite (Hz H2).
    + intros Hout. destruct x as [|v x]; [done|]. cbn [length seq mapM].
      by rewrite (Hd Hout).
    + intros Hin.
      destruct (mapM_Ok (width lambda_value (ewma_chart.std_of sqrt x))
                  (seq 0 (length x))) as (sd & -> & Hsd).
      { apply Forall_forall. intros i _.
        by destruct (width_cases lambda_value (ewma_chart.std_of sqrt x) i)
          as (_ & _ & Hok); apply Hok. }
      cbn [mbind result_bind mret result_ret]. eexists. split; [done|]. cbn.
      rewrite !length_fmap, Hsd, length_seq. done.
Qed.

End ewma_domain.

Lemma ewma_smoothing_constant_domain_witness :
  (∃ ch, ewma_chart.plot_ewma_chart sqrt_4dp frame_constant "x" 1.5%Q 3 = Ok ch
     ∧ length (ewma_chart.ucl ch) = 3%nat)
  ∧ ewma_chart.plot_ewma_chart sqrt_4dp frame_constant "x" 2%Q 3 = Raise ZeroDivisionError
  ∧ ewma_chart.plot_ewma_chart sqrt_4dp frame_constant "x" (-0.5)%Q 3
    = Raise (ValueError ewma_chart.domain_msg)
  ∧ ewma_chart.plot_ewma_chart sqrt_4dp frame_constant "y" 0.2%Q 3 = Raise (KeyError "y").
Proof.
  destruct (ewma_smoothing_constant_domain sqrt_4dp frame_constant "x" 1.5%Q 3)
    as (_ & _ & Hx).
  destruct (Hx [Some 5%Q; Some 5%Q; Some 5%Q]) as (_ & _ & Hin); [by vm_compute|done|].
  destruct Hin as (ch & Hch & _ & Hucl & _); [split; by vm_compute|].
  destruct (ewma_smoothing_constant_domain sqrt_4dp frame_constant "x" 2%Q 3)
    as (_ & _ & Hx2).
  destruct (Hx2 [Some 5%Q; Some 5%Q; Some 5%Q]) as (H2 & _ & _); [by vm_compute|done|].
  destruct (ewma_smoothing_constant_domain sqrt_4dp frame_constant "x" (-0.5)%Q 3)
    as (_ & _ & Hx3).
  destruct (Hx3 [Some 5%Q; Some 5%Q; Some 5%Q]) as (_ & Hout & _); [by vm_compute|done|].
  destruct (ewma_smoothing_constant_domain sqrt_4dp frame_constant "y" 0.2%Q 3)
    as (Hmissing & _).
  split_and!.
  - by exists ch.
  - apply H2. by vm_compute.
  - apply Hout. left. by vm_compute.
  - apply Hmissing. by vm_compute.
Defined.

(** ** The points of the attribute charts *)

Lemma group_of_absent {A} (k : Z) (g : list (Z * list A)) :
  k ∉ g.*1 → group_of k g = [].
Proof.
  unfold group_of. induction g as [|[k' vs] g IH]; [done|]. intros Hk.
  rewrite fmap_cons, not_elem_of_cons in Hk. destruct Hk as [Hne Hk]. simpl in Hne.
  rewrite filter_cons_False by (simpl; congruence). by apply IH.
Qed.

Lemma group_of_cons {A} (k k' : Z) (vs : list A) (g : list (Z * list A)) :
  group_of k ((k', vs) :: g) = (if decide (k' = k) then vs else []) ++ group_of k g.
Proof.
  unfold group_of. destruct (decide (k' = k)) as [->|Hne].
  - by rewrite filter_cons_True.
  - by rewrite filter_cons_False.
Qed.

Lemma group_insert_keys {A} (k : Z) (v : A) (g : list (Z * list A)) (x : Z) :
  x ∈ (group_insert k v g).*1 ↔ x = k ∨ x ∈ g.*1.
Proof.
  induction g as [|[k' vs] g IH]; simpl.
  - rewrite list_elem_of_singleton. split; [by left|]. intros [?|?%elem_of_nil]; done.
  - destruct (k <? k') eqn:E1.
    { rewrite !fmap_cons, !elem_of_cons. done. }
    destruct (k =? k') eqn:E2.
    + apply Z.eqb_eq in E2 as ->. rewrite !fmap_cons, !elem_of_cons. simpl. tauto.
    + rewrite !fmap_cons, !elem_of_cons, IH. simpl. tauto.
Qed.

Lemma group_insert_sorted {A} (k : Z) (v : A) (g : list (Z * list A)) :
  StronglySorted Z.lt g.*1 → StronglySorted Z.lt (group_insert k v g).*1.
Proof.
  induction g as [|[k' vs] g IH]; simpl; intros Hs.
  - repeat constructor.
  - apply StronglySorted_inv in Hs as [Hs Hall].
    destruct (k <? k') eqn:E1.
    + apply Z.ltb_lt in E1. rewrite !fmap_cons. simpl.
      constructor; [by constructor|]. constructor; [done|].
      eapply Forall_impl; [exact Hall|]. intros; simpl in *; lia.
    + apply Z.ltb_ge in E1. destruct (k =? k') eqn:E2.
      * rewrite fmap_cons. simpl. by constructor.
      * apply Z.eqb_neq in E2. rewrite fmap_cons. simpl.
        constructor; [by apply IH|].
        apply Forall_forall. intros x Hx. apply group_insert_keys in Hx as [->|Hx]; [lia|].
        rewrite Forall_forall in Hall. by apply Hall.
Qed.

Lemma group_insert_group_of {A} (k : Z) (v : A) (g : list (Z * list A)) (x : Z) :
  StronglySorted Z.lt g.*1 →
  group_of x (group_insert k v g) = group_of x g ++ (if decide (x = k) then [v] else []).
Proof.
  induction g as [|[k' vs] g IH]; simpl; intros Hs.
  - rewrite group_of_cons. destruct (decide (k = x)), (decide (x = k)); try done; congruence.
  - apply StronglySorted_inv in Hs as [Hs Hall].
    destruct (k <? k') eqn:E1.
    + apply Z.ltb_lt in E1. rewrite group_of_cons.
      destruct (decide (x = k)) as [->|Hne].
      * rewrite decide_True by done. rewrite group_of_absent; [done|].
        rewrite fmap_cons, not_elem_of_cons. simpl. split; [lia|].
        intros Hk. rewrite Forall_forall in Hall. specialize (Hall _ Hk). lia.
      * rewrite decide_False by done. by rewrite app_nil_r.
    + apply Z.ltb_ge in E1. destruct (k =? k') eqn:E2.
      * apply Z.eqb_eq in E2 as <-. rewrite !group_of_cons.
        destruct (decide (x = k)) as [->|Hne].
        -- rewrite !decide_True by done.
           rewrite (group_of_absent k g); [by rewrite !app_nil_r|].
           intros Hk. rewrite Forall_forall in Hall. specialize (Hall _ Hk). lia.
        -- rewrite !decide_False by done. by rewrite app_nil_r.
      * rewrite !group_of_cons, IH by done. by rewrite app_assoc.
Qed.

Lemma values_with_snoc {A} (k : Z) (rows : list (Z * A)) (kv : Z * A) :
  values_with k (rows ++ [kv])
  = values_with k rows ++ (if decide (k = kv.1) then [kv.2] else []).
Proof.
  unfold values_with. rewrite filter_app, fmap_app. f_equal.
  destruct (decide (k = kv.1)) as [->|Hne].
  - by rewrite filter_cons_True.
  - rewrite filter_cons_False; [done|]. simpl. congruence.
Qed.

(** What [groupby] computes: one group per key that occurs, in strictly
    increasing order of key, holding the values of the rows of that key in
    row order. *)
Lemma groupby_spec {A} (keys : list Z) (vals : list A) :
  let rows := zip keys vals in
  let g := groupby keys vals in
  StronglySorted Z.lt g.*1
  ∧ (∀ k, k ∈ g.*1 ↔ k ∈ rows.*1)
  ∧ (∀ k, group_of k g = values_with k rows).
Proof.
  cbv zeta. unfold groupby. generalize (zip keys vals). intros rows.
  induction rows as [|kv rows IH] using rev_ind.
  - simpl. split_and!; [constructor|done..].
  - destruct IH as (Hs & Hk & Hv). rewrite fold_left_app. simpl.
    split_and!.
    + by apply group_insert_sorted.
    + intros k. rewrite group_insert_keys, fmap_app, elem_of_app, Hk.
      change ([kv].*1) with [kv.1]. rewrite list_elem_of_singleton. tauto.
    + intros k. rewrite group_insert_group_of, values_with_snoc, Hv by done. done.
Qed.

(** In a grouping with distinct keys a group is found under its key. *)
Lemma group_of_elem {A} (k : Z) (vs : list A) (g : list (Z * list A)) :
  StronglySorted Z.lt g.*1 → (k, vs) ∈ g → group_of k g = vs.
Proof.
  induction g as [|[k' vs'] g IH]; [by intros _ ?%elem_of_nil|].
  intros Hs Hin. apply StronglySorted_inv in Hs as [Hs Hall].
  rewrite Forall_forall in Hall. rewrite group_of_cons.
  apply elem_of_cons in Hin as [[= <- <-]|Hin].
  - rewrite decide_True by done. rewrite group_of_absent; [by rewrite app_nil_r|].
    intros Hk. specialize (Hall _ Hk). simpl in Hall. lia.
  - assert (k' < k).
    { apply Hall. change k with ((k, vs).1). by apply list_elem_of_fmap_2. }
    rewrite decide_False by lia. by apply IH.
Qed.

Lemma Zsum_cons (x : Z) (l : list Z) : Zsum (x :: l) = x + Zsum l.
Proof. done. Qed.

Lemma Zsum_app (l k : list Z) : Zsum (l ++ k) = Zsum l + Zsum k.
Proof. induction l as [|x l IH]; simpl; lia. Qed.

Lemma Zsum_indicator (l : list Z) :
  Forall (λ z, z = 0 ∨ z = 1) l → 0 ≤ Zsum l ≤ Z.of_nat (length l).
Proof. induction 1 as [|z l Hz _ IH]; simpl; lia. Qed.

Lemma is_defective_indicator lower_spec upper_spec (x : cell) :
  np_chart.is_defective lower_spec upper_spec x = 0
  ∨ np_chart.is_defective lower_spec upper_spec x = 1.
Proof.
  unfold np_chart.is_defective.
  destruct (is_not_None lower_spec && flt x lower_spec); [by right|].
  destruct (is_not_None upper_spec && fgt x upper_spec); [by right|by left].
Qed.

Lemma values_with_indicator lower_spec upper_spec (keys : list Z) (xs : list cell) (g : Z) :
  Forall (λ z, z = 0 ∨ z = 1)
    (values_with g (zip keys (np_chart.is_defective lower_spec upper_spec <$> xs))).
Proof.
  unfold values_with. apply Forall_fmap, Forall_forall. intros [k v] Hin%list_elem_of_filter.
  destruct Hin as [_ Hin]. apply elem_of_zip_r in Hin. simpl in *.
  apply list_elem_of_fmap in Hin as (x & -> & _). apply is_defective_indicator.
Qed.

(** The sums of the groups add up to the sum of all values. *)
Lemma group_insert_total (k v : Z) (g : list (Z * list Z)) :
  Zsum (Zsum <$> (group_insert k v g).*2) = Zsum (Zsum <$> g.*2) + v.
Proof.
  induction g as [|[k' vs] g IH]; [simpl; lia|]. cbn [group_insert].
  destruct (k <? k'); [simpl; lia|].
  destruct (k =? k'); rewrite !fmap_cons; cbn [snd]; rewrite !Zsum_cons.
  - rewrite Zsum_app. simpl. lia.
  - rewrite IH. lia.
Qed.

Lemma groupby_total (keys vals : list Z) :
  Zsum (Zsum <$> (groupby keys vals).*2) = Zsum (zip keys vals).*2.
Proof.
  unfold groupby. generalize (zip keys vals). intros rows.
  induction rows as [|kv rows IH] using rev_ind; [done|].
  rewrite fold_left_app. simpl. rewrite group_insert_total, IH, fmap_app, Zsum_app.
  simpl. lia.
Qed.

Section attribute_points.
Variable sqrt : Q → Q.

(** The points of the np chart: one per subgroup label that occurs, in
    increasing order of label, each the number of defective rows of that
    subgroup; together they count every defective row once. *)
Theorem np_values_count_the_defectives df column subgroup_size lower_spec upper_spec ch xs :
  columns df !! column = Some xs → subgroup_size ≠ 0 →
  np_chart.plot_np_chart sqrt df column subgroup_size lower_spec upper_spec = Ok ch →
  let rows := zip ((λ i, i `div` subgroup_size) <$> index df)
                  (np_chart.is_defective lower_spec upper_spec <$> xs) in
  ∃ pts, np_chart.np_values ch = Some pts
    ∧ StronglySorted Z.lt pts.*1
    ∧ (∀ g, g ∈ pts.*1 ↔ g ∈ rows.*1)
    ∧ (∀ g c, (g, c) ∈ pts →
         c = Zsum (values_with g rows)
         ∧ 0 ≤ c ≤ Z.of_nat (length (values_with g rows)))
    ∧ Zsum pts.*2 = Zsum rows.*2.
Proof.
  intros Hxs%getitem_Ok Hs. unfold np_chart.plot_np_chart.
  destruct (negb _ && negb _); [done|]. rewrite Hxs.
  cbn [mbind result_bind mret result_ret].
  apply Z.eqb_neq in Hs. rewrite Hs. intros [= <-]; cbn.
  set (keys := (λ i, i `div` subgroup_size) <$> index df).
  set (vals := np_chart.is_defective lower_spec upper_spec <$> xs).
  destruct (groupby_spec keys vals) as (Hsorted & Hkeys & Hvals).
  eexists. split; [done|].
  assert (Hfst : ((λ g : Z * list Z, (g.1, Zsum g.2)) <$> groupby keys vals).*1
                 = (groupby keys vals).*1).
  { rewrite <- list_fmap_compose. by apply list_fmap_ext. }
  split_and!.
  - by rewrite Hfst.
  - intros g. by rewrite Hfst.
  - intros g c Hin. apply list_elem_of_fmap in Hin as ([g' vs] & [= -> ->] & Hin). simpl.
    rewrite <- Hvals, (group_of_elem g' vs) by done.
    split; [done|]. rewrite <- (group_of_elem g' vs (groupby keys vals)) by done.
    rewrite Hvals. apply Zsum_indicator, values_with_indicator.
  - rewrite <- groupby_total. f_equal. rewrite <- !list_fmap_compose. by apply list_fmap_ext.
Qed.

(** The points of the p chart: for the same subgroups, the number of
    defective rows of the subgroup divided by its number of rows (which
    for the last subgroup can be less than subgroup_size): a proportion
    between 0 and 1. *)
Theorem p_values_are_proportions df column subgroup_size lower_spec upper_spec ch xs :
  columns df !! column = Some xs → subgroup_size ≠ 0 →
  p_chart.plot_p_chart sqrt df column subgroup_size lower_spec upper_spec = Ok ch →
  let rows := zip ((λ i, i `div` subgroup_size) <$> index df)
                  (p_chart.is_defective lower_spec upper_spec <$> xs) in
  ∃ pts, p_chart.p ch = Some pts
    ∧ StronglySorted Z.lt pts.*1
    ∧ (∀ g, g ∈ pts.*1 ↔ g ∈ rows.*1)
    ∧ (∀ g q, (g, q) ∈ pts →
         values_with g rows ≠ []
         ∧ q = (inject_Z (Zsum (values_with g rows))
                / inject_Z (Z.of_nat (length (values_with g rows))))%Q
         ∧ (0 <= q ∧ q <= 1)%Q).
Proof.
  intros Hxs%getitem_Ok Hs. unfold p_chart.plot_p_chart.
  destruct (negb _ && negb _); [done|]. rewrite Hxs.
  cbn [mbind result_bind mret result_ret].
  apply Z.eqb_neq in Hs. rewrite Hs. intros [= <-]; cbn.
  set (keys := (λ i, i `div` subgroup_size) <$> index df).
  set (vals := p_chart.is_defective lower_spec upper_spec <$> xs).
  destruct (groupby_spec keys vals) as (Hsorted & Hkeys & Hvals).
  eexists. split; [done|].
  match goal with |- context [(?f <$> groupby keys vals).*1] =>
    assert (Hfst : (f <$> groupby keys vals).*1 = (groupby keys vals).*1)
      by (rewrite <- list_fmap_compose; by apply list_fmap_ext) end.
  split_and!.
  - by rewrite Hfst.
  - intros g. by rewrite Hfst.
  - intros g q Hin. apply list_elem_of_fmap in Hin as ([g' vs] & [= -> ->] & Hin). simpl.
    assert (Hvs : values_with g' (zip keys vals) = vs)
      by (by rewrite <- Hvals, (group_of_elem g' vs)).
    rewrite Hvs.
    assert (Hne : vs ≠ []).
    { pose proof (groupby_Forall (λ _, True) keys vals (Forall_true _ _ (λ _, I))) as Hall.
      rewrite Forall_forall in Hall. by destruct (Hall _ Hin). }
    split_and!; [done..| |].
    + apply Qle_shift_div_l.
      * change 0%Q with (inject_Z 0). rewrite <- Zlt_Qlt. destruct vs; [done|simpl; lia].
      * rewrite Qmult_0_l. change 0%Q with (inject_Z 0). rewrite <- Zle_Qle.
        rewrite <- Hvs. apply Zsum_indicator, values_with_indicator.
    + apply Qle_shift_div_r.
      * change 0%Q with (inject_Z 0). rewrite <- Zlt_Qlt. destruct vs; [done|simpl; lia].
      * rewrite Qmult_1_l, <- Zle_Qle.
        rewrite <- Hvs. apply Zsum_indicator, values_with_indicator.
Qed.

End attribute_points.

Lemma np_values_count_the_defectives_witness :
  ∃ ch pts, np_chart.plot_np_chart sqrt_4dp frame3 "x" 2 None (Some 5%Q) = Ok ch
    ∧ np_chart.np_values ch = Some pts
    ∧ StronglySorted Z.lt pts.*1
    ∧ Zsum pts.*2 = 1.
Proof.
  assert (Hch : ∃ ch, np_chart.plot_np_chart sqrt_4dp frame3 "x" 2 None (Some 5%Q) = Ok ch)
    by (eexists; by vm_compute).
  destruct Hch as [ch Hch].
  destruct (np_values_count_the_defectives sqrt_4dp frame3 "x" 2 None (Some 5%Q) ch
              [Some 1%Q; Some 7%Q; Some 3%Q]) as (pts & Hpts & Hsorted & _ & _ & Htotal);
    [by vm_compute|lia|exact Hch|].
  exists ch, pts. split_and!; [done..|]. rewrite Htotal. by vm_compute.
Defined.

Lemma p_values_are_proportions_witness :
  ∃ ch pts, p_chart.plot_p_chart sqrt_4dp frame3 "x" 2 None (Some 5%Q) = Ok ch
    ∧ p_chart.p ch = Some pts
    ∧ ∀ g q, (g, q) ∈ pts → (0 <= q ∧ q <= 1)%Q.
Proof.
  assert (Hch : ∃ ch, p_chart.plot_p_chart sqrt_4dp frame3 "x" 2 None (Some 5%Q) = Ok ch)
    by (eexists; by vm_compute).
  destruct Hch as [ch Hch].
  destruct (p_values_are_proportions sqrt_4dp frame3 "x" 2 None (Some 5%Q) ch
              [Some 1%Q; Some 7%Q; Some 3%Q]) as (pts & Hpts & _ & _ & Hq);
    [by vm_compute|lia|exact Hch|].
  exists ch, pts. split_and!; [done..|]. intros g q Hin. by destruct (Hq g q Hin) as (_ & _ & ?).
Defined.

(** The c chart adds its two tests where the other three charts stop at
    the first: a value counts twice exactly when it is strictly below the
    lower limit and strictly above the upper one, which needs crossed
    limits.  A count is 0, 1 or 2, and with limits that are not crossed it
    is the 0 or 1 of the other charts. *)
Theorem c_chart_counts_twice_between_crossed_limits lower_spec upper_spec (x : cell) :
  (c_chart.count_defects lower_spec upper_spec x = 2
   ↔ strictly_below lower_spec x ∧ strictly_above upper_spec x)
  ∧ (c_chart.count_defects lower_spec upper_spec x = 2 →
     ∃ l h, lower_spec = Some l ∧ upper_spec = Some h ∧ (h < l)%Q)
  ∧ 0 ≤ c_chart.count_defects lower_spec upper_spec x ≤ 2
  ∧ ((∀ l h, lower_spec = Some l → upper_spec = Some h → (l <= h)%Q) →
     c_chart.count_defects lower_spec upper_spec x
     = np_chart.is_defective lower_spec upper_spec x
     ∧ c_chart.count_defects lower_spec upper_spec x
       = u_chart.count_defects lower_spec upper_spec x).
Proof.
  rewrite count_defects_cases.
  unfold np_chart.is_defective, u_chart.count_defects.
  pose proof (below_test lower_spec x) as Hb.
  pose proof (above_test upper_spec x) as Ha.
  destruct (is_not_None lower_spec && flt x lower_spec) eqn:Eb;
    destruct (is_not_None upper_spec && fgt x upper_spec) eqn:Ea.
  - assert (Hboth : strictly_below lower_spec x ∧ strictly_above upper_spec x)
      by (split; [by apply Hb | by apply Ha]).
    pose proof Hboth as [(l & v & -> & -> & Hl) (h & v' & -> & [= <-] & Hh)].
    refine (conj _ (conj _ (conj _ _))); [done| |lia|].
    + intros _. exists l, h. split_and!; [done..|lra].
    + intros Hle. specialize (Hle l h eq_refl eq_refl). lra.
  - refine (conj _ (conj _ (conj _ _))); [|done|lia|done].
    split; [done|]. intros [_ H%Ha]. done.
  - refine (conj _ (conj _ (conj _ _))); [|done|lia|done].
    split; [done|]. intros [H%Hb _]. done.
  - refine (conj _ (conj _ (conj _ _))); [|done|lia|done].
    split; [done|]. intros [H%Hb _]. done.
Qed.

Lemma c_chart_counts_twice_between_crossed_limits_witness :
  c_chart.count_defects (Some 5%Q) (Some 3%Q) (Some 4%Q) = 2
  ∧ np_chart.is_defective (Some 5%Q) (Some 3%Q) (Some 4%Q) = 1
  ∧ c_chart.count_defects (Some 3%Q) (Some 5%Q) (Some 7%Q)
    = np_chart.is_defective (Some 3%Q) (Some 5%Q) (Some 7%Q).
Proof.
  split_and!; [by vm_compute..|].
  destruct (c_chart_counts_twice_between_crossed_limits (Some 3%Q) (Some 5%Q) (Some 7%Q))
    as (_ & _ & _ & Hsame).
  apply Hsame. intros l h [= <-] [= <-]. by vm_compute.
Defined.

Lemma u_chart_returned (sqrt : Q → Q) df column sample_size_col lower_spec upper_spec ch :
  u_chart.plot_u_chart sqrt df column sample_size_col lower_spec upper_spec = Ok ch →
  ∃ xs,
    columns df !! column = Some xs
    ∧ let defect_count := u_chart.count_defects lower_spec upper_spec <$> xs in
      let u_bar := (fin (inject_Z (Zsum defect_count))
                    / fin (Qsum (dropna (u_chart.sample_size ch))))%num in
      u_chart.u ch
      = zip_with (λ d n, fin (inject_Z d) / n)%num defect_count (u_chart.sample_size ch)
      ∧ u_chart.u_bar ch = u_bar
      ∧ u_chart.UCL ch
        = (λ n, u_bar + fin 3 * nsqrt sqrt (u_bar / n))%num <$> u_chart.sample_size ch
      ∧ length (u_chart.LCL ch) = length (u_chart.sample_size ch).
Proof.
  unfold u_chart.plot_u_chart. cbv zeta.
  destruct (negb _ && negb _); [done|].
  destruct (getitem df column) as [xs|e] eqn:Exs; cbn [mbind result_bind mret result_ret];
    [|done].
  apply getitem_Ok in Exs.
  destruct (getitem _ sample_size_col) as [sizes|e];
    cbn [mbind result_bind mret result_ret]; [|done].
  destruct (getitem _ column) as [xs'|e];
    cbn [mbind result_bind mret result_ret]; [|done].
  destruct (getitem _ "material_salida") as [labels|e];
    cbn [mbind result_bind mret result_ret]; [|done].
  intros [= <-]. exists xs. split; [done|]. cbn.
  split_and!; [done..|]. by rewrite !length_fmap.
Qed.

(** A row without a defect is never out of control in the u chart.  For a
    square root that is not negative and sample sizes that are positive
    numbers, the rate u of a conforming row is 0 and its upper limit is
    not negative, so the test u > UCL that marks a point fails for it. *)
Theorem u_chart_spares_conforming_rows (sqrt : Q → Q) df column sample_size_col
    lower_spec upper_spec ch xs :
  (∀ x, 0 <= x → 0 <= sqrt x)%Q →
  columns df !! column = Some xs →
  u_chart.plot_u_chart sqrt df column sample_size_col lower_spec upper_spec = Ok ch →
  Forall (λ n, ∃ q, n = Some q ∧ 0 < q)%Q (u_chart.sample_size ch) →
  ∀ i x uv ucl,
    xs !! i = Some x → u_chart.count_defects lower_spec upper_spec x = 0 →
    u_chart.u ch !! i = Some uv → u_chart.UCL ch !! i = Some ucl →
    (∃ q, uv = Some q ∧ q == 0)%Q
    ∧ (∀ q, ucl = Some q → 0 <= q)%Q
    ∧ u_chart.gt_cell uv ucl ≠ Some 1%Q.
Proof.
  intros Hsqrt Hxs Hch Hsizes i x uv ucl Hx Hdef Hu Hucl.
  destruct (u_chart_returned _ _ _ _ _ _ _ Hch) as (xs' & Hxs' & Hu' & Hub & HUCL & _).
  rewrite Hxs in Hxs'. injection Hxs' as <-. cbv zeta in Hu', Hub, HUCL.
  rewrite Forall_forall in Hsizes.
  assert (Hnonneg : ∀ v, ucl = Some v → (0 <= v)%Q).
  { intros v ->. rewrite <- Hub in HUCL. rewrite HUCL in Hucl.
    apply list_lookup_fmap_Some in Hucl as (n & Hv & Hn).
    destruct (u_chart.u_bar ch) as [c|]; [|done].
    destruct (nsqrt sqrt (Some c / n)%num) as [s|] eqn:Es; [|done].
    apply nsqrt_nonneg in Es; [|done]. cbn in Hv. injection Hv as ->.
    assert (Hc : (0 <= c)%Q); [|lra].
    unfold ndiv, fin in Hub.
    destruct (Qeq_bool (Qsum (dropna (u_chart.sample_size ch))) 0) eqn:E0; [done|].
    injection Hub as ->. apply Qeq_bool_neq in E0.
    assert (Hsum : (0 <= Qsum (dropna (u_chart.sample_size ch)))%Q).
    { apply Qsum_nonneg, Forall_forall. intros y Hy.
      apply list_elem_of_omap in Hy as (c & Hc & Hcy). simpl in Hcy. subst c.
      destruct (Hsizes _ Hc) as (q & [= <-] & Hq). lra. }
    apply Qle_shift_div_l; [lra|]. rewrite Qmult_0_l.
    pose proof (Zsum_nonneg _ (is_defective_nonneg lower_spec upper_spec xs)) as HD.
    change (0 ≤ Zsum (u_chart.count_defects lower_spec upper_spec <$> xs)) in HD.
    change 0%Q with (inject_Z 0). by rewrite <- Zle_Qle. }
  rewrite Hu' in Hu.
  apply lookup_zip_with_Some in Hu as (d & n & -> & Hd & Hn).
  apply list_lookup_fmap_Some in Hd as (x' & -> & Hx').
  unfold num, cell in *. rewrite Hx in Hx'. injection Hx' as <-. rewrite Hdef.
  destruct (Hsizes n) as (q & -> & Hq); [by eapply list_elem_of_lookup_2|].
  assert (Huv : (fin (inject_Z 0) / Some q)%num = Some (inject_Z 0 / q)%Q).
  { unfold ndiv, fin. destruct (Qeq_bool q 0) eqn:E; [|done].
    apply Qeq_bool_iff in E. lra. }
  rewrite Huv.
  assert (Hzero : (inject_Z 0 / q == 0)%Q) by (field; lra).
  split_and!.
  - by eexists.
  - done.
  - destruct ucl as [v|]; [|done]. cbn. specialize (Hnonneg v eq_refl).
    destruct (Qltb v (inject_Z 0 / q)) eqn:E; [|done].
    apply Qltb_lt in E. lra.
Qed.

Lemma u_chart_spares_conforming_rows_witness :
  ∃ ch uv ucl,
    u_chart.plot_u_chart sqrt_4dp frame3 "x" "size" None (Some 5%Q) = Ok ch
    ∧ u_chart.u ch !! 0%nat = Some uv ∧ u_chart.UCL ch !! 0%nat = Some ucl
    ∧ u_chart.gt_cell uv ucl ≠ Some 1%Q.
Proof.
  assert (Hch : ∃ ch, u_chart.plot_u_chart sqrt_4dp frame3 "x" "size" None (Some 5%Q) = Ok ch)
    by (eexists; by vm_compute).
  destruct Hch as [ch Hch].
  assert (Hu : ∃ uv, u_chart.u ch !! 0%nat = Some uv).
  { revert Hch. vm_compute. intros [= <-]. by eexists. }
  assert (Hucl : ∃ ucl, u_chart.UCL ch !! 0%nat = Some ucl).
  { revert Hch. vm_compute. intros [= <-]. by eexists. }
  destruct Hu as [uv Hu]. destruct Hucl as [ucl Hucl].
  exists ch, uv, ucl. split_and!; [done..|].
  apply (u_chart_spares_conforming_rows sqrt_4dp frame3 "x" "size" None (Some 5%Q) ch
           [Some 1%Q; Some 7%Q; Some 3%Q]
           ltac:(intros x _; apply sqrt_4dp_nonneg) ltac:(by vm_compute) Hch) with
    (i := 0%nat) (x := Some 1%Q); [|by vm_compute|by vm_compute|done|done].
  revert Hch. vm_compute. intros [= <-].
  repeat constructor; eexists; (split; [reflexivity|by vm_compute]).
Defined.

(** ** Sorted residuals and flagged statistics *)

Lemma insert_sorted_Permutation (x : Q) (l : list Q) : insert_sorted x l ≡ₚ x :: l.
Proof.
  induction l as [|y l IH]; simpl; [done|].
  destruct (Qle_bool x y); [done|]. rewrite IH. apply perm_swap.
Qed.

Lemma sort_Permutation (l : list Q) : sort l ≡ₚ l.
Proof.
  induction l as [|x l IH]; simpl; [done|].
  rewrite insert_sorted_Permutation. by constructor.
Qed.

Lemma insert_sorted_sorted (x : Q) (l : list Q) :
  StronglySorted Qle l → StronglySorted Qle (insert_sorted x l).
Proof.
  induction l as [|y l IH]; simpl; intros Hs.
  - repeat constructor.
  - apply StronglySorted_inv in Hs as [Hs Hall].
    destruct (Qle_bool x y) eqn:E.
    + apply Qle_bool_iff in E. constructor; [by constructor|].
      constructor; [done|]. eapply Forall_impl; [exact Hall|].
      intros z Hz; simpl in *. lra.
    + assert (y <= x)%Q.
      { destruct (Qlt_le_dec y x) as [?|Hle]; [lra|].
        apply Qle_bool_iff in Hle. congruence. }
      constructor; [by apply IH|].
      rewrite insert_sorted_Permutation. by constructor.
Qed.

(** [sort] puts numbers in increasing order. *)
Lemma sort_sorted (l : list Q) : StronglySorted Qle (sort l).
Proof.
  induction l as [|x l IH]; simpl; [constructor|]. by apply insert_sorted_sorted.
Qed.

Lemma split_numbers_Permutation (l : list num) :
  (Some <$> omap id l) ++ filter (λ v, v = None) l ≡ₚ l.
Proof.
  induction l as [|[q|] l IH].
  - done.
  - rewrite filter_cons_False by done. simpl. by constructor.
  - rewrite filter_cons_True by done. simpl.
    rewrite <- Permutation_middle. by constructor.
Qed.

Lemma sort_nan_last_Permutation (l : list num) : sort_nan_last l ≡ₚ l.
Proof.
  unfold sort_nan_last. rewrite sort_Permutation. apply split_numbers_Permutation.
Qed.

(** What the residual chart puts on its x axis, for a model that gives
    one prediction per row: the absolute residuals |y_true - y_pred|, each
    once, the numbers in increasing order and not negative, the NaNs after
    them. *)
Theorem cumulative_residuals_are_sorted model feature_names data target_name ch X y_true :
  mapM (getitem data) feature_names = Ok X →
  columns data !! target_name = Some y_true →
  length (model X) = length y_true →
  cummulative_residuals.plot_cumulative_error_distribution model feature_names data
    target_name = Ok ch →
  ∃ numbers nans,
    cummulative_residuals.sorted_residuals ch = (Some <$> numbers) ++ nans
    ∧ StronglySorted Qle numbers
    ∧ Forall (λ r, 0 <= r)%Q numbers
    ∧ Forall (λ v, v = None) nans
    ∧ cummulative_residuals.sorted_residuals ch
      ≡ₚ zip_with (λ t p, option_map Qabs (t - p)%num) y_true (model X).
Proof.
  intros HX Hy%getitem_Ok _.
  unfold cummulative_residuals.plot_cumulative_error_distribution.
  rewrite HX. cbn [mbind result_bind mret result_ret]. rewrite Hy.
  cbn [mbind result_bind mret result_ret].
  destruct (negb _); [done|]. intros [= <-]; cbn.
  set (residuals := zip_with _ y_true (model X)).
  exists (sort (omap id residuals)), (filter (λ v, v = None) residuals).
  split_and!; [done|apply sort_sorted| | |apply sort_nan_last_Permutation].
  - rewrite sort_Permutation. apply Forall_forall. intros r Hr.
    apply list_elem_of_omap in Hr as (v & Hv & Hr). simpl in Hr. subst v.
    unfold residuals in Hv. apply elem_of_zip_with in Hv as (t & p & Hr & _ & _).
    destruct (t - p)%num as [d|]; [|done]. injection Hr as ->. apply Qabs_nonneg.
  - apply Forall_forall. intros v Hv%list_elem_of_filter. by destruct Hv.
Qed.

Lemma cumulative_residuals_are_sorted_witness :
  ∃ ch, cummulative_residuals.plot_cumulative_error_distribution
          (λ _, [Some 5%Q; None; Some 4%Q]) ["size"] frame3 "x" = Ok ch
    ∧ cummulative_residuals.sorted_residuals ch ≡ₚ [Some 4%Q; None; Some 1%Q].
Proof.
  assert (Hch : ∃ ch, cummulative_residuals.plot_cumulative_error_distribution
                        (λ _, [Some 5%Q; None; Some 4%Q]) ["size"] frame3 "x" = Ok ch)
    by (eexists; by vm_compute).
  destruct Hch as [ch Hch]. exists ch. split; [exact Hch|].
  destruct (cumulative_residuals_are_sorted (λ _, [Some 5%Q; None; Some 4%Q]) ["size"]
              frame3 "x" ch [[Some 10%Q; Some 20%Q; Some 10%Q]]
              [Some 1%Q; Some 7%Q; Some 3%Q])
    as (numbers & nans & _ & _ & _ & _ & Hperm); [by vm_compute..|exact Hch|].
  exact Hperm.
Defined.

Section t2_flags.
Variable inv : t2_chart.matrix → result t2_chart.matrix.
Variable ppf : Q → Z → Z → num.


End t2_flags.


(** ** The row and the baseline of the SHAP charts *)

Lemma py_index_Raise {A} (l : list A) (i : Z) (e : exn) :
  py_index l i = Raise e ↔ position (length l) i = None ∧ e = IndexError.
Proof.
  unfold py_index, position.
  set (j := if i <? 0 then Z.of_nat (length l) + i else i).
  destruct (j <? 0) eqn:Ej.
  - replace (0 <=? j) with false by lia. simpl. split; [by intros [= <-]|by intros [_ ->]].
  - replace (0 <=? j) with true by lia. simpl.
    destruct (l !! Z.to_nat j) as [a'|] eqn:El.
    + apply lookup_lt_Some in El as Hlt.
      replace (j <? Z.of_nat (length l)) with true by lia.
      split; [done|by intros [? _]].
    + apply lookup_ge_None in El as Hge.
      replace (j <? Z.of_nat (length l)) with false by lia.
      split; [by intros [= <-]|by intros [_ ->]].
Qed.

Lemma mapM_py_index_names {A} (names : list A) (idx : list nat) :
  (∃ i, i ∈ idx ∧ (length names ≤ i)%nat) →
  mapM (λ i : nat, py_index names (Z.of_nat i)) idx = Raise IndexError.
Proof.
  intros (i & Hin & Hi). induction idx as [|j idx IH]; [by apply elem_of_nil in Hin|].
  cbn [mapM].
  destruct (py_index names (Z.of_nat j)) as [a|e] eqn:Ej.
  - cbn [mbind result_bind mret result_ret].
    apply elem_of_cons in Hin as [->|Hin].
    + apply py_index_Ok in Ej as (n & Hn & Hlook). unfold position in Hn.
      replace (Z.of_nat j <? 0) with false in Hn by lia.
      apply lookup_lt_Some in Hlook.
      destruct ((0 <=? Z.of_nat j) && (Z.of_nat j <? Z.of_nat (length names))) eqn:E;
        [|done]. lia.
    + by rewrite IH.
  - apply py_index_Raise in Ej as [_ ->]. done.
Qed.

(** When the waterfall chart refuses its arguments.  The row index is read
    as Python reads it (a negative index counts from the end); an index
    outside the attributions, the baselines or the rows of the frame, or a
    list of feature names shorter than the row of attributions, is an
    IndexError.  A returned chart has one bar and one name per
    attribution of the row. *)
Theorem waterfall_refuses_a_bad_index shap_values data row_index feature_names :
  (position (length (values shap_values)) row_index = None
   ∨ position (length (base_values shap_values)) row_index = None
   ∨ position (length (index data)) row_index = None
   ∨ (∃ row, py_index (values shap_values) row_index = Ok row
        ∧ (length feature_names < length row)%nat) →
   waterfall_plot.plot_shap_waterfall_catboost shap_values data row_index feature_names
   = Raise IndexError)
  ∧ (∀ ch,
     waterfall_plot.plot_shap_waterfall_catboost shap_values data row_index feature_names
     = Ok ch →
     ∃ j row, position (length (values shap_values)) row_index = Some j
       ∧ values shap_values !! j = Some row
       ∧ (length row ≤ length feature_names)%nat
       ∧ length (waterfall_plot.sorted_shap ch) = length row
       ∧ length (waterfall_plot.sorted_features ch) = length row).
Proof.
  unfold waterfall_plot.plot_shap_waterfall_catboost.
  destruct (py_index (values shap_values) row_index) as [row|e] eqn:Erow; cycle 1.
  { apply py_index_Raise in Erow as [Hpos ->]. split; [done|]. by intros ch. }
  cbn [mbind result_bind mret result_ret].
  pose proof Erow as (j & Hj & Hrow)%py_index_Ok.
  destruct (py_index (base_values shap_values) row_index) as [b|e] eqn:Eb; cycle 1.
  { apply py_index_Raise in Eb as [Hpos ->]. split; [done|]. by intros ch. }
  cbn [mbind result_bind mret result_ret].
  pose proof Eb as (jb & Hjb & _)%py_index_Ok.
  destruct (py_index (index data) row_index) as [r|e] eqn:Er; cycle 1.
  { apply py_index_Raise in Er as [Hpos ->]. split; [done|]. by intros ch. }
  cbn [mbind result_bind mret result_ret].
  pose proof Er as (jr & Hjr & _)%py_index_Ok.
  set (sorted_idx := reverse (argsort (Qabs <$> row))).
  assert (Hperm : sorted_idx ≡ₚ seq 0 (length row)).
  { unfold sorted_idx. rewrite reverse_Permutation, argsort_Permutation.
    by rewrite length_fmap. }
  destruct (mapM _ sorted_idx) as [names|e] eqn:Enames.
  - cbn [mbind result_bind mret result_ret].
    assert (Hcover : (length row ≤ length feature_names)%nat).
    { destruct (decide (length row ≤ length feature_names)%nat) as [|Hshort]; [done|].
      rewrite mapM_py_index_names in Enames; [done|].
      exists (length row - 1)%nat. split; [|lia].
      rewrite Hperm. apply elem_of_seq. lia. }
    split.
    + intros [Hpos|[Hpos|[Hpos|(row' & [= <-] & Hshort)]]]; [congruence..|lia].
    + intros ch [= <-]; cbn. exists j, row. split_and!; [done..| |].
      * rewrite (Permutation_length (take_at_Permutation row sorted_idx Hperm)). done.
      * apply mapM_result_Forall2, Forall2_length in Enames.
        rewrite <- Enames, (Permutation_length Hperm). apply length_seq.
  - cbn [mbind result_bind mret result_ret].
    assert (e = IndexError) as ->.
    { clear -Enames. revert e Enames. generalize sorted_idx. intros idx.
      induction idx as [|i idx IH]; intros e; cbn [mapM]; [done|].
      destruct (py_index feature_names (Z.of_nat i)) as [a|e'] eqn:Ei.
      - cbn [mbind result_bind mret result_ret].
        destruct (mapM _ idx) as [?|e'']; [done|]. cbn. intros [= <-]. by apply IH.
      - apply py_index_Raise in Ei as [_ ->]. cbn. by intros [= <-]. }
    split; [done|]. by intros ch.
Qed.

Lemma waterfall_refuses_a_bad_index_witness :
  waterfall_plot.plot_shap_waterfall_catboost explanation2 frame_features 2
    ["a"; "b"; "c"] = Raise IndexError
  ∧ waterfall_plot.plot_shap_waterfall_catboost explanation2 frame_features (-1)
      ["a"; "b"] = Raise IndexError
  ∧ ∃ ch, waterfall_plot.plot_shap_waterfall_catboost explanation2 frame_features (-1)
            ["a"; "b"; "c"] = Ok ch
      ∧ length (waterfall_plot.sorted_shap ch) = 3%nat.
Proof.
  split_and!.
  - apply (waterfall_refuses_a_bad_index explanation2 frame_features 2 ["a"; "b"; "c"]).
    left. by vm_compute.
  - apply (waterfall_refuses_a_bad_index explanation2 frame_features (-1) ["a"; "b"]).
    do 3 right. exists [2; 0.25; -1]%Q. split; [by vm_compute|simpl; lia].
  - assert (Hch : ∃ ch, waterfall_plot.plot_shap_waterfall_catboost explanation2
                          frame_features (-1) ["a"; "b"; "c"] = Ok ch)
      by (eexists; by vm_compute).
    destruct Hch as [ch Hch]. exists ch. split; [exact Hch|].
    destruct (waterfall_refuses_a_bad_index explanation2 frame_features (-1)
                ["a"; "b"; "c"]) as [_ Hok].
    destruct (Hok ch Hch) as (j & row & Hj & Hrow & _ & Hlen & _).
    rewrite Hlen. vm_compute in Hj. injection Hj as <-. vm_compute in Hrow.
    by injection Hrow as <-.
Defined.

(** The decision plot starts every trace at base_values[0], the baseline
    of row 0.  Without an index to plot the call ends in the
    UnboundLocalError of line 45, which reads a name that only the loop
    binds.  In a returned plot the trace of a row has one point more than
    the row has attributions, of which the call names at most as many as
    there are; it ends at the prediction of the row shifted by the
    difference between the baseline of row 0 and the baseline of the
    row. *)
Theorem decision_trace_is_shifted_by_the_first_baseline shap_values predictions data
    indices feature_names :
  explains shap_values predictions →
  (indices = [] → base_values shap_values ≠ [] →
   decision_plot.plot_shap_decision_catboost shap_values data indices feature_names
   = Raise (UnboundLocalError "features"))
  ∧ ∀ ch,
      decision_plot.plot_shap_decision_catboost shap_values data indices feature_names
        = Ok ch →
      indices ≠ []
      ∧ base_values shap_values !! 0%nat = Some (decision_plot.base_value ch)
      ∧ Forall2 (λ idx trace,
          trace.1 = idx
          ∧ ∃ row, py_index (values shap_values) idx = Ok row
              ∧ length trace.2 = S (length row)
              ∧ (length feature_names ≤ length row)%nat
              ∧ (∃ v, trace.2 !! 0%nat = Some v
                   ∧ (v == decision_plot.base_value ch)%Q)
              ∧ ∀ p b, py_index predictions idx = Ok p →
                  py_index (base_values shap_values) idx = Ok b →
                  ∃ v, last trace.2 = Some v
                    ∧ (v == p + (decision_plot.base_value ch - b))%Q)
        indices (decision_plot.traces ch).
Proof.
  intros (Hlv & Hlb & Hsum). split.
  - intros -> Hbase. unfold decision_plot.plot_shap_decision_catboost.
    destruct (base_values shap_values) as [|b0 bs] eqn:Eb; [done|]. done.
  - intros ch (Hne & Hb0 & Htraces)%decision_returned.
    split; [done|]. split.
    { apply py_index_Ok in Hb0 as (j & Hj & Hb0). unfold position in Hj.
      simpl in Hj. destruct (0 <? _); simplify_eq/=. done. }
    eapply Forall2_impl; [exact Htraces|]. clear Htraces.
    intros idx trace (Hidx & row & Erow & Etexts & Htrace).
    split; [done|]. exists row.
    destruct (decision_trace (decision_plot.base_value ch) row)
      as (Hlen & Hfirst & _ & v & Hv & Heq).
    rewrite Htrace. split_and!; [done|done| |done|].
    + destruct (decide (length feature_names ≤ length row)%nat) as [|Hlong]; [done|].
      exfalso. apply Etexts. apply (mapM_py_index_names row).
      exists (length row). split; [apply elem_of_seq; lia|done].
    + intros p b Hp Hb. exists v. split; [done|]. rewrite Heq.
      apply py_index_Ok in Erow as (j & Hj & Hrow).
      apply py_index_Ok in Hp as (j' & Hj' & Hp).
      apply py_index_Ok in Hb as (j'' & Hj'' & Hb).
      rewrite Hlv in Hj. rewrite Hlb in Hj''.
      assert (j' = j) as -> by congruence. assert (j'' = j) as -> by congruence.
      rewrite <- (Hsum j row b p Hrow Hb Hp). ring.
Qed.

Lemma decision_trace_is_shifted_by_the_first_baseline_witness :
  explains explanation_two_baselines [8; 14.25]%Q
  ∧ decision_plot.plot_shap_decision_catboost explanation_two_baselines
      frame_two_columns [] ["x"; "id"] = Raise (UnboundLocalError "features")
  ∧ ∃ ch trace v, decision_plot.plot_shap_decision_catboost explanation_two_baselines
                    frame_two_columns [1] ["x"; "id"] = Ok ch
      ∧ decision_plot.traces ch = [trace]
      ∧ last trace.2 = Some v ∧ (v == 14.25 + (10 - 12))%Q.
Proof.
  assert (Hex : explains explanation_two_baselines [8; 14.25]%Q).
  { split_and!; [done..|]. intros [|[|i]] row b p; simpl; intros; simplify_eq; by vm_compute. }
  split; [exact Hex|]. split.
  { by apply (decision_trace_is_shifted_by_the_first_baseline explanation_two_baselines
                [8; 14.25]%Q frame_two_columns [] ["x"; "id"] Hex). }
  assert (Hch : ∃ ch, decision_plot.plot_shap_decision_catboost explanation_two_baselines
                        frame_two_columns [1] ["x"; "id"] = Ok ch)
    by (eexists; by vm_compute).
  destruct Hch as [ch Hch].
  destruct (decision_trace_is_shifted_by_the_first_baseline explanation_two_baselines
              [8; 14.25]%Q frame_two_columns [1] ["x"; "id"] Hex) as [_ Hok].
  destruct (Hok ch Hch) as (_ & Hb0 & Hall).
  simpl in Hb0. injection Hb0 as Hb0.
  apply Forall2_cons_inv_l in Hall as (trace & rest & Htrace & Hrest & Etr).
  apply Forall2_nil_inv_l in Hrest as ->.
  destruct Htrace as (_ & row & _ & _ & _ & _ & Hlast).
  destruct (Hlast 14.25%Q 12%Q) as (v & Hv & Hveq); [by vm_compute..|].
  exists ch, trace, v. rewrite <- Hb0 in Hveq. by rewrite Etr.
Defined.

(** ** Partial dependence *)

Lemma mapM_first_Raise {A B} (f : A → result B) (before after : list A) (a : A) (e : exn) :
  Forall (λ a, ∃ b, f a = Ok b) before → f a = Raise e →
  mapM f (before ++ a :: after) = Raise e.
Proof.
  intros Hbefore Ha. induction Hbefore as [|a' before [b Hb] _ IH]; cbn [app mapM].
  - by rewrite Ha.
  - rewrite Hb. cbn [mbind result_bind]. by rewrite IH.
Qed.

(** The default number of grid points grows with the number of rows, in
    steps of 5 from 10 to 30: 10 below 200 rows (also for an empty frame),
    30 from 5000 rows on. *)
Theorem grid_points_grow_with_the_rows (n m : Z) :
  (n ≤ m →
   partial_dependence.get_optimal_grid_points n
   ≤ partial_dependence.get_optimal_grid_points m)
  ∧ 10 ≤ partial_dependence.get_optimal_grid_points n ≤ 30
  ∧ partial_dependence.get_optimal_grid_points n `mod` 5 = 0
  ∧ (partial_dependence.get_optimal_grid_points n = 10 ↔ n < 200)
  ∧ (partial_dependence.get_optimal_grid_points n = 30 ↔ 5000 ≤ n).
Proof.
  unfold partial_dependence.get_optimal_grid_points.
  repeat match goal with
         | |- context [?a <? ?b] => destruct (Z.ltb_spec a b)
         end; split_and!; try done; try lia.
Qed.

Lemma grid_points_grow_with_the_rows_witness :
  partial_dependence.get_optimal_grid_points 150
  ≤ partial_dependence.get_optimal_grid_points 700.
Proof.
  destruct (grid_points_grow_with_the_rows 150 700) as [Hmono _]. apply Hmono. lia.
Defined.

Lemma linspace_length (start stop : num) (n : Z) (y : list num) :
  linspace start stop n = Ok y → 0 ≤ n ∧ length y = Z.to_nat n.
Proof.
  unfold linspace. destruct (Z.ltb_spec n 0); [done|]. intros [= <-].
  split; [done|].
  destruct (0 <? n - 1), (1 <? n);
    rewrite ?length_insert, !length_fmap, length_seq; done.
Qed.

Lemma linspace_negative (start stop : num) (n : Z) :
  n < 0 → linspace start stop n = Raise (ValueError (samples_msg n)).
Proof. intros Hn. unfold linspace. by destruct (Z.ltb_spec n 0); [|lia]. Qed.

Lemma linspace_Ok (start stop : num) (n : Z) :
  0 ≤ n → ∃ y, linspace start stop n = Ok y.
Proof. intros Hn. unfold linspace. destruct (Z.ltb_spec n 0); [lia|]. by eexists. Qed.

(** Two samples or more between two numbers: sample [i] lies [i] equal
    steps from the start, and the last sample is the stop. *)
Lemma linspace_samples (lo hi : Q) (n : Z) (y : list num) :
  2 ≤ n → linspace (Some lo) (Some hi) n = Ok y →
  length y = Z.to_nat n
  ∧ last y = Some (Some hi)
  ∧ ∀ i, (i < Z.to_nat n)%nat →
      ∃ q, y !! i = Some (Some q)
        ∧ (q == lo + inject_Z (Z.of_nat i) * ((hi - lo) / inject_Z (n - 1)))%Q.
Proof.
  intros Hn Hy. pose proof (linspace_length _ _ _ _ Hy) as [_ Hlen].
  revert Hy. unfold linspace.
  destruct (Z.ltb_spec n 0); [lia|].
  destruct (Z.ltb_spec 0 (n - 1)); [|lia].
  destruct (Z.ltb_spec 1 n); [|lia].
  intros [= Hy].
  assert (Hd : (0 < inject_Z (n - 1))%Q).
  { change 0%Q with (inject_Z 0). rewrite <- Zlt_Qlt. lia. }
  assert (Hstep : Qeq_bool (inject_Z (n - 1)) 0 = false).
  { destruct (Qeq_bool (inject_Z (n - 1)) 0) eqn:E; [|done].
    apply Qeq_bool_iff in E. set (d := inject_Z (n - 1)) in *. lra. }
  cbv zeta in Hy. cbn [nsub lift2 ndiv fin] in Hy. rewrite Hstep in Hy.
  split; [done|]. split.
  - rewrite <- Hy, last_lookup, length_insert, !length_fmap, length_seq.
    replace (Nat.pred (Z.to_nat n)) with (Z.to_nat (n - 1)) by lia.
    apply list_lookup_insert_eq. rewrite !length_fmap, length_seq. lia.
  - intros i Hi. destruct (decide (i = Z.to_nat (n - 1))) as [->|Hne].
    + exists hi. split.
      * rewrite <- Hy. apply list_lookup_insert_eq. rewrite !length_fmap, length_seq. lia.
      * rewrite Z2Nat.id by lia. set (d := inject_Z (n - 1)) in *. field. lra.
    + eexists. split.
      * rewrite <- Hy, list_lookup_insert_ne by done.
        rewrite !list_lookup_fmap, lookup_seq_lt by done. simpl. reflexivity.
      * ring.
Qed.

Lemma series_range (c : list cell) :
  dropna c ≠ [] →
  ∃ lo hi, series_min c = Some lo ∧ series_max c = Some hi ∧ (lo <= hi)%Q.
Proof.
  unfold series_min, series_max. destruct (dropna c) as [|x r]; [done|]. intros _.
  do 2 eexists. split_and!; [done..|].
  pose proof (Qmaximum_ge x r). pose proof (Qminimum_le x r). lra.
Qed.

Section pdp.
Variable predict : DataFrame → list num.

(** One feature of [plot_pdp_catboost]. *)
Let one_feature (data : DataFrame) (grid_points : Z) (feature : string)
    : result partial_dependence.trace :=
  match columns data !! feature with
  | None => Raise (ValueError (partial_dependence.missing_msg feature))
  | Some c =>
      grid ← linspace (series_min c) (series_max c) grid_points;
      let predictions := (λ val,
          let temp_data := setitem data feature (replicate (length (index data)) val) in
          nmean_of (predict temp_data)) <$> grid in
      mret {| partial_dependence.name := feature; partial_dependence.x := grid;
              partial_dependence.y := predictions |}
  end.

Lemma one_feature_Ok data grid_points feature :
  0 ≤ grid_points → has_column data feature →
  ∃ t, one_feature data grid_points feature = Ok t.
Proof.
  intros Hg [c Hc]. unfold one_feature. rewrite Hc.
  destruct (linspace_Ok (series_min c) (series_max c) grid_points Hg) as [y ->].
  cbn [mbind result_bind mret result_ret]. by eexists.
Qed.

Lemma one_feature_trace data grid_points feature t :
  one_feature data grid_points feature = Ok t →
  ∃ c, columns data !! feature = Some c
    ∧ partial_dependence.name t = feature
    ∧ linspace (series_min c) (series_max c) grid_points = Ok (partial_dependence.x t)
    ∧ length (partial_dependence.y t) = length (partial_dependence.x t).
Proof.
  unfold one_feature. destruct (columns data !! feature) as [c|]; [|done].
  destruct (linspace _ _ _) as [grid|] eqn:Eg; [|done].
  cbn [mbind result_bind mret result_ret]. intros [= <-]. exists c; cbn.
  split_and!; [done..|]. by rewrite length_fmap.
Qed.

(** What [plot_pdp_catboost] checks, feature by feature.  With grid
    points that can be sampled (none is fine), the first feature that is
    not a column of the frame is a ValueError naming it; when all are
    columns the call returns one trace per feature, in the order given,
    each with as many grid values and as many predictions as there are
    grid points.  A negative number of grid points is a ValueError of
    [np.linspace] at the first feature. *)
Theorem pdp_checks_each_feature data features grid_points :
  let n := effective_grid_points data grid_points in
  (∀ before feature after,
     features = before ++ feature :: after →
     0 ≤ n → Forall (has_column data) before → columns data !! feature = None →
     partial_dependence.plot_pdp_catboost predict data features grid_points
     = Raise (ValueError (partial_dependence.missing_msg feature)))
  ∧ (0 ≤ n → Forall (has_column data) features →
     ∃ traces,
       partial_dependence.plot_pdp_catboost predict data features grid_points = Ok traces
       ∧ partial_dependence.name <$> traces = features
       ∧ Forall (λ t, length (partial_dependence.x t) = Z.to_nat n
                      ∧ length (partial_dependence.y t) = Z.to_nat n) traces)
  ∧ (∀ feature rest,
     features = feature :: rest → n < 0 → has_column data feature →
     partial_dependence.plot_pdp_catboost predict data features grid_points
     = Raise (ValueError (samples_msg n))).
Proof.
  cbv zeta. unfold partial_dependence.plot_pdp_catboost.
  change (match grid_points with
          | Some g => g
          | None => partial_dependence.get_optimal_grid_points
                      (Z.of_nat (length (index data)))
          end) with (effective_grid_points data grid_points).
  set (n := effective_grid_points data grid_points).
  change (mapM _ features) with (mapM (one_feature data n) features).
  clearbody n. split_and!.
  - intros before feature after -> Hn Hbefore Hmissing.
    apply mapM_first_Raise.
    + eapply Forall_impl; [exact Hbefore|]. intros f Hf. by apply one_feature_Ok.
    + unfold one_feature. by rewrite Hmissing.
  - intros Hn Hall.
    destruct (mapM_Ok (one_feature data n) features) as (traces & Htraces & _).
    { eapply Forall_impl; [exact Hall|]. intros f Hf. by apply one_feature_Ok. }
    exists traces. split; [done|].
    apply mapM_result_Forall2 in Htraces. split.
    + clear -Htraces. induction Htraces as [|f t fs ts Ht _ IH]; [done|].
      apply one_feature_trace in Ht as (c & _ & Hname & _). cbn. by rewrite Hname, IH.
    + apply Forall_forall. intros t Ht.
      apply list_elem_of_lookup in Ht as [i Ht].
      destruct (Forall2_lookup_r _ _ _ _ _ Htraces Ht) as (f & _ & Hf).
      apply one_feature_trace in Hf as (c & _ & _ & Hgrid & Hy).
      apply linspace_length in Hgrid as [_ Hx]. by rewrite Hy.
  - intros feature rest -> Hn [c Hc].
    apply (mapM_first_Raise _ [] rest feature); [constructor|].
    unfold one_feature. rewrite Hc, linspace_negative by done. done.
Qed.

(** The grid of a feature spans the observed range.  For a column that
    holds a number and two grid points or more, the grid of the returned
    trace has one value per grid point; its last value is the largest
    observed value, which [np.linspace] writes there itself, and its first
    value, where it is a number, is the smallest observed value. *)
Theorem pdp_grid_spans_the_observed_range data features grid_points traces t c :
  partial_dependence.plot_pdp_catboost predict data features grid_points = Ok traces →
  t ∈ traces →
  columns data !! partial_dependence.name t = Some c → dropna c ≠ [] →
  2 ≤ effective_grid_points data grid_points →
  ∃ lo hi,
    series_min c = Some lo ∧ series_max c = Some hi ∧ (lo <= hi)%Q
    ∧ length (partial_dependence.x t)
      = Z.to_nat (effective_grid_points data grid_points)
    ∧ (∀ q, partial_dependence.x t !! 0%nat = Some (Some q) → (q == lo)%Q)
    ∧ last (partial_dependence.x t) = Some (Some hi).
Proof.
  unfold partial_dependence.plot_pdp_catboost.
  change (match grid_points with
          | Some g => g
          | None => partial_dependence.get_optimal_grid_points
                      (Z.of_nat (length (index data)))
          end) with (effective_grid_points data grid_points).
  set (n := effective_grid_points data grid_points).
  change (mapM _ features) with (mapM (one_feature data n) features).
  clearbody n.
  intros Htraces%mapM_result_Forall2 Ht Hc Hne Hn.
  apply list_elem_of_lookup in Ht as [k Ht].
  destruct (Forall2_lookup_r _ _ _ _ _ Htraces Ht) as (f & _ & Hf).
  apply one_feature_trace in Hf as (c' & Hc' & Hname & Hgrid & _).
  rewrite <- Hname, Hc in Hc'. injection Hc' as <-.
  destruct (series_range c Hne) as (lo & hi & Hlo & Hhi & Hle).
  rewrite Hlo, Hhi in Hgrid.
  destruct (linspace_samples lo hi n _ Hn Hgrid) as (Hlen & Hlast & Hsamples).
  unfold num, cell in *.
  exists lo, hi. split_and!; [done..| |done].
  intros q Hq. destruct (Hsamples 0%nat) as (q' & Hq' & Heq); [lia|].
  rewrite Hq' in Hq. injection Hq as <-.
  rewrite Heq. change (inject_Z (Z.of_nat 0)) with 0%Q. ring.
Qed.

End pdp.

Lemma pdp_checks_each_feature_witness :
  (∃ traces, partial_dependence.plot_pdp_catboost predict_x frame3 ["x"; "size"] (Some 3)
             = Ok traces
     ∧ partial_dependence.name <$> traces = ["x"; "size"])
  ∧ partial_dependence.plot_pdp_catboost predict_x frame3 ["x"; "nope"; "size"] None
    = Raise (ValueError "Feature 'nope' not in DataFrame columns.")
  ∧ partial_dependence.plot_pdp_catboost predict_x frame3 ["x"] (Some (-1))
    = Raise (ValueError "Number of samples, -1, must be non-negative.").
Proof.
  split_and!.
  - destruct (pdp_checks_each_feature predict_x frame3 ["x"; "size"] (Some 3))
      as (_ & Hok & _).
    destruct Hok as (traces & Htraces & Hnames & _).
    + by vm_compute.
    + repeat constructor; eexists; by vm_compute.
    + by exists traces.
  - destruct (pdp_checks_each_feature predict_x frame3 ["x"; "nope"; "size"] None)
      as (Hmissing & _).
    apply (Hmissing ["x"] "nope" ["size"]); [done|by vm_compute| |by vm_compute].
    repeat constructor; eexists; by vm_compute.
  - destruct (pdp_checks_each_feature predict_x frame3 ["x"] (Some (-1)))
      as (_ & _ & Hneg).
    apply (Hneg "x" []); [done|by vm_compute|]. eexists; by vm_compute.
Defined.

Lemma pdp_grid_spans_the_observed_range_witness :
  ∃ traces t, partial_dependence.plot_pdp_catboost predict_x frame3 ["x"] (Some 3)
              = Ok traces
    ∧ traces = [t]
    ∧ length (partial_dependence.x t) = 3%nat
    ∧ (∃ q, partial_dependence.x t !! 0%nat = Some (Some q) ∧ (q == 1)%Q)
    ∧ last (partial_dependence.x t) = Some (Some 7%Q).
Proof.
  assert (Htr : ∃ traces, partial_dependence.plot_pdp_catboost predict_x frame3 ["x"] (Some 3)
                          = Ok traces) by (eexists; by vm_compute).
  destruct Htr as [traces Htraces].
  assert (Hone : ∃ t, traces = [t]).
  { revert Htraces. vm_compute. intros [= <-]. by eexists. }
  destruct Hone as [t ->]. exists [t], t.
  destruct (pdp_grid_spans_the_observed_range predict_x frame3 ["x"] (Some 3) [t] t
              [Some 1%Q; Some 7%Q; Some 3%Q] Htraces)
    as (lo & hi & Hlo & Hhi & _ & Hlen & Hfirst & Hlast).
  - apply list_elem_of_singleton. done.
  - revert Htraces. vm_compute. by intros [= <-].
  - done.
  - by vm_compute.
  - vm_compute in Hlo, Hhi. injection Hlo as <-. injection Hhi as <-.
    split_and!; [done|done|done| |done].
    assert (Hq : ∃ q, partial_dependence.x t !! 0%nat = Some (Some q)).
    { revert Htraces. vm_compute. intros [= <-]. by eexists. }
    destruct Hq as [q Hq]. exists q. split; [exact Hq|]. by apply Hfirst.
Defined.

(** ** Importance charts and the force plot *)

Lemma insert_desc_Permutation {A} (key : A → Q) (x : A) (l : list A) :
  insert_desc key x l ≡ₚ x :: l.
Proof.
  induction l as [|y l IH]; simpl; [done|].
  destruct (Qle_bool (key y) (key x)); [done|]. rewrite IH. apply perm_swap.
Qed.

Lemma sort_desc_Permutation {A} (key : A → Q) (l : list A) : sort_desc key l ≡ₚ l.
Proof.
  induction l as [|x l IH]; simpl; [done|].
  rewrite insert_desc_Permutation. by constructor.
Qed.

Lemma insert_desc_sorted {A} (key : A → Q) (x : A) (l : list A) :
  StronglySorted (λ a b, key b <= key a)%Q l →
  StronglySorted (λ a b, key b <= key a)%Q (insert_desc key x l).
Proof.
  induction l as [|y l IH]; simpl; intros Hs.
  - repeat constructor.
  - apply StronglySorted_inv in Hs as [Hs Hall].
    destruct (Qle_bool (key y) (key x)) eqn:E.
    + apply Qle_bool_iff in E. constructor; [by constructor|].
      constructor; [done|]. eapply Forall_impl; [exact Hall|].
      intros z Hz; simpl in *. lra.
    + assert (key x <= key y)%Q.
      { destruct (Qlt_le_dec (key x) (key y)) as [?|Hle]; [lra|].
        apply Qle_bool_iff in Hle. congruence. }
      constructor; [by apply IH|].
      rewrite insert_desc_Permutation. by constructor.
Qed.

(** [sort_desc] puts rows in decreasing order of their key. *)
Lemma sort_desc_sorted {A} (key : A → Q) (l : list A) :
  StronglySorted (λ a b, key b <= key a)%Q (sort_desc key l).
Proof.
  induction l as [|x l IH]; simpl; [constructor|]. by apply insert_desc_sorted.
Qed.

Lemma slice_to_take_drop {A} (l : list A) (n : Z) :
  ∃ k, slice_to l n = take k l
    ∧ (0 ≤ n → k = Z.to_nat n)
    ∧ (n < 0 → k = (length l - Z.to_nat (- n))%nat).
Proof.
  unfold slice_to. destruct (Z.ltb_spec n 0).
  - exists (length l - Z.to_nat (- n))%nat. split_and!; [f_equal; lia|lia|done].
  - exists (Z.to_nat n). split_and!; [done..|lia].
Qed.

Lemma frame_of_Ok {A B} (a : list A) (b : list B) :
  length a = length b → frame_of a b = Ok (zip a b).
Proof. intros H. unfold frame_of. by rewrite H, Nat.eqb_refl. Qed.

Lemma frame_of_Raise {A B} (a : list A) (b : list B) :
  length a ≠ length b → frame_of a b = Raise (ValueError arrays_msg).
Proof. intros H. unfold frame_of. by apply Nat.eqb_neq in H as ->. Qed.

(** The rows a top-n selection keeps and the rows it leaves out. *)
Lemma top_rows {A} (key : A → Q) (rows : list A) (top_n : Z) :
  let bars := slice_to (sort_desc key rows) top_n in
  ∃ rest,
    bars ++ rest ≡ₚ rows
    ∧ StronglySorted (λ a b, key b <= key a)%Q bars
    ∧ (∀ b r, b ∈ bars → r ∈ rest → (key r <= key b)%Q)
    ∧ (0 ≤ top_n → length bars = Nat.min (Z.to_nat top_n) (length rows))
    ∧ (top_n < 0 → length bars = (length rows - Z.to_nat (- top_n))%nat).
Proof.
  cbv zeta. destruct (slice_to_take_drop (sort_desc key rows) top_n) as (k & -> & Hpos & Hneg).
  pose proof (sort_desc_sorted key rows) as Hsorted.
  pose proof (sort_desc_Permutation key rows) as Hperm.
  exists (drop k (sort_desc key rows)). rewrite take_drop. split_and!; [done| | | |].
  - rewrite <- (take_drop k (sort_desc key rows)) in Hsorted.
    by apply StronglySorted_app_1_l in Hsorted.
  - intros b r Hb Hr. rewrite <- (take_drop k (sort_desc key rows)) in Hsorted.
    by apply (StronglySorted_app_1_elem_of _ _ _ _ _ Hsorted).
  - intros H. rewrite length_take, (Permutation_length Hperm), (Hpos H). done.
  - intros H. rewrite length_take, (Permutation_length Hperm), (Hneg H).
    rewrite (Permutation_length Hperm). lia.
Qed.

(** The bars of the feature importance chart are the top_n most important
    features.  Names and importances of different lengths are refused.
    Otherwise every bar is a feature with its own importance, no feature
    has two bars, the bars come in decreasing order of importance, no
    feature left out is more important than a bar, and there are
    min(top_n, number of features) bars (for a negative top_n: all but the
    last -top_n). *)
Theorem importance_bars_are_the_top_n importances columns_of_data top_n :
  (length columns_of_data ≠ length importances →
   feature_importance.plot_feature_importance_catboost importances columns_of_data top_n
   = Raise (ValueError arrays_msg))
  ∧ (length columns_of_data = length importances →
     ∃ bars rest,
       feature_importance.plot_feature_importance_catboost importances columns_of_data
         top_n = Ok bars
       ∧ bars ++ rest ≡ₚ zip columns_of_data importances
       ∧ StronglySorted (λ a b, b.2 <= a.2)%Q bars
       ∧ (∀ b r, b ∈ bars → r ∈ rest → (r.2 <= b.2)%Q)
       ∧ (0 ≤ top_n → length bars = Nat.min (Z.to_nat top_n) (length importances))
       ∧ (top_n < 0 → length bars = (length importances - Z.to_nat (- top_n))%nat)).
Proof.
  unfold feature_importance.plot_feature_importance_catboost. split.
  - intros H. by rewrite frame_of_Raise.
  - intros H. rewrite frame_of_Ok by done. cbn [mbind result_bind mret result_ret].
    destruct (top_rows snd (zip columns_of_data importances) top_n)
      as (rest & Hperm & Hsorted & Hrest & Hpos & Hneg).
    eexists _, rest. split; [done|].
    rewrite length_zip, H, Nat.min_id in Hpos, Hneg. done.
Qed.

Lemma importance_bars_are_the_top_n_witness :
  feature_importance.plot_feature_importance_catboost [0.5; 3; 1.5]%Q ["a"; "b"; "c"] 2
  = Ok [("b", 3%Q); ("c", 1.5%Q)]
  ∧ ∃ bars, feature_importance.plot_feature_importance_catboost [0.5; 3; 1.5]%Q
              ["a"; "b"; "c"] 2 = Ok bars
      ∧ length bars = 2%nat
      ∧ StronglySorted (λ a b, b.2 <= a.2)%Q bars.
Proof.
  split; [by vm_compute|].
  destruct (importance_bars_are_the_top_n [0.5; 3; 1.5]%Q ["a"; "b"; "c"] 2) as [_ Hok].
  destruct Hok as (bars & rest & Hbars & _ & Hsorted & _ & Hlen & _); [done|].
  exists bars. split_and!; [done| |done]. by rewrite Hlen.
Defined.

(** The chart of global explanations draws the same bars as the feature
    importance chart when it is given the names; without names, the bar
    of the importance at position i is called "Feature i". *)
Theorem global_explanations_name_the_features importances top_n :
  (∀ names,
     global_explanations.plot_catboost_global_explanations importances (Some names) top_n
     = feature_importance.plot_feature_importance_catboost importances names top_n)
  ∧ ∃ bars,
      global_explanations.plot_catboost_global_explanations importances None top_n
      = Ok bars
      ∧ (∀ name v, (name, v) ∈ bars →
           ∃ i : nat, name = "Feature " +:+ pretty i ∧ importances !! i = Some v)
      ∧ StronglySorted (λ a b, b.2 <= a.2)%Q bars
      ∧ (0 ≤ top_n → length bars = Nat.min (Z.to_nat top_n) (length importances)).
Proof.
  split; [done|].
  unfold global_explanations.plot_catboost_global_explanations.
  assert (Hlen : length (global_explanations.default_names (length importances))
                 = length importances).
  { unfold global_explanations.default_names. by rewrite length_fmap, length_seq. }
  rewrite frame_of_Ok by done. cbn [mbind result_bind mret result_ret].
  set (rows := zip (global_explanations.default_names (length importances)) importances).
  destruct (top_rows snd rows top_n) as (rest & Hperm & Hsorted & _ & Hpos & _).
  eexists. split; [done|]. split_and!; [|done|].
  - intros name v Hin.
    assert (Hrow : (name, v) ∈ rows).
    { rewrite <- Hperm. apply elem_of_app. by left. }
    apply list_elem_of_lookup in Hrow as [i Hi]. unfold rows in Hi.
    apply lookup_zip_with_Some in Hi as (n & v' & [= <- <-] & Hn & Hv).
    exists i. split; [|done].
    unfold global_explanations.default_names in Hn.
    apply list_lookup_fmap_Some in Hn as (j & -> & Hj).
    apply lookup_seq in Hj as [-> _]. done.
  - intros H. rewrite (Hpos H). unfold rows. by rewrite length_zip, Hlen, Nat.min_id.
Qed.

Lemma add_bars_spec (b0 acc cur : Q) (rows : list (string * Q)) :
  (cur == b0 + acc)%Q →
  let bars := force_plot_by_domain.add_bars cur
                (zip rows ((λ c, b0 + c)%Q <$> cumsum_from acc rows.*2)) in
  (λ b, (force_plot_by_domain.feature b, force_plot_by_domain.shap_value b)) <$> bars = rows
  ∧ (∀ b, bars !! 0%nat = Some b → force_plot_by_domain.base b = cur)
  ∧ (∀ i a b, bars !! i = Some a → bars !! S i = Some b →
       force_plot_by_domain.base b
       = (force_plot_by_domain.base a + force_plot_by_domain.shap_value a)%Q)
  ∧ Forall (λ b, force_plot_by_domain.cumulative b
                 == force_plot_by_domain.base b + force_plot_by_domain.shap_value b)%Q bars
  ∧ (∀ b, last bars = Some b →
       (force_plot_by_domain.base b + force_plot_by_domain.shap_value b
        == cur + Qsum rows.*2)%Q).
Proof.
  revert acc cur. induction rows as [|[f v] rows IH]; intros acc cur Hcur; cbv zeta.
  - simpl. split_and!; [done|done|done|constructor|done].
  - rewrite fmap_cons. cbn [snd cumsum_from]. rewrite fmap_cons. cbn [zip zip_with].
    cbn [force_plot_by_domain.add_bars].
    destruct (IH (acc + v)%Q (cur + v)%Q) as (Hrows & Hfirst & Hnext & Hcum & Hlast).
    { rewrite Hcur. ring. }
    set (bars := force_plot_by_domain.add_bars (cur + v)%Q _) in *.
    split_and!.
    + rewrite fmap_cons. cbn. by rewrite Hrows.
    + by intros b [= <-].
    + intros [|i] a b; cbn.
      * intros [= <-] Hb. cbn. by apply Hfirst.
      * apply Hnext.
    + constructor; [|done]. cbn. rewrite Hcur. ring.
    + intros b. destruct bars as [|b' bars'] eqn:Eb.
      * cbn. intros [= <-]. cbn.
        destruct rows; [simpl; ring|]. apply (f_equal length) in Hrows. done.
      * rewrite last_cons_cons. intros Hb%Hlast. rewrite Hb.
        change (Qsum (v :: rows.*2)) with (v + Qsum rows.*2)%Q. ring.
Qed.

Lemma sorted_descending_abs (rows : list (string * Q)) :
  StronglySorted (λ a b, Qabs b.2 <= Qabs a.2)%Q rows → descending_abs rows.*2.
Proof.
  intros Hs i a b Ha Hb.
  apply list_lookup_fmap_Some in Ha as ([fa va] & -> & Ha).
  apply list_lookup_fmap_Some in Hb as ([fb vb] & -> & Hb).
  rewrite <- (take_drop_middle _ _ _ Ha) in Hs.
  apply StronglySorted_app_1_r, StronglySorted_inv in Hs as [_ Hall].
  rewrite Forall_forall in Hall. apply (Hall (fb, vb)).
  apply list_elem_of_lookup. exists 0%nat. rewrite lookup_drop.
  by replace (S i + 0)%nat with (S i) by lia.
Qed.

(** The bars of the force plot stack from the baseline.  Every bar is a
    feature of the frame with its own attribution, in decreasing order of
    absolute value; the first bar starts at the baseline of the plotted
    row, and every other bar starts where the addition of the loop left
    the one before it: at that bar's start plus its SHAP value. *)
Theorem force_bars_stack_from_the_baseline shap_values data columns_of_data row_index ch :
  force_plot_by_domain.plot_shap_force_catboost_by_domain shap_values data
    columns_of_data row_index = Ok ch →
  ∃ row, py_index (values shap_values) row_index = Ok row
    ∧ py_index (base_values shap_values) row_index
      = Ok (force_plot_by_domain.base_value ch)
    ∧ length columns_of_data = length row
    ∧ (λ b, (force_plot_by_domain.feature b, force_plot_by_domain.shap_value b))
        <$> force_plot_by_domain.bars ch ≡ₚ zip columns_of_data row
    ∧ descending_abs (force_plot_by_domain.shap_value <$> force_plot_by_domain.bars ch)
    ∧ (∀ b, force_plot_by_domain.bars ch !! 0%nat = Some b →
         force_plot_by_domain.base b = force_plot_by_domain.base_value ch)
    ∧ (∀ i a b, force_plot_by_domain.bars ch !! i = Some a →
         force_plot_by_domain.bars ch !! S i = Some b →
         force_plot_by_domain.base b
         = (force_plot_by_domain.base a + force_plot_by_domain.shap_value a)%Q).
Proof.
  intros Hch.
  unfold force_plot_by_domain.plot_shap_force_catboost_by_domain in Hch.
  destruct (py_index (base_values shap_values) row_index) as [b0|] eqn:Eb; [|done].
  cbn [mbind result_bind mret result_ret] in Hch.
  destruct (py_index (values shap_values) row_index) as [row|] eqn:Erow; [|done].
  cbn [mbind result_bind mret result_ret] in Hch.
  destruct (py_index (index data) row_index); [|done].
  cbn [mbind result_bind mret result_ret] in Hch.
  unfold frame_of in Hch.
  destruct (length columns_of_data =? length row)%nat eqn:Elen; [|done].
  cbn [mbind result_bind mret result_ret] in Hch. injection Hch as <-.
  cbn [force_plot_by_domain.base_value force_plot_by_domain.bars
       force_plot_by_domain.prediction].
  set (rows := sort_desc (λ r, Qabs r.2) (zip columns_of_data row)).
  pose proof (sort_desc_Permutation (λ r, Qabs r.2) (zip columns_of_data row)) as Hperm.
  pose proof (sort_desc_sorted (λ r, Qabs r.2) (zip columns_of_data row)) as Hsorted.
  fold rows in Hperm, Hsorted.
  destruct (add_bars_spec b0 0 b0 rows) as (Hrows & Hfirst & Hnext & _ & _); [ring|].
  fold (cumsum rows.*2) in Hrows, Hfirst, Hnext.
  set (bars := force_plot_by_domain.add_bars b0 _) in *.
  assert (Hvals : force_plot_by_domain.shap_value <$> bars = rows.*2).
  { rewrite <- Hrows, <- list_fmap_compose. done. }
  exists row. split_and!; [done|done|by apply Nat.eqb_eq| | |done|done].
  - by rewrite Hrows.
  - rewrite Hvals. by apply sorted_descending_abs.
Qed.

Lemma force_bars_stack_from_the_baseline_witness :
  ∃ ch, force_plot_by_domain.plot_shap_force_catboost_by_domain explanation2
          frame_features ["a"; "b"; "c"] 0 = Ok ch
    ∧ force_plot_by_domain.shap_value <$> force_plot_by_domain.bars ch = [-3; 1; 0.5]%Q
    ∧ force_plot_by_domain.base <$> force_plot_by_domain.bars ch
      = [10; 10 + -3; 10 + -3 + 1]%Q.
Proof.
  assert (Hch : ∃ ch, force_plot_by_domain.plot_shap_force_catboost_by_domain explanation2
                        frame_features ["a"; "b"; "c"] 0 = Ok ch)
    by (eexists; by vm_compute).
  destruct Hch as [ch Hch]. exists ch. split; [exact Hch|].
  destruct (force_bars_stack_from_the_baseline explanation2 frame_features
              ["a"; "b"; "c"] 0 ch Hch) as (row & _ & Hb0 & _ & _ & _ & Hfirst & Hnext).
  assert (Hbars : ∃ b1 b2 b3, force_plot_by_domain.bars ch = [b1; b2; b3]
            ∧ force_plot_by_domain.shap_value <$> [b1; b2; b3] = [-3; 1; 0.5]%Q).
  { revert Hch. vm_compute. intros [= <-]. by eexists _, _, _. }
  destruct Hbars as (b1 & b2 & b3 & Hbars & Hvals).
  rewrite Hbars in Hfirst, Hnext |- *. split; [exact Hvals|].
  injection Hvals as Hv1 Hv2 Hv3.
  assert (H0 : force_plot_by_domain.base_value ch = 10%Q).
  { cbv [py_index explanation2 base_values] in Hb0. simpl in Hb0.
    by injection Hb0 as <-. }
  pose proof (Hfirst b1 eq_refl) as H1.
  pose proof (Hnext 0%nat b1 b2 eq_refl eq_refl) as H2.
  pose proof (Hnext 1%nat b2 b3 eq_refl eq_refl) as H3.
  cbn [fmap list_fmap]. rewrite H3, H2, H1, H0, Hv1, Hv2. done.
Defined.

(** ** Residual plots *)

Lemma Qminimum_bound (x : Q) (r : list Q) :
  Forall (λ y, Qminimum x r <= y)%Q (x :: r).
Proof.
  unfold Qminimum. revert x. induction r as [|b r IH]; intros x.
  - simpl. constructor; [lra|constructor].
  - cbn [fold_left]. pose proof (Qminimum_le x (b :: r)) as Hx.
    unfold Qminimum in Hx. cbn [fold_left] in Hx.
    constructor; [done|].
    destruct (Qltb b x) eqn:E.
    + apply IH.
    + apply Qltb_ge in E. specialize (IH x). apply Forall_cons in IH as [Hx' Hr].
      constructor; [lra|done].
Qed.

Lemma Qmaximum_bound (x : Q) (r : list Q) :
  Forall (λ y, y <= Qmaximum x r)%Q (x :: r).
Proof.
  unfold Qmaximum. revert x. induction r as [|b r IH]; intros x.
  - simpl. constructor; [lra|constructor].
  - cbn [fold_left]. pose proof (Qmaximum_ge x (b :: r)) as Hx.
    unfold Qmaximum in Hx. cbn [fold_left] in Hx.
    constructor; [done|].
    destruct (Qltb x b) eqn:E.
    + apply IH.
    + apply Qltb_ge in E. specialize (IH x). apply Forall_cons in IH as [Hx' Hr].
      constructor; [lra|done].
Qed.

Lemma py_min_numbers (x : Q) (r : list Q) :
  py_min (Some <$> x :: r) = Ok (Some (Qminimum x r)).
Proof.
  unfold Qminimum. cbn [fmap list_fmap py_min]. f_equal.
  revert x. induction r as [|b r IH]; intros x; [done|].
  cbn [fmap list_fmap fold_left]. cbn [flt].
  destruct (Qltb b x); apply IH.
Qed.

Lemma py_max_numbers (x : Q) (r : list Q) :
  py_max (Some <$> x :: r) = Ok (Some (Qmaximum x r)).
Proof.
  unfold Qmaximum. cbn [fmap list_fmap py_max]. f_equal.
  revert x. induction r as [|b r IH]; intros x; [done|].
  cbn [fmap list_fmap fold_left]. cbn [fgt flt].
  destruct (Qltb x b); apply IH.
Qed.

Lemma all_numbers (l : list num) :
  Forall is_Some l → ∃ qs, l = Some <$> qs.
Proof.
  induction 1 as [|v l [q ->] _ [qs ->]]; [by exists []|]. by exists (q :: qs).
Qed.

Lemma Qminimum_elem (x : Q) (r : list Q) : Qminimum x r ∈ x :: r.
Proof.
  unfold Qminimum. revert x. induction r as [|b r IH]; intros x.
  - simpl. apply list_elem_of_here.
  - cbn [fold_left]. destruct (Qltb b x).
    + apply list_elem_of_further, IH.
    + specialize (IH x). apply elem_of_cons in IH as [->|Hin].
      * apply list_elem_of_here.
      * by do 2 apply list_elem_of_further.
Qed.

Lemma Qmaximum_elem (x : Q) (r : list Q) : Qmaximum x r ∈ x :: r.
Proof.
  unfold Qmaximum. revert x. induction r as [|b r IH]; intros x.
  - simpl. apply list_elem_of_here.
  - cbn [fold_left]. destruct (Qltb x b).
    + apply list_elem_of_further, IH.
    + specialize (IH x). apply elem_of_cons in IH as [->|Hin].
      * apply list_elem_of_here.
      * by do 2 apply list_elem_of_further.
Qed.

(** The smallest and the largest of an array of numbers, as Python's
    [min] and [max] find them. *)
Lemma py_min_max_numbers (qs : list Q) :
  qs ≠ [] →
  ∃ lo hi, py_min (Some <$> qs) = Ok (Some lo) ∧ py_max (Some <$> qs) = Ok (Some hi)
    ∧ lo ∈ qs ∧ hi ∈ qs ∧ Forall (λ q, lo <= q ∧ q <= hi)%Q qs.
Proof.
  destruct qs as [|x r]; [done|]. intros _.
  exists (Qminimum x r), (Qmaximum x r).
  split_and!; [apply py_min_numbers|apply py_max_numbers|apply Qminimum_elem
              |apply Qmaximum_elem|].
  pose proof (Qminimum_bound x r) as Hlo. pose proof (Qmaximum_bound x r) as Hhi.
  rewrite Forall_forall in Hlo, Hhi. apply Forall_forall. intros q Hq.
  split; [by apply Hlo|by apply Hhi].
Qed.

Lemma py_min2_numbers (a b : Q) :
  ∃ m, py_min2 (Some a) (Some b) = Some m ∧ (m = a ∨ m = b) ∧ (m <= a ∧ m <= b)%Q.
Proof.
  unfold py_min2, flt. destruct (Qltb b a) eqn:E.
  - apply Qltb_lt in E. exists b. split_and!; [done|by right|lra..].
  - apply Qltb_ge in E. exists a. split_and!; [done|by left|lra..].
Qed.

Lemma py_max2_numbers (a b : Q) :
  ∃ m, py_max2 (Some a) (Some b) = Some m ∧ (m = a ∨ m = b) ∧ (a <= m ∧ b <= m)%Q.
Proof.
  unfold py_max2, fgt, flt. destruct (Qltb a b) eqn:E.
  - apply Qltb_lt in E. exists b. split_and!; [done|by right|lra..].
  - apply Qltb_ge in E. exists a. split_and!; [done|by left|lra..].
Qed.

Lemma py_min_Ok (l : list num) (v : num) : py_min l = Ok v → l ≠ [].
Proof. by destruct l. Qed.

Lemma abs_of_differences (ts ps : list num) :
  zip_with (λ t p, option_map Qabs (t - p)%num) ts ps
  = option_map Qabs <$> zip_with nsub ts ps.
Proof.
  revert ps. induction ts as [|t ts IH]; intros [|p ps]; cbn; [done..|]. by rewrite IH.
Qed.

Lemma series_arith_same_length op (series array : list num) :
  length series = length array →
  series_arith op series array = Ok (zip_with op series array).
Proof. intros H%Nat.eqb_eq. unfold series_arith. by rewrite H. Qed.

(** Two operations on the same column and array pair the same items. *)
Lemma series_arith_rows op1 op2 (series array r1 r2 : list num) :
  series_arith op1 series array = Ok r1 →
  series_arith op2 series array = Ok r2 →
  length r1 = length series ∧ length r2 = length series
  ∧ ∀ i v1 v2, r1 !! i = Some v1 → r2 !! i = Some v2 →
      ∃ s a, v1 = op1 s a ∧ v2 = op2 s a.
Proof.
  unfold series_arith. destruct (length series =? length array)%nat eqn:E.
  - apply Nat.eqb_eq in E. intros [= <-] [= <-].
    rewrite !length_zip_with. split_and!; [lia..|].
    intros i v1 v2 (s1 & a1 & -> & Hs1 & Ha1)%lookup_zip_with_Some
                   (s2 & a2 & -> & Hs2 & Ha2)%lookup_zip_with_Some.
    rewrite Hs1 in Hs2. rewrite Ha1 in Ha2. injection Hs2 as <-. injection Ha2 as <-.
    by exists s1, a1.
  - destruct array as [|a [|a' array]].
    + by destruct series as [|s [|s' series]].
    + intros [= <-] [= <-]. rewrite !length_fmap. split_and!; [done..|].
      intros i v1 v2 H1 H2. rewrite list_lookup_fmap in H1, H2.
      destruct (series !! i) as [s|]; [|done]. cbn in H1, H2.
      injection H1 as <-. injection H2 as <-. by exists s, a.
    + by destruct series as [|s [|s' series]].
Qed.

Lemma cumulative_returned_lengths model feature_names data target_name cc X y_true :
  mapM (getitem data) feature_names = Ok X →
  getitem data target_name = Ok y_true →
  cummulative_residuals.plot_cumulative_error_distribution model feature_names data
    target_name = Ok cc →
  length y_true = length (model X).
Proof.
  intros HX Hy. unfold cummulative_residuals.plot_cumulative_error_distribution.
  rewrite HX. cbn [mbind result_bind mret result_ret]. rewrite Hy.
  cbn [mbind result_bind mret result_ret].
  destruct (negb _) eqn:E; [done|]. intros _.
  by apply negb_false_iff, Nat.eqb_eq in E.
Qed.

Section residual_plots.
Variable model : list (list cell) → list num.

Lemma scatter_returned feature_names data target_name id_col ch :
  scatter_predictions.plot_actual_vs_predicted_scatter model feature_names data
    target_name id_col = Ok ch →
  ∃ X a b c d,
    mapM (getitem data) feature_names = Ok X
    ∧ getitem data target_name = Ok (scatter_predictions.y_true ch)
    ∧ scatter_predictions.y_pred ch = model X
    ∧ series_arith (λ t p, p - t)%num (scatter_predictions.y_true ch)
        (scatter_predictions.y_pred ch) = Ok (scatter_predictions.errors ch)
    ∧ py_min (scatter_predictions.y_true ch) = Ok a
    ∧ py_min (scatter_predictions.y_pred ch) = Ok b
    ∧ py_max (scatter_predictions.y_true ch) = Ok c
    ∧ py_max (scatter_predictions.y_pred ch) = Ok d
    ∧ scatter_predictions.diagonal ch = (py_min2 a b, py_max2 c d).
Proof.
  unfold scatter_predictions.plot_actual_vs_predicted_scatter.
  destruct (mapM (getitem data) feature_names) as [X|]; [|done].
  cbn [mbind result_bind mret result_ret].
  destruct (getitem data target_name) as [y_true|]; [|done].
  cbn [mbind result_bind mret result_ret].
  destruct (getitem data id_col) as [ids|]; [|done].
  cbn [mbind result_bind mret result_ret].
  destruct (series_arith _ y_true (model X)) as [errors|] eqn:Eerr; [|done].
  cbn [mbind result_bind mret result_ret].
  destruct (py_min y_true) as [a|] eqn:Ea; [|done].
  cbn [mbind result_bind mret result_ret].
  destruct (py_min (model X)) as [b|] eqn:Eb; [|done].
  cbn [mbind result_bind mret result_ret].
  destruct (py_max y_true) as [c|] eqn:Ec; [|done].
  cbn [mbind result_bind mret result_ret].
  destruct (py_max (model X)) as [d|] eqn:Ed; [|done].
  cbn [mbind result_bind mret result_ret]. intros [= <-]; cbn.
  by exists X, a, b, c, d.
Qed.

Lemma residuals_returned feature_names data target_name id_col ch :
  model_residuals.plot_residuals_vs_predicted model feature_names data
    target_name id_col = Ok ch →
  ∃ X y_true lo hi,
    mapM (getitem data) feature_names = Ok X
    ∧ getitem data target_name = Ok y_true
    ∧ model_residuals.y_pred ch = model X
    ∧ series_arith nsub y_true (model_residuals.y_pred ch)
      = Ok (model_residuals.residuals ch)
    ∧ py_min (model_residuals.y_pred ch) = Ok lo
    ∧ py_max (model_residuals.y_pred ch) = Ok hi
    ∧ model_residuals.zero_line ch = (lo, hi).
Proof.
  unfold model_residuals.plot_residuals_vs_predicted.
  destruct (mapM (getitem data) feature_names) as [X|]; [|done].
  cbn [mbind result_bind mret result_ret].
  destruct (getitem data target_name) as [y_true|]; [|done].
  cbn [mbind result_bind mret result_ret].
  destruct (series_arith nsub y_true (model X)) as [residuals|] eqn:Eres; [|done].
  cbn [mbind result_bind mret result_ret].
  destruct (getitem data id_col) as [ids|]; [|done].
  cbn [mbind result_bind mret result_ret].
  destruct (py_min (model X)) as [lo|] eqn:Elo; [|done].
  cbn [mbind result_bind mret result_ret].
  destruct (py_max (model X)) as [hi|] eqn:Ehi; [|done].
  cbn [mbind result_bind mret result_ret]. intros [= <-]; cbn.
  by exists X, y_true, lo, hi.
Qed.

Lemma sorted_residuals_Permutation feature_names data target_name cc X y_true :
  mapM (getitem data) feature_names = Ok X →
  columns data !! target_name = Some y_true →
  cummulative_residuals.plot_cumulative_error_distribution model feature_names data
    target_name = Ok cc →
  cummulative_residuals.sorted_residuals cc
  ≡ₚ zip_with (λ t p, option_map Qabs (t - p)%num) y_true (model X).
Proof.
  intros HX Hy%getitem_Ok.
  unfold cummulative_residuals.plot_cumulative_error_distribution.
  rewrite HX. cbn [mbind result_bind mret result_ret]. rewrite Hy.
  cbn [mbind result_bind mret result_ret].
  destruct (negb _); [done|]. intros [= <-]; cbn. apply sort_nan_last_Permutation.
Qed.

(** The reference lines span the points.  When the actual and the
    predicted values are numbers, the 45-degree line of the scatter plot
    runs from the smallest to the largest of all of them, both of which
    are values of the plot; the zero line of the residual plot runs from
    the smallest to the largest prediction. *)
Theorem reference_lines_span_the_points feature_names data target_name id_col :
  (∀ ch,
     scatter_predictions.plot_actual_vs_predicted_scatter model feature_names data
       target_name id_col = Ok ch →
     let points := scatter_predictions.y_true ch ++ scatter_predictions.y_pred ch in
     Forall is_Some points →
     ∃ lo hi, scatter_predictions.diagonal ch = (Some lo, Some hi)
       ∧ Some lo ∈ points ∧ Some hi ∈ points
       ∧ Forall (λ v, ∃ q, v = Some q ∧ lo <= q ∧ q <= hi)%Q points)
  ∧ (∀ ch,
     model_residuals.plot_residuals_vs_predicted model feature_names data
       target_name id_col = Ok ch →
     Forall is_Some (model_residuals.y_pred ch) →
     ∃ lo hi, model_residuals.zero_line ch = (Some lo, Some hi)
       ∧ Some lo ∈ model_residuals.y_pred ch ∧ Some hi ∈ model_residuals.y_pred ch
       ∧ Forall (λ v, ∃ q, v = Some q ∧ lo <= q ∧ q <= hi)%Q (model_residuals.y_pred ch)).
Proof.
  split.
  - intros ch (X & a & b & c & d & _ & _ & _ & _ & Ha & Hb & Hc & Hd & ->)%scatter_returned.
    cbv zeta. intros [Ht Hp]%Forall_app.
    destruct (all_numbers _ Ht) as [ts Hts]. destruct (all_numbers _ Hp) as [ps Hps].
    rewrite Hts in Ha, Hc. rewrite Hps in Hb, Hd. rewrite Hts, Hps.
    destruct (py_min_max_numbers ts) as (tlo & thi & Htlo & Hthi & Htlo_in & Hthi_in & Htall).
    { intros ->. by apply py_min_Ok in Ha. }
    destruct (py_min_max_numbers ps) as (plo & phi & Hplo & Hphi & Hplo_in & Hphi_in & Hpall).
    { intros ->. by apply py_min_Ok in Hb. }
    rewrite Htlo in Ha. rewrite Hthi in Hc. rewrite Hplo in Hb. rewrite Hphi in Hd.
    injection Ha as <-. injection Hb as <-. injection Hc as <-. injection Hd as <-.
    destruct (py_min2_numbers tlo plo) as (lo & -> & Hlo_is & Hlo_t & Hlo_p).
    destruct (py_max2_numbers thi phi) as (hi & -> & Hhi_is & Hhi_t & Hhi_p).
    exists lo, hi. split_and!; [done| | |].
    + apply elem_of_app.
      destruct Hlo_is as [->| ->]; [left|right]; by apply list_elem_of_fmap_2.
    + apply elem_of_app.
      destruct Hhi_is as [->| ->]; [left|right]; by apply list_elem_of_fmap_2.
    + apply Forall_app. split; apply Forall_fmap.
      * eapply Forall_impl; [exact Htall|]. intros q [? ?]; simpl.
        exists q. split; [done|]. lra.
      * eapply Forall_impl; [exact Hpall|]. intros q [? ?]; simpl.
        exists q. split; [done|]. lra.
  - intros ch (X & y_true & lo & hi & _ & _ & _ & _ & Hlo & Hhi & ->)%residuals_returned Hp.
    destruct (all_numbers _ Hp) as [ps Hps]. rewrite Hps in Hlo, Hhi. rewrite Hps.
    destruct (py_min_max_numbers ps) as (plo & phi & Hplo & Hphi & Hplo_in & Hphi_in & Hpall).
    { intros ->. by apply py_min_Ok in Hlo. }
    rewrite Hplo in Hlo. rewrite Hphi in Hhi. injection Hlo as <-. injection Hhi as <-.
    exists plo, phi. split_and!; [done|by apply list_elem_of_fmap_2..|].
    apply Forall_fmap. eapply Forall_impl; [exact Hpall|]. intros q ?; simpl. by exists q.
Qed.

(** The two plots measure the error in opposite directions: the scatter
    plot's Error is predicted minus actual, the residual plot's residual
    is actual minus predicted.  On the same arguments they show the same
    predictions, and the Error of a row is the negated residual of that
    row (NaN where the residual is NaN); the chart of the cumulative error
    shows the absolute values of these residuals. *)
Theorem residual_is_the_negated_error feature_names data target_name id_col cs cr :
  scatter_predictions.plot_actual_vs_predicted_scatter model feature_names data
    target_name id_col = Ok cs →
  model_residuals.plot_residuals_vs_predicted model feature_names data
    target_name id_col = Ok cr →
  scatter_predictions.y_pred cs = model_residuals.y_pred cr
  ∧ length (scatter_predictions.errors cs) = length (model_residuals.residuals cr)
  ∧ (∀ i e r, scatter_predictions.errors cs !! i = Some e →
       model_residuals.residuals cr !! i = Some r →
       (e = None ↔ r = None)
       ∧ ∀ qe qr, e = Some qe → r = Some qr → (qe == - qr)%Q)
  ∧ ∀ cc, cummulative_residuals.plot_cumulative_error_distribution model feature_names
            data target_name = Ok cc →
      cummulative_residuals.sorted_residuals cc
      ≡ₚ option_map Qabs <$> model_residuals.residuals cr.
Proof.
  intros (X & a & b & c & d & HX & Hy & Hpred & Herr & _)%scatter_returned
         (X' & y_true & lo & hi & HX' & Hy' & Hpred' & Hres & _)%residuals_returned.
  rewrite HX in HX'. injection HX' as <-. rewrite Hy in Hy'. injection Hy' as Hyt.
  subst y_true.
  assert (Hp : scatter_predictions.y_pred cs = model_residuals.y_pred cr) by congruence.
  rewrite Hp in Herr.
  destruct (series_arith_rows _ _ _ _ _ _ Herr Hres) as (Hle & Hlr & Hrows).
  split_and!; [done|congruence| |].
  - intros i e r He Hr. destruct (Hrows i e r He Hr) as (t & p & -> & ->).
    destruct p as [p|], t as [t|]; cbn; (split; [done|]); try done.
    intros qe qr [= <-] [= <-]. ring.
  - intros cc Hcc.
    pose proof (cumulative_returned_lengths model feature_names data target_name cc
                  X _ HX Hy Hcc) as Hlen.
    rewrite Hpred' in Hres. rewrite (series_arith_same_length _ _ _ Hlen) in Hres.
    injection Hres as <-. apply getitem_Ok in Hy.
    rewrite (sorted_residuals_Permutation feature_names data target_name cc
               X _ HX Hy Hcc).
    by rewrite abs_of_differences.
Qed.

End residual_plots.

Lemma reference_lines_span_the_points_witness :
  ∃ ch, scatter_predictions.plot_actual_vs_predicted_scatter predict_253 ["size"] frame3
          "x" "material_salida" = Ok ch
    ∧ scatter_predictions.diagonal ch = (Some 1%Q, Some 7%Q).
Proof.
  assert (Hch : ∃ ch, scatter_predictions.plot_actual_vs_predicted_scatter predict_253
                        ["size"] frame3 "x" "material_salida" = Ok ch)
    by (eexists; by vm_compute).
  destruct Hch as [ch Hch]. exists ch. split; [exact Hch|].
  destruct (reference_lines_span_the_points predict_253 ["size"] frame3 "x"
              "material_salida") as [Hs _].
  destruct (Hs ch Hch) as (lo & hi & Hd & _).
  - revert Hch. vm_compute. intros [= <-]. repeat constructor; by eexists.
  - revert Hch. vm_compute. by intros [= <-].
Defined.

Lemma residual_is_the_negated_error_witness :
  ∃ cs cr,
    scatter_predictions.plot_actual_vs_predicted_scatter predict_253 ["size"] frame3
      "x" "material_salida" = Ok cs
    ∧ model_residuals.plot_residuals_vs_predicted predict_253 ["size"] frame3
        "x" "material_salida" = Ok cr
    ∧ scatter_predictions.errors cs = [Some (2 - 1); Some (5 - 7); Some (3 - 3)]%Q
    ∧ model_residuals.residuals cr = [Some (1 - 2); Some (7 - 5); Some (3 - 3)]%Q
    ∧ length (scatter_predictions.errors cs) = length (model_residuals.residuals cr).
Proof.
  assert (Hcs : ∃ cs, scatter_predictions.plot_actual_vs_predicted_scatter predict_253
                        ["size"] frame3 "x" "material_salida" = Ok cs)
    by (eexists; by vm_compute).
  assert (Hcr : ∃ cr, model_residuals.plot_residuals_vs_predicted predict_253
                        ["size"] frame3 "x" "material_salida" = Ok cr)
    by (eexists; by vm_compute).
  destruct Hcs as [cs Hcs]. destruct Hcr as [cr Hcr]. exists cs, cr.
  destruct (residual_is_the_negated_error predict_253 ["size"] frame3 "x"
              "material_salida" cs cr Hcs Hcr) as (_ & Hlen & _).
  split_and!; [done..| | |done].
  - revert Hcs. vm_compute. by intros [= <-].
  - revert Hcr. vm_compute. by intros [= <-].
Defined.

Section residual_errors.
Variable model : list (list cell) → list num.

(** What the two plots refuse, and in which order.  On a frame without
    rows both end in the ValueError of Python's [min] on an empty array.
    A missing id column is a KeyError in the scatter plot, whatever the
    model returns; the residual plot subtracts first, so there an array of
    predictions that cannot be broadcast against the column (another
    length, neither of the two being 1) is a ValueError before the id
    column is looked up. *)
Theorem residual_plots_refuse_in_order feature_names data target_name id_col X y_true :
  mapM (getitem data) feature_names = Ok X →
  columns data !! target_name = Some y_true →
  (y_true = [] → model X = [] → has_column data id_col →
   scatter_predictions.plot_actual_vs_predicted_scatter model feature_names data
     target_name id_col = Raise (ValueError (empty_msg "min"))
   ∧ model_residuals.plot_residuals_vs_predicted model feature_names data
       target_name id_col = Raise (ValueError (empty_msg "min")))
  ∧ (columns data !! id_col = None →
     scatter_predictions.plot_actual_vs_predicted_scatter model feature_names data
       target_name id_col = Raise (KeyError id_col)
     ∧ (length y_true = length (model X) →
        model_residuals.plot_residuals_vs_predicted model feature_names data
          target_name id_col = Raise (KeyError id_col))
     ∧ (length y_true ≠ length (model X) →
        length y_true ≠ 1%nat → length (model X) ≠ 1%nat →
        model_residuals.plot_residuals_vs_predicted model feature_names data
          target_name id_col = Raise (ValueError cummulative_residuals.length_msg))).
Proof.
  intros HX Hy%getitem_Ok.
  unfold scatter_predictions.plot_actual_vs_predicted_scatter,
    model_residuals.plot_residuals_vs_predicted.
  rewrite HX. cbn [mbind result_bind mret result_ret]. rewrite Hy.
  cbn [mbind result_bind mret result_ret]. split.
  - intros -> -> [ids Hids%getitem_Ok]. rewrite Hids. done.
  - intros Hid. assert (Hraise : getitem data id_col = Raise (KeyError id_col))
      by (by apply getitem_Raise).
    rewrite Hraise. split_and!; [done| |].
    + intros Heq. by rewrite (series_arith_same_length _ _ _ Heq).
    + intros Hne%Nat.eqb_neq Ht Hp. unfold series_arith, num, cell in *. rewrite Hne.
      destruct (model X) as [|p [|p' ps]]; [|done|];
        by destruct y_true as [|t [|t' ts]].
Qed.

End residual_errors.

Lemma residual_plots_refuse_in_order_witness :
  scatter_predictions.plot_actual_vs_predicted_scatter predict_253 ["size"] frame3
    "x" "id" = Raise (KeyError "id")
  ∧ model_residuals.plot_residuals_vs_predicted (λ _, [Some 2%Q; Some 5%Q]) ["size"]
      frame3 "x" "id" = Raise (ValueError cummulative_residuals.length_msg).
Proof.
  split.
  - destruct (residual_plots_refuse_in_order predict_253 ["size"] frame3 "x" "id"
                [[Some 10%Q; Some 20%Q; Some 10%Q]] [Some 1%Q; Some 7%Q; Some 3%Q])
      as (_ & Hid); [by vm_compute..|].
    destruct Hid as (Hs & _); [by vm_compute|]. exact Hs.
  - destruct (residual_plots_refuse_in_order (λ _, [Some 2%Q; Some 5%Q]) ["size"] frame3
                "x" "id" [[Some 10%Q; Some 20%Q; Some 10%Q]]
                [Some 1%Q; Some 7%Q; Some 3%Q])
      as (_ & Hid); [by vm_compute..|].
    destruct Hid as (_ & _ & Hr); [by vm_compute|]. apply Hr; simpl; lia.
Defined.

(** ** The run chart and the heatmap *)

Lemma insert_asc_Permutation {A} (key : A → Q) (x : A) (l : list A) :
  insert_asc key x l ≡ₚ x :: l.
Proof.
  induction l as [|y l IH]; simpl; [done|].
  destruct (Qle_bool (key x) (key y)); [done|]. rewrite IH. apply perm_swap.
Qed.

Lemma sort_asc_Permutation {A} (key : A → Q) (l : list A) : sort_asc key l ≡ₚ l.
Proof.
  induction l as [|x l IH]; simpl; [done|].
  rewrite insert_asc_Permutation. by constructor.
Qed.

Lemma insert_asc_sorted {A} (key : A → Q) (x : A) (l : list A) :
  StronglySorted (λ a b, key a <= key b)%Q l →
  StronglySorted (λ a b, key a <= key b)%Q (insert_asc key x l).
Proof.
  induction l as [|y l IH]; simpl; intros Hs.
  - repeat constructor.
  - apply StronglySorted_inv in Hs as [Hs Hall].
    destruct (Qle_bool (key x) (key y)) eqn:E.
    + apply Qle_bool_iff in E. constructor; [by constructor|].
      constructor; [done|]. eapply Forall_impl; [exact Hall|].
      intros z Hz; simpl in *. lra.
    + assert (key y <= key x)%Q.
      { destruct (Qlt_le_dec (key y) (key x)) as [?|Hle]; [lra|].
        apply Qle_bool_iff in Hle. congruence. }
      constructor; [by apply IH|].
      rewrite insert_asc_Permutation. by constructor.
Qed.

Lemma sort_asc_sorted {A} (key : A → Q) (l : list A) :
  StronglySorted (λ a b, key a <= key b)%Q (sort_asc key l).
Proof.
  induction l as [|x l IH]; simpl; [constructor|]. by apply insert_asc_sorted.
Qed.

Lemma split_rows_Permutation {A} (rows : list (cell * A)) :
  ((λ r : Q * A, (Some r.1, r.2)) <$> omap (λ r : cell * A, (λ t, (t, r.2)) <$> r.1) rows)
  ++ filter (λ r, r.1 = None) rows ≡ₚ rows.
Proof.
  induction rows as [|[[t|] a] rows IH].
  - done.
  - rewrite filter_cons_False by done. cbn. by constructor.
  - rewrite filter_cons_True by done. cbn.
    rewrite <- Permutation_middle. by constructor.
Qed.

(** [sort_values] rearranges whole rows: by increasing key, the rows
    without a key last. *)
Lemma sort_values_spec {A} (rows : list (cell * A)) :
  sort_values rows ≡ₚ rows
  ∧ ∃ numbers nans,
      (sort_values rows).*1 = (Some <$> numbers) ++ nans
      ∧ StronglySorted Qle numbers ∧ Forall (λ v, v = None) nans.
Proof.
  unfold sort_values.
  set (numbers := omap (λ r : cell * A, (λ t, (t, r.2)) <$> r.1) rows).
  split.
  - rewrite (sort_asc_Permutation fst numbers). apply split_rows_Permutation.
  - exists (sort_asc fst numbers).*1, (filter (λ r, r.1 = None) rows).*1.
    split_and!.
    + rewrite fmap_app, <- !list_fmap_compose. done.
    + pose proof (sort_asc_sorted fst numbers) as Hs.
      induction Hs as [|r l _ IH Hall]; [constructor|].
      rewrite fmap_cons. constructor; [done|]. by apply Forall_fmap.
    + apply Forall_fmap, Forall_forall. intros r Hr%list_elem_of_filter. by destruct Hr.
Qed.

(** The run chart along a time column.  A column that is missing is a
    KeyError, the time column first, also when center_line is neither
    'mean' nor 'median'; with both columns present such a center_line is
    the ValueError.  The chart for 'mean' plots the rows of the frame
    whole, each value against its own time, the times that are numbers in
    increasing order and those that are missing last; its centre line has
    one entry per row of the frame, each the mean of the plotted
    values. *)
Theorem run_chart_keeps_rows_whole df column time_col center_line :
  time_col ≠ "" →
  (columns df !! time_col = None →
   run_chart.plot_run_chart df column (Some time_col) center_line
   = Raise (KeyError time_col))
  ∧ (has_column df time_col → columns df !! column = None →
     run_chart.plot_run_chart df column (Some time_col) center_line
     = Raise (KeyError column))
  ∧ (has_column df time_col → has_column df column →
     center_line ≠ "mean" → center_line ≠ "median" →
     run_chart.plot_run_chart df column (Some time_col) center_line
     = Raise (ValueError run_chart.center_msg))
  ∧ (∀ t y, columns df !! time_col = Some t → columns df !! column = Some y →
     length t = length y →
     ∃ ch xs numbers nans,
       run_chart.plot_run_chart df column (Some time_col) "mean" = Ok ch
       ∧ run_chart.x_vals ch = run_chart.Times xs
       ∧ zip xs (run_chart.y_vals ch) ≡ₚ zip t y
       ∧ xs = (Some <$> numbers) ++ nans
       ∧ StronglySorted Qle numbers ∧ Forall (λ v, v = None) nans
       ∧ run_chart.center ch
         = replicate (length (index df)) (series_mean (run_chart.y_vals ch))).
Proof.
  intros Hname.
  assert (Htruthy : run_chart.truthy (Some time_col) = Some time_col).
  { destruct time_col as [|a s]; [done|]. done. }
  unfold run_chart.plot_run_chart. rewrite Htruthy. split_and!.
  - intros Ht. unfold getitem. by rewrite Ht.
  - intros [t Ht%getitem_Ok] Hy. rewrite Ht. cbn [mbind result_bind mret result_ret].
    unfold getitem. by rewrite Hy.
  - intros [t Ht%getitem_Ok] [y Hy%getitem_Ok] Hmean Hmedian. rewrite Ht.
    cbn [mbind result_bind mret result_ret]. rewrite Hy.
    cbn [mbind result_bind mret result_ret].
    rewrite decide_False by done. by rewrite decide_False by done.
  - intros t y Ht%getitem_Ok Hy%getitem_Ok Hlen. rewrite Ht.
    cbn [mbind result_bind mret result_ret]. rewrite Hy.
    cbn [mbind result_bind mret result_ret].
    destruct (sort_values_spec (zip t y)) as (Hperm & numbers & nans & Hkeys & Hs & Hn).
    set (rows := sort_values (zip t y)) in *.
    exists {| run_chart.x_vals := run_chart.Times rows.*1; run_chart.y_vals := rows.*2;
              run_chart.center :=
                replicate (length (index df)) (series_mean rows.*2) |},
      rows.*1, numbers, nans.
    cbn. split_and!; [done|done| |done|done|done|done].
    by rewrite zip_fst_snd.
Qed.

Lemma run_chart_keeps_rows_whole_witness :
  ∃ ch, run_chart.plot_run_chart frame_t2 "x" (Some "y") "mean" = Ok ch
    ∧ run_chart.x_vals ch = run_chart.Times [Some 1%Q; Some 2%Q; Some 3%Q; Some 4%Q]
    ∧ run_chart.y_vals ch = [Some 2%Q; Some 1%Q; Some 5%Q; Some 3%Q]
    ∧ length (run_chart.center ch) = 4%nat.
Proof.
  destruct (run_chart_keeps_rows_whole frame_t2 "x" "y" "mean") as (_ & _ & _ & Hok);
    [done|].
  destruct (Hok [Some 2%Q; Some 1%Q; Some 4%Q; Some 3%Q]
              [Some 1%Q; Some 2%Q; Some 3%Q; Some 5%Q])
    as (ch & xs & numbers & nans & Hch & _ & _ & _ & _ & _ & Hcenter);
    [by vm_compute..|].
  exists ch. split; [exact Hch|].
  rewrite Hcenter, length_replicate.
  revert Hch. vm_compute. by intros [= <-].
Defined.

Section heatmap_columns.
Variable corr : string → list (list cell) → result (list (list num)).

(** The heatmap drops the requested columns that the frame does not have,
    without a KeyError.  When none of them is a column of the frame the
    call is the ValueError; otherwise the correlation is computed on the
    requested columns that exist, in the order requested, and the call
    returns (with these columns in its title) or raises exactly as the
    correlation does. *)
Theorem heatmap_drops_missing_columns df columns_to_include methods :
  let present := filter (λ col, is_Some (columns df !! col)) columns_to_include in
  (Forall (λ col, columns df !! col = None) columns_to_include →
   heatmap.plot_heatmap corr df columns_to_include methods
   = Raise (ValueError heatmap.msg))
  ∧ ((∃ col, col ∈ columns_to_include ∧ has_column df col) →
     ∃ selected,
       mapM (getitem df) present = Ok selected
       ∧ Forall2 (λ col c, columns df !! col = Some c) present selected
       ∧ (∀ m, corr methods selected = Ok m →
            heatmap.plot_heatmap corr df columns_to_include methods
            = Ok {| heatmap.valid_columns := present; heatmap.corr_matrix := m |})
       ∧ (∀ e, corr methods selected = Raise e →
            heatmap.plot_heatmap corr df columns_to_include methods = Raise e)).
Proof.
  cbv zeta. unfold heatmap.plot_heatmap.
  set (present := filter (λ col, is_Some (columns df !! col)) columns_to_include).
  split.
  - intros Hnone. assert (present = []) as ->; [|done].
    unfold present. clear present.
    induction Hnone as [|col l Hcol _ IH]; [done|].
    rewrite filter_cons_False; [done|]. rewrite Hcol. by intros [? ?].
  - intros (col & Hin & Hcol).
    assert (Hne : present ≠ []).
    { intros E. assert (Hp : col ∈ present) by (by apply list_elem_of_filter).
      rewrite E in Hp. by apply elem_of_nil in Hp. }
    rewrite decide_False by done.
    destruct (mapM_getitem_Ok df present) as [selected Hsel].
    { apply Forall_forall. intros c Hc%list_elem_of_filter. by destruct Hc. }
    exists selected. rewrite Hsel. cbn [mbind result_bind mret result_ret].
    split_and!; [done| | |].
    + apply mapM_result_Forall2 in Hsel.
      eapply Forall2_impl; [exact Hsel|]. intros c v Hv. by apply getitem_Ok.
    + intros m ->. done.
    + intros e ->. done.
Qed.

End heatmap_columns.

Lemma heatmap_drops_missing_columns_witness :
  (∃ ch, heatmap.plot_heatmap (λ _ _, Ok []) frame3 ["nope"; "size"; "x"] "pearson" = Ok ch
     ∧ heatmap.valid_columns ch = ["size"; "x"])
  ∧ heatmap.plot_heatmap (λ _ _, Ok []) frame3 ["nope"; "other"] "pearson"
    = Raise (ValueError heatmap.msg).
Proof.
  destruct (heatmap_drops_missing_columns (λ _ _, Ok []) frame3 ["nope"; "size"; "x"]
              "pearson") as [_ Hsome].
  destruct Hsome as (selected & _ & _ & Hok & _).
  { exists "x". split; [|eexists; by vm_compute].
    do 2 apply list_elem_of_further. apply list_elem_of_here. }
  destruct (heatmap_drops_missing_columns (λ _ _, Ok []) frame3 ["nope"; "other"]
              "pearson") as [Hnone _].
  split.
  - eexists. split; [by apply Hok|]. by vm_compute.
  - apply Hnone. repeat constructor; by vm_compute.
Defined.

(** ** Interaction strengths and the summary plot *)

Lemma sorted_lookup_le (s : list Q) (i j : nat) (a b : Q) :
  StronglySorted Qle s → (i ≤ j)%nat → s !! i = Some a → s !! j = Some b → (a <= b)%Q.
Proof.
  intros Hs Hij Ha Hb. destruct (decide (i = j)) as [->|Hne].
  - rewrite Ha in Hb. injection Hb as <-. lra.
  - rewrite <- (take_drop_middle _ _ _ Ha) in Hs.
    apply StronglySorted_app_1_r, StronglySorted_inv in Hs as [_ Hall].
    rewrite Forall_forall in Hall. apply Hall.
    apply list_elem_of_lookup. exists (j - S i)%nat. rewrite lookup_drop.
    by replace (S i + (j - S i))%nat with j by lia.
Qed.

(** A quantile is not below the smallest value. *)
Lemma quantile_above_a_value (l : list Q) (q t : Q) :
  quantile l q = Some t → ∃ a, a ∈ l ∧ (a <= t)%Q.
Proof.
  unfold quantile. pose proof (sort_sorted l) as Hs. pose proof (sort_Permutation l) as Hp.
  destruct (sort l) as [|x s] eqn:Es; [done|]. cbv zeta. intros Ht.
  apply (inj Some) in Ht. rewrite <- Ht. clear Ht t.
  set (h := (q * inject_Z (Z.of_nat (length (x :: s)) - 1))%Q).
  set (i := Z.to_nat (Qfloor h)). set (j := Z.to_nat (Qfloor h + 1)).
  assert (Hij : (i ≤ j)%nat) by lia.
  assert (Hfrac : (0 <= h - inject_Z (Qfloor h))%Q) by (pose proof (Qfloor_le h); lra).
  set (frac := (h - inject_Z (Qfloor h))%Q) in *.
  set (a := default x ((x :: s) !! i)).
  set (b := default a ((x :: s) !! j)).
  assert (Ha : a ∈ x :: s).
  { unfold a. destruct ((x :: s) !! i) as [a'|] eqn:Ei; simpl.
    - by eapply list_elem_of_lookup_2.
    - apply list_elem_of_here. }
  assert (Hab : (a <= b)%Q).
  { unfold b, a. destruct ((x :: s) !! j) as [b'|] eqn:Ej; simpl; [|lra].
    destruct ((x :: s) !! i) as [a'|] eqn:Ei; simpl.
    - by apply (sorted_lookup_le (x :: s) i j).
    - apply lookup_ge_None in Ei. apply lookup_lt_Some in Ej. lia. }
  exists a. split; [by rewrite <- Hp|].
  assert (0 <= (b - a) * frac)%Q by (apply Qmult_le_0_compat; [lra|done]).
  clearbody a b frac. lra.
Qed.

Lemma last_of_descending (l : list Q) (v : Q) :
  StronglySorted (λ a b, b <= a)%Q l → last l = Some v → Forall (λ a, v <= a)%Q l.
Proof.
  intros Hs Hv. apply Forall_lookup. intros i a Ha.
  rewrite last_lookup in Hv.
  destruct (decide (i = Nat.pred (length l))) as [->|Hne].
  - rewrite Ha in Hv. injection Hv as <-. lra.
  - rewrite <- (take_drop_middle _ _ _ Ha) in Hs.
    apply StronglySorted_app_1_r, StronglySorted_inv in Hs as [_ Hall].
    rewrite Forall_forall in Hall. apply (Hall v).
    apply lookup_lt_Some in Ha as Hlt.
    apply list_elem_of_lookup. exists (Nat.pred (length l) - S i)%nat. rewrite lookup_drop.
    by replace (S i + (Nat.pred (length l) - S i))%nat with (Nat.pred (length l)) by lia.
Qed.

(** The lower threshold is not below the smallest strength. *)
Lemma low_threshold_above_a_strength (strengths : list Q) (low : Q) :
  (feature_interaction.thresholds strengths).1 = Some low →
  ∃ a, a ∈ strengths ∧ (a <= low)%Q.
Proof.
  unfold feature_interaction.thresholds.
  destruct (feature_interaction.one_value strengths).
  - destruct strengths as [|x r]; [done|]. cbn. intros [= <-].
    exists (Qminimum x r). split; [apply Qminimum_elem|].
    pose proof (Qminimum_le x r). pose proof (Qmaximum_ge x r).
    assert (0 <= (Qmaximum x r - Qminimum x r) / 3)%Q; [|lra].
    apply Qle_shift_div_l; lra.
  - cbn. apply quantile_above_a_value.
Qed.

Lemma categorize_monotone (low high : num) (a b : Q) :
  (a <= b)%Q →
  (rank (feature_interaction.categorize_strength low high a)
   ≤ rank (feature_interaction.categorize_strength low high b))%nat.
Proof.
  intros Hab. unfold feature_interaction.categorize_strength, fle.
  destruct low as [l|], high as [h|]; simpl;
    repeat match goal with
           | |- context [Qle_bool ?x ?y] =>
               let E := fresh "E" in
               destruct (Qle_bool x y) eqn:E;
               [apply Qle_bool_iff in E
               |assert (y < x)%Q
                  by (destruct (Qlt_le_dec y x) as [?|Hle];
                      [done|apply Qle_bool_iff in Hle; congruence]); clear E]
           end; simpl; try lia; lra.
Qed.

(** The categories of the interaction chart follow the strength.  The rows
    of a returned chart come in decreasing order of strength, at most
    top_n of them; a row at least as strong as another has at least its
    category (Low, Medium, High); the weakest row shown is always Low, so
    that rows of one common strength are all Low. *)
Theorem interaction_categories_follow_the_strength interactions columns_of_data top_n rows :
  feature_interaction.plot_feature_interactions_catboost interactions columns_of_data
    top_n = Ok rows →
  StronglySorted (λ a b, feature_interaction.strength b <= feature_interaction.strength a)%Q
    rows
  ∧ (0 ≤ top_n → length rows = Nat.min (Z.to_nat top_n) (length interactions))
  ∧ (∀ a b, a ∈ rows → b ∈ rows →
       (feature_interaction.strength a <= feature_interaction.strength b)%Q →
       (rank (feature_interaction.strength_category a)
        ≤ rank (feature_interaction.strength_category b))%nat)
  ∧ (∀ r, last rows = Some r →
       feature_interaction.strength_category r = feature_interaction.Low)
  ∧ ((∀ a b, a ∈ rows → b ∈ rows →
        (feature_interaction.strength a == feature_interaction.strength b)%Q) →
     Forall (λ r, feature_interaction.strength_category r = feature_interaction.Low) rows).
Proof.
  unfold feature_interaction.plot_feature_interactions_catboost.
  destruct (mapM (λ r : Z * Z * Q, py_index columns_of_data r.1.1) interactions)
    as [f1|] eqn:E1; [|done].
  cbn [mbind result_bind mret result_ret].
  destruct (mapM (λ r : Z * Z * Q, py_index columns_of_data r.1.2) interactions)
    as [f2|] eqn:E2; [|done].
  cbn [mbind result_bind mret result_ret].
  apply mapM_result_Forall2, Forall2_length in E1.
  apply mapM_result_Forall2, Forall2_length in E2.
  set (df := zip (zip f1 f2) interactions.*2).
  assert (Hdf : length df = length interactions).
  { unfold df. rewrite !length_zip, length_fmap. lia. }
  destruct (top_rows snd df top_n) as (rest & _ & Hsorted & _ & Hpos & _).
  set (shown := slice_to (sort_desc snd df) top_n) in *.
  destruct (feature_interaction.thresholds shown.*2) as [low high] eqn:Eth.
  intros [= <-].
  set (mk := λ r : string * string * Q, _).
  assert (Hstrength : ∀ r, feature_interaction.strength (mk r) = r.2) by done.
  assert (Hcat : ∀ r, feature_interaction.strength_category (mk r)
                      = feature_interaction.categorize_strength low high r.2) by done.
  assert (Hmono : ∀ a b, a ∈ mk <$> shown → b ∈ mk <$> shown →
            (feature_interaction.strength a <= feature_interaction.strength b)%Q →
            (rank (feature_interaction.strength_category a)
             ≤ rank (feature_interaction.strength_category b))%nat).
  { intros a b (ra & -> & _)%list_elem_of_fmap (rb & -> & _)%list_elem_of_fmap.
    rewrite !Hstrength, !Hcat. apply categorize_monotone. }
  assert (Hlast : ∀ r, last (mk <$> shown) = Some r →
            feature_interaction.strength_category r = feature_interaction.Low).
  { intros r Hr. rewrite fmap_last in Hr.
    destruct (last shown) as [rl|] eqn:El; [|done]. injection Hr as <-.
    rewrite Hcat. unfold feature_interaction.categorize_strength.
    assert (Hall : Forall (λ a, rl.2 <= a)%Q shown.*2).
    { apply last_of_descending.
      - clear -Hsorted. induction Hsorted as [|r l _ IH Hall]; [constructor|].
        rewrite fmap_cons. constructor; [done|]. by apply Forall_fmap.
      - by rewrite fmap_last, El. }
    destruct low as [l|].
    - destruct (low_threshold_above_a_strength shown.*2 l) as (a & Ha & Hal).
      { by rewrite Eth. }
      rewrite Forall_forall in Hall. specialize (Hall a Ha). simpl in Hall.
      assert (Hle : (rl.2 <= l)%Q) by lra.
      apply Qle_bool_iff in Hle. simpl. by rewrite Hle.
    - exfalso. revert Eth. unfold feature_interaction.thresholds.
      assert (Hne : shown.*2 ≠ []).
      { intros E. apply last_Some in El as [l' ->]. rewrite fmap_app in E.
        by destruct (l'.*2). }
      destruct (feature_interaction.one_value shown.*2).
      + destruct (shown.*2); [done|]. done.
      + unfold quantile. pose proof (sort_Permutation shown.*2) as Hp.
        destruct (sort shown.*2) as [|x s]; [|done].
        apply Permutation_nil_l in Hp. done. }
  split_and!.
  - clear -Hsorted. induction Hsorted as [|r l _ IH Hall]; [constructor|].
    rewrite fmap_cons. constructor; [done|]. by apply Forall_fmap.
  - intros H. rewrite length_fmap, (Hpos H), Hdf. done.
  - done.
  - done.
  - intros Hflat. apply Forall_forall. intros r Hr.
    destruct (last (mk <$> shown)) as [rl|] eqn:El.
    + pose proof (Hlast rl eq_refl) as Hlow.
      assert (Hrl : rl ∈ mk <$> shown).
      { apply last_Some in El as [l' ->]. apply elem_of_app. right.
        apply list_elem_of_here. }
      pose proof (Hmono r rl Hr Hrl) as Hle. rewrite Hlow in Hle.
      specialize (Hle ltac:(rewrite (Hflat r rl Hr Hrl); lra)).
      destruct (feature_interaction.strength_category r); simpl in Hle; [done|lia..].
    + apply last_None in El. rewrite El in Hr. by apply elem_of_nil in Hr.
Qed.

Lemma interaction_categories_follow_the_strength_witness :
  ∃ rows, feature_interaction.plot_feature_interactions_catboost
            [(0, 1, 5%Q); (1, 2, 9%Q); (0, 2, 1%Q)] ["a"; "b"; "c"] 3 = Ok rows
    ∧ feature_interaction.strength_category <$> rows
      = [feature_interaction.High; feature_interaction.Medium; feature_interaction.Low]
    ∧ length rows = 3%nat.
Proof.
  assert (Hrows : ∃ rows, feature_interaction.plot_feature_interactions_catboost
                            [(0, 1, 5%Q); (1, 2, 9%Q); (0, 2, 1%Q)] ["a"; "b"; "c"] 3
                          = Ok rows) by (eexists; by vm_compute).
  destruct Hrows as [rows Hrows]. exists rows. split; [exact Hrows|].
  destruct (interaction_categories_follow_the_strength _ _ _ _ Hrows)
    as (_ & Hlen & _).
  split; [|by rewrite Hlen].
  revert Hrows. vm_compute. by intros [= <-].
Defined.

Lemma elem_of_concat {A} (ls : list (list A)) (x : A) :
  x ∈ concat ls ↔ ∃ l, x ∈ l ∧ l ∈ ls.
Proof.
  rewrite list_elem_of_In, in_concat. split.
  - intros (l & Hl & Hx). exists l. by rewrite !list_elem_of_In.
  - intros (l & Hx & Hl). exists l. by rewrite <- !list_elem_of_In.
Qed.

Lemma elem_of_long_frame (names : list string) (cols : list (list Q)) (name : string) (v : Q) :
  (name, v) ∈ concat (zip_with (λ name col, (λ v, (name, v)) <$> col) names cols)
  ↔ ∃ k col, names !! k = Some name ∧ cols !! k = Some col ∧ v ∈ col.
Proof.
  rewrite elem_of_concat. split.
  - intros (l & Hv & Hl). apply elem_of_lookup_zip_with in Hl as (k & n & col & -> & Hn & Hc).
    apply list_elem_of_fmap in Hv as (v' & [= -> ->] & Hv').
    by exists k, col.
  - intros (k & col & Hn & Hc & Hv).
    exists ((λ v, (name, v)) <$> col). split; [by apply list_elem_of_fmap_2|].
    apply elem_of_lookup_zip_with. by exists k, name, col.
Qed.

(** The summary plot shows the features with the largest mean absolute
    SHAP value.  For an explanation with rows as long as the list of
    column names, the features are ranked by the mean of the absolute
    values of their column; the max_display first of that ranking are
    shown, no feature left out ranks above a shown one, and the points are
    exactly the SHAP values of the columns of the shown features, each
    under the name of its feature. *)
Theorem summary_plot_shows_the_top_features shap_values columns_of_data max_display points :
  values shap_values ≠ [] →
  summary_plot.plot_shap_summary_catboost shap_values columns_of_data max_display
    = Ok points →
  let vals := values shap_values in
  let ranking := zip columns_of_data
                   ((λ k, summary_plot.mean_abs (summary_plot.column vals k))
                    <$> seq 0 (length columns_of_data)) in
  Forall (λ row, length row = length columns_of_data) vals
  ∧ ∃ shown rest,
      shown ++ rest ≡ₚ ranking
      ∧ StronglySorted (λ a b, b.2 <= a.2)%Q shown
      ∧ (∀ s r, s ∈ shown → r ∈ rest → (r.2 <= s.2)%Q)
      ∧ (0 ≤ max_display →
         length shown = Nat.min (Z.to_nat max_display) (length columns_of_data))
      ∧ ∀ name v, (name, v) ∈ points ↔
          name ∈ shown.*1
          ∧ ∃ k row, columns_of_data !! k = Some name ∧ row ∈ vals ∧ row !! k = Some v.
Proof.
  intros Hne. unfold summary_plot.plot_shap_summary_catboost.
  destruct (values shap_values) as [|row0 vals'] eqn:Evals; [done|].
  set (vals := row0 :: vals') in *.
  destruct (forallb _ vals) eqn:Eshape; [|done].
  cbn [negb]. intros [= <-]. cbv zeta.
  assert (Hshape : Forall (λ row, length row = length columns_of_data) vals).
  { apply Forall_forall. intros row Hrow.
    rewrite forallb_forall in Eshape. apply Nat.eqb_eq, Eshape.
    by apply list_elem_of_In. }
  split; [done|].
  set (cols := summary_plot.column vals <$> seq 0 (length columns_of_data)).
  assert (Hranking : zip columns_of_data (summary_plot.mean_abs <$> cols)
                     = zip columns_of_data
                         ((λ k, summary_plot.mean_abs (summary_plot.column vals k))
                          <$> seq 0 (length columns_of_data))).
  { unfold cols. by rewrite <- list_fmap_compose. }
  rewrite Hranking.
  set (ranking := zip columns_of_data _).
  destruct (top_rows snd ranking max_display) as (rest & Hperm & Hsorted & Hrest & Hpos & _).
  set (shown := slice_to (sort_desc snd ranking) max_display) in *.
  exists shown, rest. split_and!; [done..| |].
  - intros H. rewrite (Hpos H). unfold ranking.
    by rewrite length_zip, length_fmap, length_seq, Nat.min_id.
  - intros name v. rewrite list_elem_of_filter. cbn [fst].
    rewrite elem_of_long_frame. split.
    + intros (Hshown & k & col & Hname & Hcol & Hv). split; [done|].
      unfold cols in Hcol. apply list_lookup_fmap_Some in Hcol as (k' & -> & Hk').
      apply lookup_seq in Hk' as [-> Hk]. cbn [Nat.add] in *.
      unfold summary_plot.column in Hv.
      apply list_elem_of_fmap in Hv as (row & -> & Hrow).
      exists k, row. split_and!; [done..|].
      rewrite Forall_forall in Hshape. specialize (Hshape row Hrow).
      destruct (lookup_lt_is_Some_2 row k) as [v Hv]; [lia|]. by rewrite Hv.
    + intros (Hshown & k & row & Hname & Hrow & Hv). split; [done|].
      exists k, (summary_plot.column vals k). split_and!; [done| |].
      * unfold cols. apply list_lookup_fmap_Some. exists k. split; [done|].
        apply lookup_seq. split; [done|]. by apply lookup_lt_Some in Hname.
      * unfold summary_plot.column. apply list_elem_of_fmap. exists row.
        by rewrite Hv.
Qed.

Lemma summary_plot_shows_the_top_features_witness :
  ∃ points, summary_plot.plot_shap_summary_catboost explanation2 ["a"; "b"; "c"] 2
            = Ok points
    ∧ points = [("a", 1%Q); ("a", 2%Q); ("b", (-3)%Q); ("b", 0.25%Q)]
    ∧ (("b", 0.25%Q) ∈ points ↔
         ∃ k row, ["a"; "b"; "c"] !! k = Some "b" ∧ row ∈ values explanation2
                  ∧ row !! k = Some 0.25%Q).
Proof.
  assert (Hp : ∃ points, summary_plot.plot_shap_summary_catboost explanation2
                           ["a"; "b"; "c"] 2 = Ok points) by (eexists; by vm_compute).
  destruct Hp as [points Hp]. exists points. split; [exact Hp|].
  assert (Epoints : points = [("a", 1%Q); ("a", 2%Q); ("b", (-3)%Q); ("b", 0.25%Q)]).
  { revert Hp. vm_compute. by intros [= <-]. }
  split; [exact Epoints|].
  destruct (summary_plot_shows_the_top_features explanation2 ["a"; "b"; "c"] 2 points)
    as (_ & shown & rest & _ & _ & _ & _ & Hpoints); [done|exact Hp|].
  rewrite (Hpoints "b" 0.25%Q). split; [by intros [_ ?]|]. intros H. split; [|done].
  destruct (proj1 (Hpoints "b" 0.25%Q)) as [Hb _]; [|exact Hb].
  rewrite Epoints. do 3 apply list_elem_of_further. apply list_elem_of_here.
Defined.
